(** * zitrog: ID3 tag retroencoder

    A shallow embedding of [zitrog.py]: the synchsafe size codec, the ID3
    container parser [read_id3] with its correction loop and correction
    cache, and the container writer [write_id3]; then the figures of the log
    ([padded_hex]), the question [yes_no], and the loop of [main] over the
    input files and an output directory.

    Conventions of the embedding:
    - [bytes] objects are [list byte]; a file opened for reading is the list
      of the bytes that are still unread;
    - a Python [str] holding text is the list of its code points ([list N]);
      the strings of binary digits built by the size codec are [list ascii];
    - the dictionary [accepted_corrections] is a [gmap];
    - exceptions are values of [exn]; [input()] reads from a list of lines
      and [print] appends to a list of events, both kept in [world];
    - the files that the program reads and writes are a [gmap] from the
      canonical paths of the files to their bytes, so that a file read and a
      file written under two paths of one file are one file; directories,
      links and permissions are outside of the model;
    - a run of [main] has a [session]: the cache, the input, the console and
      the files. *)

From Stdlib Require Import NArith List Ascii String Lia Sorted.
From Stdlib.Strings Require Import Byte.
From stdpp Require Import base list gmap.

Open Scope N_scope.

(** ** Exceptions and results *)

Inductive exn : Type :=
| ValueError                      (* [int("", 2)] *)
| OverflowError                   (* [int.to_bytes]: int too big to convert *)
| UnicodeDecodeError
| UnicodeEncodeError
| EOFError                        (* [input()] at end of input *)
| NameError (name : string)       (* a name bound neither locally nor globally *)
| TypeError                       (* [raise "..."]: a str is no exception *)
| FileNotFoundError               (* [open(path, "rb")]: no file at the path *)
| OtherError (code : N).          (* any other exception (MemoryError, ...) *)

Inductive result (A : Type) : Type :=
| Ok (value : A)
| Raise (e : exn).
Arguments Ok {A} value.
Arguments Raise {A} e.

(** ** Python built-ins used by the size codec *)

(** [bin(n)[2:]] for a positive [n]. *)
Fixpoint pos_digits (p : positive) : list ascii :=
  match p with
  | xH => ["1"%char]
  | xO q => pos_digits q ++ ["0"%char]
  | xI q => pos_digits q ++ ["1"%char]
  end.

Definition bin_digits (n : N) : list ascii :=
  match n with
  | N0 => ["0"%char]
  | Npos p => pos_digits p
  end.

(** ["{:0<width>b}".format(n)]: the binary digits of [n], padded on the left
    with zeros up to [width]; never truncated. *)
Definition format_b (width : nat) (n : N) : list ascii :=
  replicate (width - length (bin_digits n)) "0"%char ++ bin_digits n.

Definition digit_value (c : ascii) : option N :=
  if Ascii.eqb c "0" then Some 0
  else if Ascii.eqb c "1" then Some 1
  else None.

Fixpoint int_digits (acc : N) (s : list ascii) : option N :=
  match s with
  | [] => Some acc
  | c :: s' =>
      match digit_value c with
      | Some d => int_digits (2 * acc + d) s'
      | None => None
      end
  end.

(** [int(s, 2)] for a string of binary digits. [None] is ValueError: the empty
    string, or a character that is no binary digit (signs, blanks, underscores
    and the [0b] prefix, which [int] also reads, never occur in the strings the
    program builds). *)
Definition int_base2 (s : list ascii) : option N :=
  match s with
  | [] => None
  | _ :: _ => int_digits 0 s
  end.

(** [textwrap.wrap(text, width)] for a text without blanks or hyphens: the
    text is cut from the left into lines of [width] characters, the last line
    holding what remains. The fuel is the length of the text. *)
Fixpoint wrap_lines (fuel width : nat) (text : list ascii) : list (list ascii) :=
  match fuel, text with
  | S fuel', _ :: _ => take width text :: wrap_lines fuel' width (drop width text)
  | _, _ => []
  end.

Definition wrap (text : list ascii) (width : nat) : list (list ascii) :=
  wrap_lines (length text) width text.

Definition byte_of_N (n : N) : byte := default x00 (Byte.of_N (n mod 256)).

(** [v.to_bytes(len, "big")] *)
Definition to_bytes_big (len : nat) (v : N) : result (list byte) :=
  if v <? 256 ^ N.of_nat len
  then Ok (map (fun i => byte_of_N (v / 256 ^ N.of_nat i)) (rev (seq 0 len)))
  else Raise OverflowError.

(** [int.from_bytes(bs, "big")] *)
Definition from_bytes_big (bs : list byte) : N :=
  fold_left (fun acc b => 256 * acc + Byte.to_N b) bs 0.

(** ** The synchsafe size codec *)

(** [read_id3], lines 131-136:
    [int("".join("{:08b}".format(byte)[1:] for byte in id3_size_encoded), 2)] *)
Definition synchsafe_decode (id3_size_encoded : list byte) : option N :=
  int_base2
    (concat (map (fun byte => drop 1 (format_b 8 (Byte.to_N byte))) id3_size_encoded)).

(** [write_id3], lines 288-293:
    [int("".join(f"0{byte}" for byte in wrap("{:028b}".format(n), 7)), 2).to_bytes(4, "big")] *)
Definition synchsafe_encode (n : N) : result (list byte) :=
  match int_base2 (concat (map (fun chunk => "0"%char :: chunk) (wrap (format_b 28 n) 7))) with
  | Some v => to_bytes_big 4 v
  | None => Raise ValueError
  end.

(** ** Text and byte strings *)

(** The code points of a literal. *)
Definition text (s : string) : list N := map N_of_ascii (list_ascii_of_string s).

(** [bs.decode("ISO-8859-1")]: every byte is the code point of its value. *)
Definition decode_iso (bs : list byte) : list N := map Byte.to_N bs.

(** [s.encode("ISO-8859-1")] *)
Definition encode_iso (s : list N) : result (list byte) :=
  if forallb (fun c => c <? 256) s then Ok (map byte_of_N s)
  else Raise UnicodeEncodeError.

(** [l[1:-k]] *)
Definition slice_1_to_last {A} (k : nat) (l : list A) : list A :=
  drop 1 (take (length l - k) l).

(** [str.isspace] of one character. *)
Definition isspace (c : N) : bool :=
  ((9 <=? c) && (c <=? 13)) || ((28 <=? c) && (c <=? 32))
  || (c =? 133) || (c =? 160) || (c =? 5760)
  || ((8192 <=? c) && (c <=? 8202))
  || (c =? 8232) || (c =? 8233) || (c =? 8239) || (c =? 8287) || (c =? 12288).

Fixpoint lstrip (s : list N) : list N :=
  match s with
  | c :: s' => if isspace c then lstrip s' else s
  | [] => []
  end.

(** [s.strip()] *)
Definition strip (s : list N) : list N := rev (lstrip (rev (lstrip s))).

Definition tag_char (c : N) : bool :=
  ((65 <=? c) && (c <=? 90)) || ((48 <=? c) && (c <=? 57)).

(** [bool(re_search(r"^[A-Z0-9]{4}$", tag_name))]. In Python [$] matches at
    the end of the string and also just before a newline that ends it. *)
Definition valid_tag_name (tag_name : list N) : bool :=
  match tag_name with
  | [a; b; c; d] | [a; b; c; d; 10] =>
      tag_char a && tag_char b && tag_char c && tag_char d
  | _ => false
  end.

(** ** The data model *)

(** One entry of [id3_definition["frames"]]. *)
Record frame : Type := Frame {
  tag : list N;
  data_flags : list byte;
  data : list byte;
  data_was_converted : bool
}.

(** [id3_definition] *)
Record container : Type := Container {
  header : list byte;
  frames : list frame;
  content_offset : N
}.

(** ** Console and correction cache *)

(** The calls of [print_log_lines], by what they report. *)
Inductive log_line : Type :=
| LogInputPath
| LogHeader
| LogInvalidNextHeader
| LogSkippedTag
| LogFatalDecodingError
| LogFrame
| LogEncodingError
| LogFatalEncodingError
| LogResult.

Inductive event : Type :=
| Printed (line : log_line)
| Prompted.                       (* [input("Enter to Accept, ...")] *)

(** What a run shares between files and calls: the module-level dictionary
    [accepted_corrections], the lines still to be read from standard input,
    and what was written to the console so far. *)
Record world : Type := World {
  accepted_corrections : gmap (list N) (list N);
  stdin : list (list N);
  stdout : list event
}.

Definition M (A : Type) : Type := world -> result A * world.

Definition ret {A} (a : A) : M A := fun w => (Ok a, w).

Definition raise {A} (e : exn) : M A := fun w => (Raise e, w).

Definition bind {A B} (m : M A) (k : A -> M B) : M B :=
  fun w =>
    match m w with
    | (Ok a, w') => k a w'
    | (Raise e, w') => (Raise e, w')
    end.

Notation "'let*' x ':=' m 'in' k" := (bind m (fun x => k))
  (at level 10, x name, m at level 100, k at level 200).

Notation "m ';;' k" := (bind m (fun _ => k))
  (at level 100, k at level 200, right associativity).

Definition print_log_lines (line : log_line) : M unit :=
  fun w =>
    (Ok tt, World (accepted_corrections w) (stdin w) (stdout w ++ [Printed line])).

(** ** Names in scope *)

(** The names bound at module level when a function of the module runs. *)
Definition module_globals : list string :=
  ["argparse"; "Enum"; "os_makedirs"; "os_path"; "os_remove"; "re_search";
   "re_sub"; "wrap"; "unidecode"; "Action"; "DEFAULT_PRESERVED_TAGS";
   "ID3_DATA_FLAG_SIZE"; "ID3_DELIMITER"; "ENCODING_ISO"; "ENCODING_UNICODE";
   "ENCODING_SHIFT_JIS"; "LOGO"; "accepted_corrections"; "print_log_lines";
   "yes_no"; "padded_hex"; "encode_data"; "validate_data_encode";
   "identify_encode_error_positions"; "suggest_data_changes"; "read_id3";
   "write_id3"; "main"]%string.

(** The parameter and the local variables of
    [identify_encode_error_positions]. *)
Definition identify_locals : list string :=
  ["data"; "error_positions"; "char_index"; "char"]%string.

Definition bound (locals : list string) (name : string) : bool :=
  existsb (String.eqb name) (locals ++ module_globals).

(** The names the handler of the bare [except:] of
    [identify_encode_error_positions] reads, in evaluation order (lines
    96-103). *)
Definition fatal_handler_names : list string :=
  ["print_log_lines"; "data_raw"; "data_is_unicode"; "alt_data_decoded";
   "alt_data_decoded"; "initial_encoding_error"]%string.

(** ** The interface of the encoder

    The text codecs and the transliteration are libraries outside the
    repository: the program is modelled over any such functions (the
    variables of section [Retroencoder]). *)

(** What [char.encode("Shift-JIS")] does for one character. *)
Inductive encoded : Type :=
| Encoded (bs : list byte)
| Unencodable                     (* raises UnicodeEncodeError *)
| Failed (code : N).              (* raises another exception *)

(** ** The container writer *)

(** One round of the loop of [write_id3] (lines 277-281). *)
Definition assemble_frame (assembled_frames : list byte) (fr : frame)
  : result (list byte) :=
  match encode_iso (tag fr) with
  | Raise e => Raise e
  | Ok tag_bytes =>
      match to_bytes_big 4 (N.of_nat (length (data fr))) with
      | Raise e => Raise e
      | Ok length_bytes =>
          Ok ((((assembled_frames ++ tag_bytes) ++ length_bytes)
                 ++ data_flags fr) ++ data fr)
      end
  end.

Fixpoint assemble_frames (assembled_frames : list byte) (frs : list frame)
  : result (list byte) :=
  match frs with
  | [] => Ok assembled_frames
  | fr :: frs' =>
      match assemble_frame assembled_frames fr with
      | Raise e => Raise e
      | Ok assembled_frames' => assemble_frames assembled_frames' frs'
      end
  end.

(** What [write_id3] leaves at the output path. *)
Inductive output : Type :=
| NotOpened (e : exn)                        (* raised before [open] *)
| Truncated (written : list byte) (e : exn)  (* raised between two writes *)
| Written (content : list byte).

(** The files, by their canonical paths. *)
Abbreviation file_system := (gmap (list N) (list byte)).

Section Retroencoder.

(** The canonical path of the file that a path names ([os.path.realpath]):
    two paths name one file exactly when their canonical paths are equal,
    as ["a.mp3"] and ["./a.mp3"] do. *)
Variable realpath : list N -> list N.

(** The file object that [open(path, "wb")] returns keeps the bytes that it
    is given in a buffer and hands them to the file when the buffer is full
    and when the file object is closed (io.BufferedWriter): as long as the
    file object is open, the file holds the first [flushed writes] bytes of
    what the calls of [write] have given it so far, a number that depends on
    the sizes of these [writes] and on the size of the buffer. *)
Variable flushed : list (list byte) -> nat.

(** [open(input_path, "rb")] of line 297. The output file has been opened for
    writing (line 285), which made or emptied the file at [output_path], and
    has been given [writes]; it is not closed yet. *)
Definition reopened (fs : file_system) (input_path output_path : list N)
    (writes : list (list byte)) : option (list byte) :=
  <[realpath output_path := take (flushed writes) (concat writes)]> fs
    !! realpath input_path.

(** [write_id3(input_path, output_dir_path, id3_definition, auto_overwrite)]
    from line 276 on, that is once the output path is free or may be
    overwritten (the path, the directory and the overwrite question of lines
    253-274 are the matter of [write_id3_file]). [fs] holds the files when
    line 276 is reached. The input file is not the one that [read_id3] read,
    but the one that is found at [input_path] when the output file has been
    opened and written to. *)
Definition write_id3 (fs : file_system) (input_path output_path : list N)
    (id3_definition : container) : output :=
  match assemble_frames [] (frames id3_definition) with
  | Raise e => NotOpened e
  | Ok assembled_frames =>
      let assembled_frames := assembled_frames ++ replicate 32 x00 in
      let output_file := header id3_definition in
      match synchsafe_encode (N.of_nat (length assembled_frames)) with
      | Raise e => Truncated output_file e
      | Ok size_bytes =>
          let output_file := output_file ++ size_bytes in
          let output_file := output_file ++ assembled_frames in
          match reopened fs input_path output_path
                  [header id3_definition; size_bytes; assembled_frames] with
          | None => Truncated output_file FileNotFoundError
          | Some input_file =>
              Written
                (output_file
                   ++ drop (N.to_nat (content_offset id3_definition)) input_file)
          end
      end
  end.

(** ** The text transcoder and the container parser *)

(** [char.encode("Shift-JIS")] for one character. *)
Variable shift_jis : N -> encoded.

(** [bs.decode("UTF-16")]; [None] is UnicodeDecodeError. *)
Variable utf_16 : list byte -> option (list N).

(** [unidecode(char)] for one character. *)
Variable unidecode : N -> list N.

(** [data.encode("Shift-JIS")]: the codec is stateless, a text is encoded
    character by character and the first character that fails raises. *)
Fixpoint encode_shift_jis (data : list N) : result (list byte) :=
  match data with
  | [] => Ok []
  | char :: rest =>
      match shift_jis char with
      | Encoded bs =>
          match encode_shift_jis rest with
          | Ok bs' => Ok (bs ++ bs')
          | Raise e => Raise e
          end
      | Unencodable => Raise UnicodeEncodeError
      | Failed code => Raise (OtherError code)
      end
  end.

Definition encode_data (data : list N) : result (list byte) :=
  match encode_shift_jis data with
  | Ok bs => Ok (x00 :: bs ++ [x00])
  | Raise e => Raise e
  end.

Definition validate_data_encode (data : list N) : bool :=
  match encode_data data with
  | Ok _ => true
  | Raise _ => false
  end.

(** The handler of the bare [except:] (lines 95-103). Its names are looked up
    among the function's locals and the module's globals; the first one that is
    bound in neither raises NameError before anything is printed. *)
Definition fatal_encoding_error (code : N) : list event * exn :=
  match List.find (fun name => negb (bound identify_locals name)) fatal_handler_names with
  | Some name => ([], NameError name)
  | None => ([Printed LogFatalEncodingError], OtherError code)
  end.

Fixpoint identify_from (char_index : nat) (data : list N) (error_positions : list nat)
  : list event * result (list nat) :=
  match data with
  | [] => ([], Ok error_positions)
  | char :: rest =>
      match shift_jis char with
      | Encoded _ => identify_from (S char_index) rest error_positions
      | Unencodable => identify_from (S char_index) rest (error_positions ++ [char_index])
      | Failed code =>
          let (printed, e) := fatal_encoding_error code in (printed, Raise e)
      end
  end.

Definition identify_encode_error_positions (data : list N)
  : list event * result (list nat) :=
  identify_from 0 data [].

Definition suggest_data_changes (data : list N) (error_positions : list nat)
  : list N :=
  concat
    (imap
       (fun char_index char =>
          if bool_decide (char_index ∉ error_positions) then [char]
          else
            let decoded_char := unidecode char in
            if bool_decide (decoded_char ≠ [char]) then decoded_char
            else text "_")
       data).

(** Lines 232-233 and 235-236: encode the accepted text, then record it in
    [accepted_corrections] under the frame's decoded text. *)
Definition accept_correction (data_decoded replacement : list N) (w : world)
  : result (list byte) * world :=
  match encode_data replacement with
  | Ok data_encoded =>
      (Ok data_encoded,
       World (<[data_decoded := replacement]> (accepted_corrections w))
             (stdin w) (stdout w))
  | Raise e => (Raise e, w)
  end.

(** The loop [while data_encoded is None] (lines 207-238). Every round that
    does not end the loop has read one line of input, hence the recursion on
    the lines of standard input; at the end of input, [input] raises
    EOFError. *)
Fixpoint correction_loop (data_decoded : list N) (automatic_correction : bool)
    (lines : list (list N)) (alt_data_decoded : list N)
    (corrections : gmap (list N) (list N)) (out : list event)
  : result (list byte) * world :=
  if validate_data_encode alt_data_decoded then
    (encode_data alt_data_decoded, World corrections lines out)
  else
    match identify_encode_error_positions alt_data_decoded with
    | (printed, Raise e) => (Raise e, World corrections lines (out ++ printed))
    | (printed, Ok error_positions) =>
        let suggested_data_decoded :=
          suggest_data_changes alt_data_decoded error_positions in
        let out := (out ++ printed) ++ [Printed LogEncodingError] in
        if automatic_correction then
          accept_correction data_decoded suggested_data_decoded
            (World corrections lines out)
        else
          match lines with
          | [] => (Raise EOFError, World corrections [] (out ++ [Prompted]))
          | line :: lines' =>
              let manual_correction := strip line in
              let w := World corrections lines' (out ++ [Prompted]) in
              if bool_decide (manual_correction = []) then
                accept_correction data_decoded suggested_data_decoded w
              else if validate_data_encode manual_correction then
                accept_correction data_decoded manual_correction w
              else
                correction_loop data_decoded automatic_correction lines'
                  manual_correction corrections (out ++ [Prompted])
          end
    end.

(** Lines 201-238: the working text is the cached correction of the decoded
    text when there is one, the decoded text otherwise. *)
Definition transcode (automatic_correction : bool) (data_decoded : list N)
  : M (list byte) :=
  fun w =>
    let alt_data_decoded :=
      match accepted_corrections w !! data_decoded with
      | Some correction => correction
      | None => data_decoded
      end in
    correction_loop data_decoded automatic_correction (stdin w)
      alt_data_decoded (accepted_corrections w) (stdout w).

(** Lines 173-188 *)
Definition decode_frame_data (data_is_unicode : bool) (data_raw : list byte)
  : M (list N) :=
  if data_is_unicode then
    match utf_16 (slice_1_to_last 2 data_raw) with
    | Some data_decoded => ret data_decoded
    | None => print_log_lines LogFatalDecodingError ;; raise UnicodeDecodeError
    end
  else ret (decode_iso (slice_1_to_last 1 data_raw)).

(** How one round of the loop [while True] of [read_id3] ends. *)
Inductive iteration : Type :=
| Return (id3_definition : container)
| Continue (id3_definition : container) (input_file : list byte).

(** One round of the loop [while True] (lines 153-250); [input_file] is what
    is left to read. *)
Definition read_frame (preserved_tags : list (list N)) (automatic_correction : bool)
    (id3_definition : container) (input_file : list byte) : M iteration :=
  let frame_header := take 8 input_file in
  let input_file := drop 8 input_file in
  let tag_name := decode_iso (take 4 frame_header) in
  if negb (valid_tag_name tag_name) then
    print_log_lines LogInvalidNextHeader ;;
    ret (Return id3_definition)
  else
    let data_length := from_bytes_big (take 4 (drop 4 frame_header)) in
    let data_flags := take 2 input_file in
    let input_file := drop 2 input_file in
    let data_raw := take (N.to_nat data_length) input_file in
    let input_file := drop (N.to_nat data_length) input_file in
    let data_is_unicode :=
      match take 1 data_raw with
      | [b] => Byte.eqb b x01
      | _ => false
      end in
    if bool_decide (tag_name ∉ preserved_tags) then
      print_log_lines LogSkippedTag ;;
      ret (Continue id3_definition input_file)
    else
      let* data_decoded := decode_frame_data data_is_unicode data_raw in
      print_log_lines LogFrame ;;
      let* data_encoded :=
        (if negb data_is_unicode then ret data_raw
         else transcode automatic_correction data_decoded) in
      let id3_definition :=
        Container (header id3_definition)
          (frames id3_definition
             ++ [Frame tag_name data_flags data_encoded data_is_unicode])
          (content_offset id3_definition) in
      print_log_lines LogResult ;;
      ret (Continue id3_definition input_file).

(** The loop [while True]. A round that continues has read the four bytes of
    a tag name at least; fuel above the length of the input is never used up
    ([read_frames_fuel]). *)
Fixpoint read_frames (fuel : nat) (preserved_tags : list (list N))
    (automatic_correction : bool) (id3_definition : container)
    (input_file : list byte) (w : world) : option (result container * world) :=
  match fuel with
  | O => None
  | S fuel' =>
      match read_frame preserved_tags automatic_correction id3_definition input_file w with
      | (Raise e, w') => Some (Raise e, w')
      | (Ok (Return id3_definition'), w') => Some (Ok id3_definition', w')
      | (Ok (Continue id3_definition' input_file'), w') =>
          read_frames fuel' preserved_tags automatic_correction id3_definition'
            input_file' w'
      end
  end.

(** [read_id3(input_path, preserved_tags, automatic_correction, verbose)];
    [input_file] is the content of the file at [input_path]. *)
Definition read_id3 (input_file : list byte) (preserved_tags : list (list N))
    (automatic_correction : bool) (w : world) : option (result container * world) :=
  match print_log_lines LogInputPath w with
  | (_, w) =>
      let id3_header := take 10 input_file in
      let rest := drop 10 input_file in
      let id3_identifier := decode_iso (take 3 id3_header) in
      let id3_size_encoded := drop 6 (take 10 id3_header) in
      match synchsafe_decode id3_size_encoded with
      | None => Some (Raise ValueError, w)
      | Some id3_size =>
          match print_log_lines LogHeader w with
          | (_, w) =>
              if bool_decide (id3_identifier ≠ text "ID3") then
                (* [raise "Invalid ID3 identifier"] *)
                Some (Raise TypeError, w)
              else
                let id3_definition :=
                  Container (take 6 id3_header) []
                    (N.of_nat (length id3_header) + id3_size) in
                read_frames (S (length rest)) preserved_tags automatic_correction
                  id3_definition rest w
          end
      end
  end.

(** ** Predicates of the statements *)

(** A string of binary digits. *)
Definition binary (s : list ascii) : Prop :=
  Forall (fun c => c = "0"%char \/ c = "1"%char) s.

(** The world after one more call of [print_log_lines]. *)
Definition logged (line : log_line) (w : world) : world :=
  World (accepted_corrections w) (stdin w) (stdout w ++ [Printed line]).

(** Every correction in the cache encodes. *)
Definition corrections_valid (corrections : gmap (list N) (list N)) : Prop :=
  forall data_decoded correction,
    corrections !! data_decoded = Some correction ->
    validate_data_encode correction = true.

(** What [read_id3] stores in a frame it reads from [file]: a preserved,
    well-formed tag name, up to two flag bytes of the file, and as payload
    either the wrapped Shift-JIS encoding of a text (Unicode source) or a
    slice of the file as it is (any other source). *)
Definition frame_of_file (file : list byte) (preserved_tags : list (list N))
    (fr : frame) : Prop :=
  (tag fr ∈ preserved_tags) /\
  valid_tag_name (tag fr) = true /\
  (exists k, data_flags fr = take 2 (drop k file)) /\
  (if data_was_converted fr
   then exists working_text, encode_data working_text = Ok (data fr)
   else exists k n, data fr = take n (drop k file)).

Ltac unfold_monad :=
  unfold bind, ret, raise, print_log_lines in *; fold logged in *.

(** The fields of the frame record at the head of [input_file], as
    [read_frame] reads them. *)
Definition frame_tag_name (input_file : list byte) : list N :=
  decode_iso (take 4 (take 8 input_file)).

Definition frame_data_length (input_file : list byte) : N :=
  from_bytes_big (take 4 (drop 4 (take 8 input_file))).

Definition frame_data_flags (input_file : list byte) : list byte :=
  take 2 (drop 8 input_file).

Definition frame_data_raw (input_file : list byte) : list byte :=
  take (N.to_nat (frame_data_length input_file)) (drop 2 (drop 8 input_file)).

Definition frame_rest (input_file : list byte) : list byte :=
  drop (N.to_nat (frame_data_length input_file)) (drop 2 (drop 8 input_file)).

Definition is_unicode (data_raw : list byte) : bool :=
  match take 1 data_raw with
  | [b] => Byte.eqb b x01
  | _ => false
  end.

(** [id3_definition["frames"].append(fr)] *)
Definition append_frame (id3_definition : container) (fr : frame) : container :=
  Container (header id3_definition) (frames id3_definition ++ [fr])
    (content_offset id3_definition).

(** A call leaves the cache no smaller, and valid if it was. *)
Definition cache_grows (w w' : world) : Prop :=
  corrections_valid (accepted_corrections w) ->
  accepted_corrections w ⊆ accepted_corrections w' /\
  corrections_valid (accepted_corrections w').

(** [n.to_bytes(4, "big")] for [n] below [2 ^ 32]. *)
Definition big_endian_4 (n : N) : list byte :=
  [byte_of_N (n / 16777216); byte_of_N (n / 65536); byte_of_N (n / 256); byte_of_N n].

(** The record the writer emits for one frame. *)
Definition frame_record (fr : frame) : list byte :=
  map byte_of_N (tag fr) ++ big_endian_4 (N.of_nat (length (data fr)))
    ++ data_flags fr ++ data fr.

(** The frame block: the records of the frames, in order, and the buffer of
    32 zero bytes. *)
Definition frame_block (c : container) : list byte :=
  concat (map frame_record (frames c)) ++ replicate 32 x00.

(** Tag names the writer can encode in ISO-8859-1. *)
Definition latin1_tags (c : container) : Prop :=
  Forall (fun fr => Forall (fun char => char < 256) (tag fr)) (frames c).

(** ** Sample codecs

    Instances of the three library functions, for the examples. *)

(** The one-byte rows of the Shift-JIS encoder: ASCII, the yen sign, the
    overline and the half-width katakana. Every other character is treated
    as unencodable here. *)
Definition shift_jis_one_byte (c : N) : encoded :=
  if c <? 128 then Encoded [byte_of_N c]
  else if c =? 165 then Encoded [x5c]
  else if c =? 8254 then Encoded [x7e]
  else if (65377 <=? c) && (c <=? 65439) then Encoded [byte_of_N (c - 65216)]
  else Unencodable.

(** An encoder that runs out of memory on the first non-ASCII character. *)
Definition shift_jis_failing (c : N) : encoded :=
  if c <? 128 then Encoded [byte_of_N c] else Failed 0.

Fixpoint utf_16_units (little : bool) (bs : list byte) : option (list N) :=
  match bs with
  | [] => Some []
  | [_] => None
  | b1 :: b2 :: rest =>
      option_map
        (cons (if little then Byte.to_N b1 + 256 * Byte.to_N b2
               else 256 * Byte.to_N b1 + Byte.to_N b2))
        (utf_16_units little rest)
  end.

Fixpoint utf_16_chars (units : list N) : option (list N) :=
  match units with
  | [] => Some []
  | u :: rest =>
      if (55296 <=? u) && (u <=? 56319) then
        match rest with
        | v :: rest' =>
            if (56320 <=? v) && (v <=? 57343)
            then option_map (cons (65536 + (u - 55296) * 1024 + (v - 56320)))
                            (utf_16_chars rest')
            else None
        | [] => None
        end
      else if (56320 <=? u) && (u <=? 57343) then None
      else option_map (cons u) (utf_16_chars rest)
  end.

(** [bs.decode("UTF-16")] on a little-endian host: a byte order mark selects
    the byte order and is dropped; [None] is UnicodeDecodeError. *)
Definition utf_16_decode (bs : list byte) : option (list N) :=
  match bs with
  | xff :: xfe :: rest => utf_16_units true rest ≫= utf_16_chars
  | xfe :: xff :: rest => utf_16_units false rest ≫= utf_16_chars
  | _ => utf_16_units true bs ≫= utf_16_chars
  end.

(** A few rows of a transliteration table: accented Latin-1 letters lose
    their accent, everything else outside ASCII is dropped. *)
Definition unidecode_sample (c : N) : list N :=
  if c <? 128 then [c]
  else if (224 <=? c) && (c <=? 229) then text "a"
  else if (232 <=? c) && (c <=? 235) then text "e"
  else if (236 <=? c) && (c <=? 239) then text "i"
  else if (242 <=? c) && (c <=? 246) then text "o"
  else if (249 <=? c) && (c <=? 252) then text "u"
  else [].

(** The byte structure of Shift-JIS text: a byte below 128 or a half-width
    katakana byte stands alone; a lead byte is followed by a trail byte; no
    other byte may start a character. Every byte string that decodes as
    Shift-JIS has this structure. *)
Fixpoint shift_jis_well_formed (bs : list byte) : bool :=
  match bs with
  | [] => true
  | b :: rest =>
      let n := Byte.to_N b in
      if (n <? 128) || ((161 <=? n) && (n <=? 223)) then shift_jis_well_formed rest
      else if ((129 <=? n) && (n <=? 159)) || ((224 <=? n) && (n <=? 252)) then
        match rest with
        | t :: rest' =>
            let m := Byte.to_N t in
            if ((64 <=? m) && (m <=? 126)) || ((128 <=? m) && (m <=? 252))
            then shift_jis_well_formed rest'
            else false
        | [] => false
        end
      else false
  end.

(** ** Sample inputs *)

(** The bytes of an ASCII literal. *)
Definition ascii_bytes (s : string) : list byte := list_byte_of_string s.

(** A world at the start of a run: empty cache, no input, nothing printed. *)
Definition fresh_world : world := World ∅ [] [].

(** ["café"] and ["cafe"] *)
Definition cafe_accent : list N := [99; 97; 102; 233].
Definition cafe_plain : list N := [99; 97; 102; 101].

(** A tagged file: header with size 40, a [COMM] frame, a [TIT2] frame that
    holds ["café"] in UTF-16 with a byte order mark, three padding bytes, and
    four bytes of audio. *)
Definition cafe_file : list byte :=
  ascii_bytes "ID3" ++ [x04; x00; x00] ++ [x00; x00; x00; x28]
  ++ ascii_bytes "COMM" ++ [x00; x00; x00; x04] ++ [x00; x00]
  ++ [x00; x68; x69; x00]
  ++ ascii_bytes "TIT2" ++ [x00; x00; x00; x0d] ++ [x00; x00]
  ++ [x01; xff; xfe; x63; x00; x61; x00; x66; x00; xe9; x00; x00; x00]
  ++ [x00; x00; x00]
  ++ [xff; xfb; x90; x00].

(** Where the [TIT2] record of [cafe_file] starts. *)
Definition cafe_tit2_record : list byte := drop 24 cafe_file.

Definition cafe_frame : frame :=
  Frame (text "TIT2") [x00; x00] (x00 :: ascii_bytes "cafe" ++ [x00]) true.

Definition cafe_container : container :=
  Container (ascii_bytes "ID3" ++ [x04; x00; x00]) [cafe_frame] 50.

(** The world after [read_id3] on [cafe_file] with automatic correction. *)
Definition cafe_world : world :=
  World {[ cafe_accent := cafe_plain ]} []
    [Printed LogInputPath; Printed LogHeader; Printed LogSkippedTag;
     Printed LogFrame; Printed LogEncodingError; Printed LogResult;
     Printed LogInvalidNextHeader].

(** A world whose cache already corrects ["café"]. *)
Definition cached_world : world := World {[ cafe_accent := cafe_plain ]} [] [].

(** Paths that are all canonical. *)
Definition plain_path (path : list N) : list N := path.

(** Writes that fit the buffer together: nothing has reached the file when
    the input path is opened. *)
Definition held_in_buffer (writes : list (list byte)) : nat := 0.

(** [cafe_file] in a directory of its own. *)
Definition cafe_path : list N := text "music/cafe.mp3".
Definition retro_path : list N := text "retro/cafe.mp3".
Definition cafe_files : gmap (list N) (list byte) := {[ cafe_path := cafe_file ]}.

(** The world after a round of the frame loop on the [TIT2] record of
    [cafe_file], under the automatic policy and from [fresh_world]. *)
Definition cafe_round_world : world :=
  World {[ cafe_accent := cafe_plain ]} []
    [Printed LogFrame; Printed LogEncodingError; Printed LogResult].


(** The first four bytes of a FLAC file. *)
Definition flac_file : list byte := ascii_bytes "fLaC".

(** The first twelve bytes of a WAVE file. *)
Definition riff_file : list byte :=
  ascii_bytes "RIFF" ++ [x24; x00; x00; x00] ++ ascii_bytes "WAVE".

(** A tagged file whose [TIT2] frame holds ["café"] in ISO-8859-1. *)
Definition iso_cafe_file : list byte :=
  ascii_bytes "ID3" ++ [x04; x00; x00] ++ [x00; x00; x00; x10]
  ++ ascii_bytes "TIT2" ++ [x00; x00; x00; x06] ++ [x00; x00]
  ++ [x00; x63; x61; x66; xe9; x00].

Definition iso_cafe_frame : frame :=
  Frame (text "TIT2") [x00; x00] [x00; x63; x61; x66; xe9; x00] false.

(** A tagged file whose only frame is named ["1234"]. *)
Definition digits_file : list byte :=
  ascii_bytes "ID3" ++ [x04; x00; x00] ++ [x00; x00; x00; x0e]
  ++ ascii_bytes "1234" ++ [x00; x00; x00; x04] ++ [x00; x00]
  ++ [x00; x68; x69; x00].

(** The world after [read_id3] on [cafe_file] under the interactive policy,
    when the operator answers [" kafe "] to the question. *)
Definition kafe_world : world :=
  World {[ cafe_accent := text "kafe" ]} []
    [Printed LogInputPath; Printed LogHeader; Printed LogSkippedTag;
     Printed LogFrame; Printed LogEncodingError; Prompted; Printed LogResult;
     Printed LogInvalidNextHeader].

(** A payload of [2 ^ 28] zero bytes, and a container that holds it. The
    payload is sealed: it is equal to the list of zeros
    ([oversize_payload_eq]) and is never unfolded into it by computation. *)
Definition oversize_payload_aux : seal (replicate (N.to_nat 268435456) x00).
Proof. by eexists. Qed.

Definition oversize_payload : list byte := unseal oversize_payload_aux.

Definition oversize_payload_eq :
  oversize_payload = replicate (N.to_nat 268435456) x00 :=
  seal_eq oversize_payload_aux.

Definition oversize_container : container :=
  Container (ascii_bytes "ID3" ++ [x04; x00; x00])
    [Frame (text "TIT2") [x00; x00] oversize_payload false] 10.





(** ** Hexadecimal figures of the log *)

(** One digit of [hex(n)]. *)
Definition hex_digit (d : N) : ascii :=
  nth (N.to_nat d) (list_ascii_of_string "0123456789abcdef") "0"%char.

(** The digits of [hex(n)], most significant first; [fuel] bounds their
    number. *)
Fixpoint hex_digits (fuel : nat) (n : N) : list ascii :=
  match fuel with
  | O => []
  | S fuel' =>
      (if n <? 16 then [] else hex_digits fuel' (n / 16)) ++ [hex_digit (n mod 16)]
  end.

(** [hex(n)] for [n >= 0]. A number has no more hexadecimal digits than
    binary ones. *)
Definition hex (n : N) : list ascii :=
  "0"%char :: "x"%char :: hex_digits (S (N.to_nat (N.log2 n))) n.

(** [str.upper] on a string of ASCII characters. *)
Definition upper_char (c : ascii) : ascii :=
  let n := N_of_ascii c in
  if (97 <=? n) && (n <=? 122) then ascii_of_N (n - 32) else c.

Definition upper (s : list ascii) : list ascii := map upper_char s.

Definition padded_hex (input_int : N) : list ascii :=
  let hex_str := upper (drop 2 (hex input_int)) in
  ["0"%char; "x"%char] ++ replicate (length hex_str mod 2) "0"%char ++ hex_str.

(** The value of one digit for [int(s, 16)]. *)
Definition hex_value (c : ascii) : option N :=
  let n := N_of_ascii c in
  if (48 <=? n) && (n <=? 57) then Some (n - 48)
  else if (65 <=? n) && (n <=? 70) then Some (n - 55)
  else if (97 <=? n) && (n <=? 102) then Some (n - 87)
  else None.

Fixpoint int_hex_digits (acc : N) (s : list ascii) : option N :=
  match s with
  | [] => Some acc
  | c :: s' =>
      match hex_value c with
      | Some d => int_hex_digits (16 * acc + d) s'
      | None => None
      end
  end.

(** [int(s, 16)] for a string of hexadecimal digits; [None] is ValueError. *)
Definition int_base16 (s : list ascii) : option N :=
  match s with
  | [] => None
  | _ :: _ => int_hex_digits 0 s
  end.

(** A digit as [padded_hex] prints it: [0-9A-F]. *)
Definition upper_hex_digit (c : ascii) : bool :=
  let n := N_of_ascii c in
  ((48 <=? n) && (n <=? 57)) || ((65 <=? n) && (n <=? 70)).

(** ** Predicates of the further statements *)

(** A byte with its high bit cleared. *)
Definition low_seven_bits (b : byte) : byte := byte_of_N (Byte.to_N b mod 128).

(** The characters on which the encoder raises UnicodeEncodeError. *)
Definition unencodable (char : N) : bool :=
  match shift_jis char with
  | Unencodable => true
  | _ => false
  end.

(** What the suggestion puts in the place of a character (line 110): its
    transliteration, or an underscore when that is the character itself. *)
Definition replacement (char : N) : list N :=
  if bool_decide (unidecode char ≠ [char]) then unidecode char else text "_".

(** The frame records in front of the first malformed tag name, each given
    as the input from its first byte on, as the loop of [read_id3] walks
    them; a record has four bytes at least, which bounds their number. *)
Fixpoint frame_records (fuel : nat) (input_file : list byte) : list (list byte) :=
  match fuel with
  | O => []
  | S fuel' =>
      if valid_tag_name (frame_tag_name input_file)
      then input_file :: frame_records fuel' (frame_rest input_file)
      else []
  end.


Definition records_of (input_file : list byte) : list (list byte) :=
  frame_records (S (length input_file)) input_file.

(** The frame that [read_id3] makes of the record at the head of [record];
    the payload of a Unicode frame is the matter of the transcoder. *)
Definition frame_of_record (fr : frame) (record : list byte) : Prop :=
  tag fr = frame_tag_name record /\
  data_flags fr = frame_data_flags record /\
  data_was_converted fr = is_unicode (frame_data_raw record) /\
  (is_unicode (frame_data_raw record) = false -> data fr = frame_data_raw record).

(** Between [w] and the outcome [x] of a call, nothing was read from the
    input, no question was asked, and the end of the input was not met. *)
Definition asks_nothing {A} (w : world) (x : result A * world) : Prop :=
  stdin x.2 = stdin w /\
  (exists printed, stdout x.2 = stdout w ++ map Printed printed) /\
  x.1 <> Raise EOFError.

(** A container with another [content_offset]. *)
Definition set_content_offset (offset : N) (c : container) : container :=
  Container (header c) (frames c) offset.

(** An outcome of [read_id3], but for the [content_offset]. *)
Definition without_content_offset (x : option (result container * world))
  : option (result (list byte * list frame) * world) :=
  match x with
  | Some (Ok c, w) => Some (Ok (header c, frames c), w)
  | Some (Raise e, w) => Some (Raise e, w)
  | None => None
  end.

(** A frame as [read_id3] reads it from a record that is not Unicode. *)
Definition as_read (fr : frame) : frame :=
  Frame (tag fr) (data_flags fr) (data fr) false.

(** A frame whose record, once written, is read as it is: a preserved tag
    name of four characters, two flag bytes, and a payload that does not start
    with the byte 1. *)
Definition reads_back (preserved_tags : list (list N)) (fr : frame) : Prop :=
  valid_tag_name (tag fr) = true /\ length (tag fr) = 4%nat /\
  tag fr ∈ preserved_tags /\ length (data_flags fr) = 2%nat /\
  is_unicode (data fr) = false.

(** ** A run of the program *)

(** [str.lower] of one character, for the comparisons of the program, which
    are with ASCII literals: the capital letters of ASCII, and the two
    characters outside ASCII whose lower-case form has an ASCII letter
    (U+0130, the dotted capital I, and U+212A, the Kelvin sign). Any other
    character is left as it is: its lower-case form lies outside ASCII like
    the character itself, and no comparison with an ASCII literal tells the
    one from the other. *)
Definition lower_char (c : N) : list N :=
  if (65 <=? c) && (c <=? 90) then [c + 32]
  else if c =? 304 then [105; 775]
  else if c =? 8490 then [107]
  else [c].

Definition lower (s : list N) : list N := concat (map lower_char s).

Definition DEFAULT_PRESERVED_TAGS : list (list N) :=
  [text "TALB"; text "TPE1"; text "TPE2"; text "TCOP"; text "TPOS"; text "TCON";
   text "TIT2"; text "TRCK"; text "TYER"].

(** What a run writes to the console and asks: what [read_id3] prints and
    asks, and the lines and the question of [write_id3] and [main]. *)
Inductive run_event : Type :=
| Parser (e : event)
| LogArguments                    (* [main], lines 335-340 *)
| LogOutputPath                   (* [write_id3], lines 259-263 *)
| AskedOverwrite                  (* [yes_no]: [input("... (y/n)> ")] *)
| LogFileSkipped.                 (* [write_id3], line 269 *)

(** [os_path.basename(path)]: what stands behind the last slash of the
    path. [os_path.splitext] cuts this name into a root and an extension that
    [write_id3] puts together again (lines 253-257): the output file has the
    base name of the input path. *)
Definition basename (path : list N) : list N :=
  fold_left (fun name c => if c =? 47 then [] else name ++ [c]) path [].

(** [os_path.join(a, b)] *)
Definition join (a b : list N) : list N :=
  match b with
  | c :: _ => if c =? 47 then b
              else match last a with
                   | None => b
                   | Some d => if d =? 47 then a ++ b else a ++ 47 :: b
                   end
  | [] => match last a with
          | None => []
          | Some d => if d =? 47 then a else a ++ [47]
          end
  end.

(** [os_makedirs(path, exist_ok=True)]: no directory has the empty path, for
    which the call raises FileNotFoundError, an OSError. Any other directory
    is taken to be there or to be made. *)
Definition os_makedirs (path : list N) : result unit :=
  if bool_decide (path = []) then Raise FileNotFoundError else Ok tt.

(** The state of a run: the dictionary [accepted_corrections], the lines
    still to be read from standard input, the console, and the files. *)
Record session : Type := Session {
  cache : gmap (list N) (list N);
  keyboard : list (list N);
  console : list run_event;
  files : gmap (list N) (list byte)
}.

Definition noted (e : run_event) (s : session) : session :=
  Session (cache s) (keyboard s) (console s ++ [e]) (files s).

(** [yes_no(prompt)]: the outcome, the lines left to read and the console. *)
Fixpoint yes_no (lines : list (list N)) (console : list run_event)
  : result bool * list (list N) * list run_event :=
  match lines with
  | [] => (Raise EOFError, [], console ++ [AskedOverwrite])
  | line :: lines' =>
      let decision := lower (strip line) in
      let console := console ++ [AskedOverwrite] in
      if bool_decide (decision = text "y") then (Ok true, lines', console)
      else if bool_decide (decision = text "n") then (Ok false, lines', console)
      else yes_no lines' console
  end.

(** The path at which [write_id3] writes (lines 253-257). *)
Definition output_path_of (input_path output_dir_path : list N) : list N :=
  join output_dir_path (basename input_path).

(** What lines 276-301 of [write_id3] make of the files [fs], and what they
    raise. *)
Definition written_files (fs : gmap (list N) (list byte))
    (input_path output_path : list N) (id3_definition : container)
  : result unit * gmap (list N) (list byte) :=
  match write_id3 fs input_path output_path id3_definition with
  | NotOpened e => (Raise e, fs)
  | Truncated written e => (Raise e, <[realpath output_path := written]> fs)
  | Written content => (Ok tt, <[realpath output_path := content]> fs)
  end.

(** [write_id3(input_path, output_dir_path, id3_definition, auto_overwrite)]
    as a whole (lines 252-301). In the [try] block, [os_makedirs] may raise
    an OSError, which is passed over together with the question and with
    [os_remove]; [os_remove] removes the file at the output path, or raises
    an OSError that is passed over when there is none. The file is then
    written as [write_id3] above has it, from the files as they are by
    then. *)
Definition write_id3_file (input_path output_dir_path : list N)
    (id3_definition : container) (auto_overwrite : bool) (s : session)
  : result unit * session :=
  let output_path := output_path_of input_path output_dir_path in
  let s := noted LogOutputPath s in
  let write (fs : gmap (list N) (list byte)) (s : session) : result unit * session :=
    match written_files fs input_path output_path id3_definition with
    | (r, fs) => (r, Session (cache s) (keyboard s) (console s) fs)
    end in
  match os_makedirs output_dir_path with
  | Raise _ => write (files s) s
  | Ok _ =>
      if negb auto_overwrite
         && bool_decide (is_Some (files s !! realpath output_path)) then
        match yes_no (keyboard s) (console s) with
        | (r, lines, console) =>
            let s := Session (cache s) lines console (files s) in
            match r with
            | Raise e => (Raise e, s)
            | Ok false => (Ok tt, noted LogFileSkipped s)
            | Ok true => write (delete (realpath output_path) (files s)) s
            end
        end
      else write (delete (realpath output_path) (files s)) s
  end.

(** The session after a call of [read_id3] that started with an empty
    console and ended in the world [w]: [read_id3] does not look at the
    console and only appends to it ([read_id3_console]). *)
Definition absorb (w : world) (s : session) : session :=
  Session (accepted_corrections w) (stdin w) (console s ++ map Parser (stdout w))
    (files s).

(** [read_id3(input_path, ...)] in a session: the file is the one found at
    the path; when there is none, [open] raises once the two lines about the
    input path are printed. *)
Definition read_id3_file (input_path : list N) (preserved_tags : list (list N))
    (automatic_correction : bool) (s : session)
  : option (result container * session) :=
  match files s !! realpath input_path with
  | None => Some (Raise FileNotFoundError, noted (Parser (Printed LogInputPath)) s)
  | Some input_file =>
      match read_id3 input_file preserved_tags automatic_correction
              (World (cache s) (keyboard s) []) with
      | None => None
      | Some (r, w) => Some (r, absorb w s)
      end
  end.

(** The loop of [main] (lines 343-345). *)
Fixpoint retroencode (inputs : list (list N)) (output_dir_path : list N)
    (preserved_tags : list (list N)) (automatic_correction auto_overwrite : bool)
    (s : session) : option (result unit * session) :=
  match inputs with
  | [] => Some (Ok tt, s)
  | input_path :: inputs' =>
      match read_id3_file input_path preserved_tags automatic_correction s with
      | None => None
      | Some (Raise e, s) => Some (Raise e, s)
      | Some (Ok id3_definition, s) =>
          match write_id3_file input_path output_dir_path id3_definition
                  auto_overwrite s with
          | (Raise e, s) => Some (Raise e, s)
          | (Ok _, s) =>
              retroencode inputs' output_dir_path preserved_tags automatic_correction
                auto_overwrite s
          end
      end
  end.

(** [main()] once the arguments are parsed, with an action, input paths and
    an output directory given. *)
Definition main (action : list N) (inputs : list (list N)) (output : list N)
    (preserve : list (list N)) (automatic overwrite : bool) (s : session)
  : option (result unit * session) :=
  let s := noted LogArguments s in
  if bool_decide (lower action = text "retroencode")
  then retroencode inputs output preserve automatic overwrite s
  else Some (Ok tt, s).

(** The answers that [yes_no] takes for a yes and for a no. *)
Definition says_yes (line : list N) : Prop :=
  strip line = text "y" \/ strip line = text "Y".

Definition says_no (line : list N) : Prop :=
  strip line = text "n" \/ strip line = text "N".

Definition undecided (line : list N) : Prop := ~ says_yes line /\ ~ says_no line.

(** Between [s] and the outcome [x] of a call, the operator was not needed:
    no line was read, no question was asked, and the end of the input was not
    met. *)
Definition unattended {A} (s : session) (x : result A * session) : Prop :=
  keyboard x.2 = keyboard s /\
  (exists printed,
     console x.2 = console s ++ printed /\
     Forall (fun e => e <> AskedOverwrite /\ e <> Parser Prompted) printed) /\
  x.1 <> Raise EOFError.

(** The outcome of a call with [out] put in front of what it printed. *)
Definition after_console {A} (out : list event) (x : result A * world)
  : result A * world :=
  (x.1, World (accepted_corrections x.2) (stdin x.2) (out ++ stdout x.2)).

(** ** Sample inputs of a run *)

(** A [TIT2] record marked as Unicode whose text has an odd number of
    bytes. *)
Definition odd_record : list byte :=
  ascii_bytes "TIT2" ++ [x00; x00; x00; x04] ++ [x00; x00] ++ [x01; x63; x00; x00].

(** What [write_id3] writes for [cafe_file] and [cafe_container]. *)
Definition cafe_output : list byte :=
  ascii_bytes "ID3" ++ [x04; x00; x00] ++ [x00; x00; x00; x30]
  ++ ascii_bytes "TIT2" ++ [x00; x00; x00; x06] ++ [x00; x00]
  ++ x00 :: ascii_bytes "cafe" ++ [x00]
  ++ replicate 32 x00
  ++ [xff; xfb; x90; x00].

(** What is left of [cafe_file] when it is written over itself: the tag,
    without the audio. *)
Definition cafe_output_in_place : list byte :=
  ascii_bytes "ID3" ++ [x04; x00; x00] ++ [x00; x00; x00; x30]
  ++ ascii_bytes "TIT2" ++ [x00; x00; x00; x06] ++ [x00; x00]
  ++ x00 :: ascii_bytes "cafe" ++ [x00]
  ++ replicate 32 x00.

(** A WAVE file beside [cafe_file]. *)
Definition tone_path : list N := text "music/tone.wav".

Definition music_files : gmap (list N) (list byte) :=
  {[ cafe_path := cafe_file; tone_path := riff_file ]}.

(** A session at the start of a run. *)
Definition fresh_session : session := Session ∅ [] [] music_files.

(** The session after [cafe_path] has been dealt with under the automatic
    policy, from [fresh_session] and with the output directory ["retro"]. *)
Definition cafe_session : session :=
  Session {[ cafe_accent := cafe_plain ]} []
    (map Parser (stdout cafe_world) ++ [LogOutputPath])
    (<[retro_path := cafe_output]> music_files).

(** A session in which the output path of [cafe_path] is taken, and the
    operator answers, one line after the other, maybe, no and yes. *)
Definition taken_session : session :=
  Session ∅ [text "maybe"; text "n"; text "y"] [] (<[retro_path := [x00]]> music_files).

(** A [TIT2] record that declares sixteen bytes of payload and has four. *)
Definition cut_payload_record : list byte :=
  ascii_bytes "TIT2" ++ [x00; x00; x00; x10] ++ [x00; x00] ++ [x00; x68; x69; x00].

(** * Theorems *)

(** ** Examples of the size codec *)

Example synchsafe_encode_100 : synchsafe_encode 100 = Ok [x00; x00; x00; x64].
Proof. reflexivity. Qed.

Example synchsafe_encode_max : synchsafe_encode (2 ^ 28 - 1) = Ok [x7f; x7f; x7f; x7f].
Proof. vm_compute. reflexivity. Qed.

Example synchsafe_encode_2_28 : synchsafe_encode (2 ^ 28) = Raise OverflowError.
Proof. vm_compute. reflexivity. Qed.

Example synchsafe_decode_257 : synchsafe_decode [x00; x00; x02; x01] = Some 257.
Proof. reflexivity. Qed.

(** ** Binary digit strings *)

Lemma int_digits_app acc s t :
  int_digits acc (s ++ t) =
  match int_digits acc s with Some a => int_digits a t | None => None end.
Proof.
  revert acc. induction s as [|c s IH]; intros acc; simpl; [done|].
  destruct (digit_value c); [apply IH | done].
Qed.

Lemma int_digits_zeros acc k :
  int_digits acc (replicate k "0"%char) = Some (acc * 2 ^ N.of_nat k).
Proof.
  revert acc. induction k as [|k IH]; intros acc.
  - simpl. f_equal. lia.
  - cbn [replicate int_digits]. change (digit_value "0") with (Some 0).
    cbv iota. rewrite IH. f_equal.
    rewrite Nat2N.inj_succ, N.pow_succ_r'. lia.
Qed.

Lemma int_digits_pos p acc :
  int_digits acc (pos_digits p) =
  Some (acc * 2 ^ N.of_nat (length (pos_digits p)) + Npos p).
Proof.
  revert acc. induction p as [q IH|q IH|]; intros acc; cbn [pos_digits].
  - rewrite int_digits_app, IH, length_app, Nat2N.inj_add, N.pow_add_r.
    simpl. f_equal. lia.
  - rewrite int_digits_app, IH, length_app, Nat2N.inj_add, N.pow_add_r.
    simpl. f_equal. lia.
  - simpl. f_equal. lia.
Qed.

Lemma int_digits_bin n acc :
  int_digits acc (bin_digits n) =
  Some (acc * 2 ^ N.of_nat (length (bin_digits n)) + n).
Proof.
  destruct n as [|p]; [simpl; f_equal; lia | apply int_digits_pos].
Qed.

Lemma int_digits_format w n acc :
  int_digits acc (format_b w n) =
  Some (acc * 2 ^ N.of_nat (length (format_b w n)) + n).
Proof.
  unfold format_b.
  rewrite int_digits_app, int_digits_zeros, int_digits_bin, length_app,
    length_replicate, Nat2N.inj_add, N.pow_add_r.
  f_equal. lia.
Qed.

Lemma pos_digits_length p w :
  Npos p < 2 ^ N.of_nat w -> (length (pos_digits p) <= w)%nat.
Proof.
  revert w. induction p as [q IH|q IH|]; intros w Hw; cbn [pos_digits].
  - destruct w as [|w]; [simpl in Hw; lia|].
    rewrite length_app. simpl. specialize (IH w).
    rewrite Nat2N.inj_succ, N.pow_succ_r' in Hw. lia.
  - destruct w as [|w]; [simpl in Hw; lia|].
    rewrite length_app. simpl. specialize (IH w).
    rewrite Nat2N.inj_succ, N.pow_succ_r' in Hw. lia.
  - destruct w as [|w]; [simpl in Hw; lia | simpl; lia].
Qed.

Lemma format_b_length w n :
  (0 < w)%nat -> n < 2 ^ N.of_nat w -> length (format_b w n) = w.
Proof.
  intros Hw Hn. unfold format_b. rewrite length_app, length_replicate.
  assert (length (bin_digits n) <= w)%nat; [|lia].
  destruct n as [|p]; [simpl; lia | by apply pos_digits_length].
Qed.

Lemma pos_digits_binary p : binary (pos_digits p).
Proof.
  unfold binary. induction p; cbn [pos_digits];
    repeat first [apply Forall_app_2 | apply Forall_cons_2 | apply Forall_nil_2];
    auto.
Qed.

Lemma format_b_binary w n : binary (format_b w n).
Proof.
  unfold binary, format_b. apply Forall_app_2.
  - apply Forall_replicate. auto.
  - destruct n; [repeat constructor | apply pos_digits_binary].
Qed.

(** A string of [k] binary digits reads as a number below [2 ^ k], shifted
    behind whatever was read before it. *)
Lemma int_digits_binary s :
  binary s ->
  exists v, v < 2 ^ N.of_nat (length s) /\
    forall acc, int_digits acc s = Some (acc * 2 ^ N.of_nat (length s) + v).
Proof.
  induction 1 as [|c s Hc _ (v & Hv & IH)].
  - exists 0. split; [simpl; lia|]. intros acc. simpl. f_equal. lia.
  - cbn [length]. rewrite Nat2N.inj_succ, N.pow_succ_r'.
    destruct Hc as [-> | ->].
    + exists v. split; [lia|]. intros acc. cbn [int_digits].
      change (digit_value "0") with (Some 0). cbv iota. rewrite IH. f_equal. lia.
    + exists (2 ^ N.of_nat (length s) + v). split; [lia|]. intros acc.
      cbn [int_digits]. change (digit_value "1") with (Some 1). cbv iota.
      rewrite IH. f_equal. lia.
Qed.

Lemma wrap_28 (s : list ascii) :
  length s = 28%nat ->
  wrap s 7 = [take 7 s; take 7 (drop 7 s); take 7 (drop 14 s); take 7 (drop 21 s)].
Proof.
  intros Hlen. unfold wrap. rewrite Hlen.
  do 28 (destruct s as [|? s]; [discriminate Hlen|]).
  destruct s; [reflexivity | discriminate Hlen].
Qed.

Lemma to_N_byte_of_N v : v < 256 -> Byte.to_N (byte_of_N v) = v.
Proof.
  intros Hv. unfold byte_of_N. rewrite N.mod_small by done.
  destruct (Byte.of_N v) as [b|] eqn:Hb.
  - by apply Byte.to_of_N.
  - apply Byte.of_N_None_iff in Hb. lia.
Qed.

Lemma byte_of_N_low a b : byte_of_N (a * 256 + b) = byte_of_N b.
Proof.
  unfold byte_of_N. f_equal. f_equal.
  rewrite N.add_comm. apply N.Div0.mod_add.
Qed.

Lemma to_bytes_big_4 v1 v2 v3 v4 :
  v1 < 256 -> v2 < 256 -> v3 < 256 -> v4 < 256 ->
  to_bytes_big 4 (((v1 * 256 + v2) * 256 + v3) * 256 + v4) =
  Ok [byte_of_N v1; byte_of_N v2; byte_of_N v3; byte_of_N v4].
Proof.
  intros H1 H2 H3 H4. unfold to_bytes_big.
  change (256 ^ N.of_nat 4) with 4294967296.
  set (v := ((v1 * 256 + v2) * 256 + v3) * 256 + v4).
  destruct (N.ltb_spec v 4294967296) as [_|Hge]; [|lia].
  cbn [seq rev app map].
  change (256 ^ N.of_nat 3) with 16777216. change (256 ^ N.of_nat 2) with 65536.
  change (256 ^ N.of_nat 1) with 256. change (256 ^ N.of_nat 0) with 1.
  assert (v / 16777216 = v1) as ->
    by (symmetry; apply N.div_unique with ((v2 * 256 + v3) * 256 + v4); lia).
  assert (v / 65536 = v1 * 256 + v2) as ->
    by (symmetry; apply N.div_unique with (v3 * 256 + v4); lia).
  assert (v / 256 = (v1 * 256 + v2) * 256 + v3) as ->
    by (symmetry; apply N.div_unique with v4; lia).
  rewrite N.div_1_r. unfold v. by rewrite !byte_of_N_low.
Qed.

(** ** The size codec in arithmetic *)

Lemma low_seven_digits b :
  drop 1 (format_b 8 (Byte.to_N b)) = format_b 7 (Byte.to_N b mod 128).
Proof. destruct b; vm_compute; reflexivity. Qed.

Lemma int_digits_seven acc v :
  v < 128 -> forall rest,
  int_digits acc (format_b 7 v ++ rest) = int_digits (acc * 128 + v) rest.
Proof.
  intros Hv rest.
  rewrite int_digits_app, int_digits_format, format_b_length by (done || lia).
  done.
Qed.

(** Decoding keeps the low seven bits of each byte, first byte first. *)
Lemma synchsafe_decode_4 b1 b2 b3 b4 :
  synchsafe_decode [b1; b2; b3; b4] =
  Some (((Byte.to_N b1 mod 128 * 128 + Byte.to_N b2 mod 128) * 128
         + Byte.to_N b3 mod 128) * 128 + Byte.to_N b4 mod 128).
Proof.
  unfold synchsafe_decode. cbn [map concat]. rewrite !low_seven_digits.
  assert (forall b, Byte.to_N b mod 128 < 128) as Hlt
    by (intros b; apply N.mod_upper_bound; lia).
  unfold int_base2.
  destruct (format_b 7 (Byte.to_N b1 mod 128) ++ _) eqn:Hs.
  { apply (f_equal length) in Hs. rewrite length_app, format_b_length in Hs
      by (done || lia). discriminate Hs. }
  rewrite <- Hs.
  rewrite !int_digits_seven by done. simpl. f_equal.
Qed.

(** Encoding a size below [2 ^ 28] succeeds: the four bytes are the four
    groups of seven bits of the size, most significant group first. *)
Lemma synchsafe_encode_groups x :
  x < 2 ^ 28 ->
  exists v1 v2 v3 v4,
    (v1 < 128 /\ v2 < 128 /\ v3 < 128 /\ v4 < 128) /\
    x = ((v1 * 128 + v2) * 128 + v3) * 128 + v4 /\
    synchsafe_encode x = Ok [byte_of_N v1; byte_of_N v2; byte_of_N v3; byte_of_N v4].
Proof.
  intros Hx. unfold synchsafe_encode.
  pose proof (format_b_length 28 x) as Hlen.
  pose proof (format_b_binary 28 x) as Hbin.
  pose proof (int_digits_format 28 x 0) as Hval.
  set (s := format_b 28 x) in *.
  assert (length s = 28%nat) as Hl by (apply Hlen; [lia | exact Hx]).
  clear Hlen. rewrite Hl in Hval. rewrite (wrap_28 s Hl). cbn [map concat].
  rewrite <- (take_drop 7 s) in Hval.
  rewrite <- (take_drop 7 (drop 7 s)) in Hval.
  rewrite <- (take_drop 7 (drop 7 (drop 7 s))) in Hval.
  rewrite !drop_drop in Hval. cbn [Nat.add] in Hval.
  assert (drop 21 s = take 7 (drop 21 s)) as Hlast
    by (symmetry; apply take_ge; rewrite length_drop; lia).
  rewrite Hlast in Hval. clear Hlast.
  assert (forall k, (k + 7 <= 28)%nat ->
            exists v, v < 128 /\ forall acc rest,
              int_digits acc (take 7 (drop k s) ++ rest) = int_digits (acc * 128 + v) rest)
    as Hgroup.
  { intros k Hk.
    destruct (int_digits_binary (take 7 (drop k s))) as (v & Hv & Hread).
    { unfold binary. apply Forall_take, Forall_drop, Hbin. }
    assert (length (take 7 (drop k s)) = 7%nat) as Hl7
      by (rewrite length_take, length_drop; lia).
    rewrite Hl7 in Hv, Hread. exists v. split; [exact Hv|].
    intros acc rest. by rewrite int_digits_app, Hread. }
  destruct (Hgroup 0%nat) as (v1 & H1 & R1); [lia|].
  destruct (Hgroup 7%nat) as (v2 & H2 & R2); [lia|].
  destruct (Hgroup 14%nat) as (v3 & H3 & R3); [lia|].
  destruct (Hgroup 21%nat) as (v4 & H4 & R4); [lia|].
  rewrite drop_0 in R1.
  exists v1, v2, v3, v4. split; [done|].
  rewrite R1, R2, R3 in Hval.
  rewrite <- (app_nil_r (take 7 (drop 21 s))), R4 in Hval.
  cbn [int_digits] in Hval.
  split; [injection Hval as Hval; lia|].
  unfold int_base2. cbn [app int_digits]. change (digit_value "0") with (Some 0).
  cbv iota. rewrite R1. cbn [app int_digits].
  change (digit_value "0") with (Some 0). cbv iota. rewrite R2.
  cbn [app int_digits]. change (digit_value "0") with (Some 0). cbv iota.
  rewrite R3. cbn [app int_digits]. change (digit_value "0") with (Some 0).
  cbv iota. rewrite R4. cbn [int_digits].
  replace ((2 * ((2 * ((2 * ((2 * 0 + 0) * 128 + v1) + 0) * 128 + v2) + 0) * 128 + v3) + 0) * 128 + v4)
    with (((v1 * 256 + v2) * 256 + v3) * 256 + v4) by lia.
  apply to_bytes_big_4; lia.
Qed.

(** C1. Synchsafe round trip: for every size [x] with [0 <= x < 2 ^ 28]
    (sizes are natural numbers), the encoder of [write_id3] returns four
    bytes, each with its high bit zero, and the decoder of [read_id3] applied
    to them returns [x]. *)
Theorem synchsafe_round_trip (x : N) :
  x < 2 ^ 28 ->
  exists bs, synchsafe_encode x = Ok bs /\ length bs = 4%nat /\
             Forall (fun b => Byte.to_N b < 128) bs /\
             synchsafe_decode bs = Some x.
Proof.
  intros Hx.
  destruct (synchsafe_encode_groups x Hx)
    as (v1 & v2 & v3 & v4 & (H1 & H2 & H3 & H4) & Hsum & Henc).
  eexists. split; [exact Henc|]. split; [reflexivity|]. split.
  - repeat constructor; rewrite to_N_byte_of_N; lia.
  - rewrite synchsafe_decode_4, !to_N_byte_of_N by lia.
    rewrite !N.mod_small by done. by rewrite Hsum.
Qed.

Lemma synchsafe_round_trip_witness :
  exists bs, synchsafe_encode 257 = Ok bs /\ length bs = 4%nat /\
             Forall (fun b => Byte.to_N b < 128) bs /\
             synchsafe_decode bs = Some 257.
Proof. apply (synchsafe_round_trip 257). reflexivity. Defined.

(** ** Sizes that do not fit *)

Lemma pos_digits_head p : exists t, pos_digits p = "1"%char :: t.
Proof.
  induction p as [q [t Ht]|q [t Ht]|]; cbn [pos_digits]; [| |by eexists];
    rewrite Ht; by eexists.
Qed.

Lemma pos_digits_length_above p w :
  2 ^ N.of_nat w <= Npos p -> (w < length (pos_digits p))%nat.
Proof.
  revert w. induction p as [q IH|q IH|]; intros w Hw; cbn [pos_digits].
  - rewrite length_app. cbn [length]. destruct w as [|w]; [lia|].
    rewrite Nat2N.inj_succ, N.pow_succ_r' in Hw. specialize (IH w). lia.
  - rewrite length_app. cbn [length]. destruct w as [|w]; [lia|].
    rewrite Nat2N.inj_succ, N.pow_succ_r' in Hw. specialize (IH w). lia.
  - destruct w as [|w]; [simpl; lia|].
    rewrite Nat2N.inj_succ, N.pow_succ_r' in Hw.
    assert (0 < 2 ^ N.of_nat w) by (apply N.neq_0_lt_0, N.pow_nonzero; lia). lia.
Qed.

Lemma wrap_lines_binary width fuel :
  forall s, binary s ->
  binary (concat (map (fun chunk => "0"%char :: chunk) (wrap_lines fuel width s))).
Proof.
  unfold binary. induction fuel as [|fuel IH]; intros s Hs; [constructor|].
  destruct s as [|c s]; [constructor|]. cbn [wrap_lines map concat].
  constructor; [by left|]. apply Forall_app_2.
  - by apply Forall_take.
  - apply IH. by apply Forall_drop.
Qed.

Lemma wrap_lines_cons fuel width c s :
  wrap_lines (S fuel) width (c :: s) =
  take width (c :: s) :: wrap_lines fuel width (drop width (c :: s)).
Proof. reflexivity. Qed.

(** A size of [2 ^ 28] or more does not fit: its binary form has a 29th
    digit, [wrap] makes a fifth group of it, the number read back has more
    than 32 bits and [to_bytes(4, "big")] raises OverflowError. *)
Lemma synchsafe_encode_overflow n :
  2 ^ 28 <= n -> synchsafe_encode n = Raise OverflowError.
Proof.
  intros Hn. unfold synchsafe_encode.
  destruct n as [|p]; [lia|].
  pose proof (pos_digits_length_above p 28 Hn) as Hlen.
  pose proof (pos_digits_binary p) as Hbin.
  destruct (pos_digits_head p) as [t Ht].
  unfold format_b. cbn [bin_digits].
  replace (28 - length (pos_digits p))%nat with 0%nat by lia.
  cbn [replicate app]. rewrite Ht in *. clear Ht.
  destruct t as [|c2 t]; [cbn [length] in Hlen; lia|].
  do 27 (destruct t as [|? t]; [cbn [length] in Hlen; lia|]).
  clear Hlen. unfold wrap. cbn [length].
  do 5 (rewrite wrap_lines_cons; cbn [firstn skipn]).
  cbn [map concat app].
  match goal with
  | |- context [int_base2 ("0"%char :: "1"%char :: ?x)] => set (tail := x)
  end.
  assert (binary tail) as Htail.
  { unfold binary in *. subst tail.
    repeat match goal with
           | H : Forall _ (_ :: _) |- _ => apply Forall_cons in H as [? H]
           end.
    repeat first [apply Forall_cons_2; [by auto|]
                 | apply Forall_app_2; [by apply Forall_take|]].
    apply (wrap_lines_binary 7). by apply Forall_drop. }
  assert (32 <= length tail)%nat as Htl.
  { subst tail. cbn [length]. rewrite ?length_app. cbn [length]. lia. }
  destruct (int_digits_binary tail Htail) as (v & _ & Hread).
  clearbody tail.
  unfold int_base2. cbn [int_digits]. change (digit_value "0") with (Some 0).
  change (digit_value "1") with (Some 1). cbv iota. rewrite Hread.
  unfold to_bytes_big. change (256 ^ N.of_nat 4) with (2 ^ 32).
  assert (2 ^ 32 <= 2 ^ N.of_nat (length tail)) by (apply N.pow_le_mono_r; lia).
  destruct (N.ltb_spec ((2 * (2 * 0 + 0) + 1) * 2 ^ N.of_nat (length tail) + v) (2 ^ 32));
    [lia | done].
Qed.

(** ** One round of the frame loop *)

Lemma valid_tag_name_length tag_name :
  valid_tag_name tag_name = true ->
  length tag_name = 4%nat \/ length tag_name = 5%nat.
Proof.
  unfold valid_tag_name. intros H.
  repeat case_match; simplify_eq; simpl; auto.
Qed.

(** The tag name of a frame header has four characters at most, so the
    newline that [$] tolerates never comes into play. *)
Lemma valid_frame_tag (input_file : list byte) :
  valid_tag_name (decode_iso (take 4 (take 8 input_file))) = true ->
  (4 <= length input_file)%nat /\
  Forall (fun c => tag_char c = true) (decode_iso (take 4 (take 8 input_file))).
Proof.
  intros Hvalid. pose proof (valid_tag_name_length _ Hvalid) as Hlen.
  unfold decode_iso in *. rewrite length_map, !length_take in Hlen.
  split; [lia|].
  destruct (map Byte.to_N (take 4 (take 8 input_file)))
    as [|a [|b [|c [|d [|e l]]]]] eqn:Htag; try discriminate Hvalid.
  - simpl in Hvalid.
    repeat (apply andb_prop in Hvalid as [Hvalid ?]). repeat constructor; done.
  - apply (f_equal length) in Htag.
    rewrite length_map, !length_take in Htag. cbn [length] in Htag. lia.
Qed.

Lemma read_frame_invalid preserved_tags automatic_correction c input_file w :
  valid_tag_name (decode_iso (take 4 (take 8 input_file))) = false ->
  read_frame preserved_tags automatic_correction c input_file w =
  (Ok (Return c), logged LogInvalidNextHeader w).
Proof. intros Hvalid. unfold read_frame. rewrite Hvalid. reflexivity. Qed.

Lemma read_frame_return preserved_tags automatic_correction c input_file w c' w' :
  read_frame preserved_tags automatic_correction c input_file w = (Ok (Return c'), w') ->
  valid_tag_name (decode_iso (take 4 (take 8 input_file))) = false /\ c' = c.
Proof.
  unfold read_frame.
  destruct (valid_tag_name _) eqn:Hvalid; cbn [negb].
  - unfold_monad. intros H. exfalso.
    repeat case_match; simplify_eq.
  - unfold_monad. intros H. by simplify_eq.
Qed.

(** ** The correction loop *)

Lemma validate_data_encode_true data :
  validate_data_encode data = true <-> exists bs, encode_data data = Ok bs.
Proof.
  unfold validate_data_encode. destruct (encode_data data) as [bs|e].
  - split; [eauto | done].
  - split; [done | intros (bs & Hbs); discriminate Hbs].
Qed.

Lemma correction_loop_unfold data_decoded automatic_correction lines
    alt_data_decoded corrections out :
  correction_loop data_decoded automatic_correction lines alt_data_decoded
    corrections out =
  if validate_data_encode alt_data_decoded then
    (encode_data alt_data_decoded, World corrections lines out)
  else
    match identify_encode_error_positions alt_data_decoded with
    | (printed, Raise e) => (Raise e, World corrections lines (out ++ printed))
    | (printed, Ok error_positions) =>
        let suggested_data_decoded :=
          suggest_data_changes alt_data_decoded error_positions in
        let out := (out ++ printed) ++ [Printed LogEncodingError] in
        if automatic_correction then
          accept_correction data_decoded suggested_data_decoded
            (World corrections lines out)
        else
          match lines with
          | [] => (Raise EOFError, World corrections [] (out ++ [Prompted]))
          | line :: lines' =>
              let manual_correction := strip line in
              let w := World corrections lines' (out ++ [Prompted]) in
              if bool_decide (manual_correction = []) then
                accept_correction data_decoded suggested_data_decoded w
              else if validate_data_encode manual_correction then
                accept_correction data_decoded manual_correction w
              else
                correction_loop data_decoded automatic_correction lines'
                  manual_correction corrections (out ++ [Prompted])
          end
    end.
Proof. destruct lines; reflexivity. Qed.

(** What accepting a correction does to the cache: nothing when the
    replacement does not encode, one entry for the decoded text otherwise. *)
Lemma accept_correction_spec data_decoded replacement w r w' :
  accept_correction data_decoded replacement w = (r, w') ->
  stdin w' = stdin w /\
  ((exists e, r = Raise e /\ w' = w) \/
   (exists bs, r = Ok bs /\ encode_data replacement = Ok bs /\
      accepted_corrections w' = <[data_decoded := replacement]> (accepted_corrections w))).
Proof.
  unfold accept_correction. destruct (encode_data replacement) as [bs|e];
    intros H; simplify_eq; simpl; split; eauto 10.
Qed.

(** The loop only reads lines of input, and it changes the cache only by
    storing, for the decoded text, a correction that encodes to the payload it
    returns. *)
Lemma correction_loop_spec data_decoded automatic_correction lines :
  forall alt_data_decoded corrections out r w',
  correction_loop data_decoded automatic_correction lines alt_data_decoded
    corrections out = (r, w') ->
  (exists k, stdin w' = drop k lines) /\
  (forall bs, r = Ok bs -> exists working_text, encode_data working_text = Ok bs) /\
  (accepted_corrections w' = corrections \/
   exists correction bs, r = Ok bs /\ encode_data correction = Ok bs /\
     accepted_corrections w' = <[data_decoded := correction]> corrections).
Proof.
  assert (forall replacement w r w',
            accept_correction data_decoded replacement w = (r, w') ->
            (exists k, stdin w' = drop k (stdin w)) /\
            (forall bs, r = Ok bs -> exists working_text, encode_data working_text = Ok bs) /\
            (accepted_corrections w' = accepted_corrections w \/
             exists correction bs, r = Ok bs /\ encode_data correction = Ok bs /\
               accepted_corrections w' =
               <[data_decoded := correction]> (accepted_corrections w))) as Haccept.
  { intros replacement w r w' H.
    destruct (accept_correction_spec _ _ _ _ _ H)
      as (Hin & [(e & -> & ->) | (bs & -> & Henc & Hc)]).
    - split; [by exists 0%nat|]. split; [done | by left].
    - split; [exists 0%nat; by rewrite drop_0|]. split; [|right; eauto].
      intros bs' [= <-]. eauto. }
  induction lines as [|line lines IH]; intros alt corrections out r w';
    rewrite correction_loop_unfold.
  - destruct (validate_data_encode alt) eqn:Hvalid.
    { intros [= <- <-]. simpl. split; [by exists 0%nat|]. split; [eauto | by left]. }
    destruct (identify_encode_error_positions alt) as [printed [positions|e]].
    + cbv zeta. destruct automatic_correction.
      * intros H. apply Haccept in H. exact H.
      * intros [= <- <-]. simpl. split; [by exists 0%nat|]. split; [done | by left].
    + intros [= <- <-]. simpl. split; [by exists 0%nat|]. split; [done | by left].
  - destruct (validate_data_encode alt) eqn:Hvalid.
    { intros [= <- <-]. simpl. split; [by exists 0%nat|]. split; [eauto | by left]. }
    destruct (identify_encode_error_positions alt) as [printed [positions|e]].
    + cbv zeta. destruct automatic_correction.
      * intros H. apply Haccept in H. exact H.
      * assert (forall x : result (list byte) * world,
                  ((exists k, stdin x.2 = drop k lines) /\
                   (forall bs, x.1 = Ok bs ->
                      exists working_text, encode_data working_text = Ok bs) /\
                   (accepted_corrections x.2 = corrections \/
                    exists correction bs, x.1 = Ok bs /\ encode_data correction = Ok bs /\
                      accepted_corrections x.2 = <[data_decoded := correction]> corrections)) ->
                  x = (r, w') ->
                  (exists k, stdin w' = drop k (line :: lines)) /\
                  (forall bs, r = Ok bs ->
                      exists working_text, encode_data working_text = Ok bs) /\
                  (accepted_corrections w' = corrections \/
                    exists correction bs, r = Ok bs /\ encode_data correction = Ok bs /\
                      accepted_corrections w' = <[data_decoded := correction]> corrections))
          as Hshift.
        { intros x ((k & Hk) & Hok & Hc) ->. simpl in *.
          split; [by exists (S k)|]. done. }
        repeat case_match.
        -- intros Hl. apply (Hshift (r, w')); [|done]. simpl.
           by apply Haccept in Hl.
        -- intros Hl. apply (Hshift (r, w')); [|done]. simpl.
           by apply Haccept in Hl.
        -- intros Hl. apply (Hshift (r, w')); [|done]. simpl.
           by apply IH in Hl.
    + intros [= <- <-]. simpl. split; [by exists 0%nat|]. split; [done | by left].
Qed.

Lemma accept_correction_outcome data_decoded replacement w r w' :
  accept_correction data_decoded replacement w = (r, w') ->
  match r with
  | Raise _ => w' = w
  | Ok data_encoded =>
      encode_data replacement = Ok data_encoded /\
      w' = World (<[data_decoded := replacement]> (accepted_corrections w))
             (stdin w) (stdout w)
  end.
Proof.
  unfold accept_correction. destruct (encode_data replacement) as [bs|e];
    intros [= <- <-]; done.
Qed.

(** What the loop does to the cache, by its outcome. *)
Lemma correction_loop_result data_decoded automatic_correction lines :
  forall alt_data_decoded corrections out r w',
  correction_loop data_decoded automatic_correction lines alt_data_decoded
    corrections out = (r, w') ->
  match r with
  | Raise _ => accepted_corrections w' = corrections
  | Ok data_encoded =>
      if validate_data_encode alt_data_decoded then
        encode_data alt_data_decoded = Ok data_encoded /\
        w' = World corrections lines out
      else
        exists correction,
          encode_data correction = Ok data_encoded /\
          accepted_corrections w' = <[data_decoded := correction]> corrections
  end.
Proof.
  assert (forall replacement corrections lines out r w',
            accept_correction data_decoded replacement (World corrections lines out)
              = (r, w') ->
            match r with
            | Raise _ => accepted_corrections w' = corrections
            | Ok data_encoded =>
                exists correction,
                  encode_data correction = Ok data_encoded /\
                  accepted_corrections w' = <[data_decoded := correction]> corrections
            end) as Haccept.
  { intros replacement corrections lines' out r w' H.
    apply accept_correction_outcome in H. destruct r as [bs|e].
    - destruct H as [Henc ->]. eauto.
    - by subst. }
  induction lines as [|line lines IH]; intros alt corrections out r w';
    rewrite correction_loop_unfold;
    destruct (validate_data_encode alt) eqn:Hvalid.
  - intros [= <- <-]. by destruct (encode_data alt).
  - destruct (identify_encode_error_positions alt) as [printed [positions|e]];
      [|by intros [= <- <-]].
    cbv zeta. destruct automatic_correction; [apply Haccept|].
    by intros [= <- <-].
  - intros [= <- <-]. by destruct (encode_data alt).
  - destruct (identify_encode_error_positions alt) as [printed [positions|e]];
      [|by intros [= <- <-]].
    cbv zeta. destruct automatic_correction; [apply Haccept|].
    case_bool_decide; [apply Haccept|].
    destruct (validate_data_encode (strip line)) eqn:Hmanual; [apply Haccept|].
    intros Hloop. apply IH in Hloop. rewrite Hmanual in Hloop.
    destruct r; done.
Qed.

(** ** The frame loop, round by round *)

(** One round on a well-formed tag name, with the monad unfolded. *)
Lemma read_frame_valid preserved_tags automatic_correction c input_file w :
  valid_tag_name (frame_tag_name input_file) = true ->
  read_frame preserved_tags automatic_correction c input_file w =
  if bool_decide (frame_tag_name input_file ∉ preserved_tags) then
    (Ok (Continue c (frame_rest input_file)), logged LogSkippedTag w)
  else if is_unicode (frame_data_raw input_file) then
    match utf_16 (slice_1_to_last 2 (frame_data_raw input_file)) with
    | None => (Raise UnicodeDecodeError, logged LogFatalDecodingError w)
    | Some data_decoded =>
        match transcode automatic_correction data_decoded (logged LogFrame w) with
        | (Ok data_encoded, w') =>
            (Ok (Continue
                   (append_frame c
                      (Frame (frame_tag_name input_file) (frame_data_flags input_file)
                         data_encoded true))
                   (frame_rest input_file)),
             logged LogResult w')
        | (Raise e, w') => (Raise e, w')
        end
    end
  else
    (Ok (Continue
           (append_frame c
              (Frame (frame_tag_name input_file) (frame_data_flags input_file)
                 (frame_data_raw input_file) false))
           (frame_rest input_file)),
     logged LogResult (logged LogFrame w)).
Proof.
  unfold frame_tag_name. intros Hvalid. unfold read_frame. rewrite Hvalid.
  cbn [negb]. fold (frame_tag_name input_file).
  fold (frame_data_length input_file). fold (frame_data_flags input_file).
  fold (frame_data_raw input_file). fold (frame_rest input_file).
  fold (is_unicode (frame_data_raw input_file)).
  destruct (bool_decide (frame_tag_name input_file ∉ preserved_tags));
    [reflexivity|].
  unfold decode_frame_data.
  destruct (is_unicode (frame_data_raw input_file)); cbn [negb].
  - destruct (utf_16 _) as [data_decoded|]; [|reflexivity].
    unfold bind, ret, raise, print_log_lines. cbn [accepted_corrections stdin stdout].
    change (World (accepted_corrections w) (stdin w) (stdout w ++ [Printed LogFrame]))
      with (logged LogFrame w).
    destruct (transcode automatic_correction data_decoded (logged LogFrame w))
      as [[data_encoded|e] w']; reflexivity.
  - reflexivity.
Qed.

Lemma cache_grows_refl w : cache_grows w w.
Proof. by intros H. Qed.

Lemma cache_grows_trans w1 w2 w3 :
  cache_grows w1 w2 -> cache_grows w2 w3 -> cache_grows w1 w3.
Proof.
  intros H12 H23 H1. destruct (H12 H1) as [Hsub2 H2].
  destruct (H23 H2) as [Hsub3 H3]. split; [by etrans | done].
Qed.

Lemma cache_grows_logged line w w' :
  cache_grows w w' -> cache_grows w (logged line w').
Proof. done. Qed.

Lemma cache_grows_from_logged line w w' :
  cache_grows (logged line w) w' -> cache_grows w w'.
Proof. done. Qed.

(** A cached correction is used as it is: nothing is asked, nothing is
    printed, the cache stays as it was. *)
Lemma transcode_cached automatic_correction data_decoded correction w :
  corrections_valid (accepted_corrections w) ->
  accepted_corrections w !! data_decoded = Some correction ->
  exists data_encoded,
    encode_data correction = Ok data_encoded /\
    transcode automatic_correction data_decoded w = (Ok data_encoded, w).
Proof.
  intros Hvalid Hcached. pose proof (Hvalid _ _ Hcached) as Hcorr.
  destruct (proj1 (validate_data_encode_true _) Hcorr) as [data_encoded Henc].
  exists data_encoded. split; [done|].
  unfold transcode. rewrite Hcached, correction_loop_unfold, Hcorr, Henc.
  by destruct w.
Qed.

Lemma transcode_spec automatic_correction data_decoded w r w' :
  transcode automatic_correction data_decoded w = (r, w') ->
  (exists k, stdin w' = drop k (stdin w)) /\
  (forall bs, r = Ok bs -> exists working_text, encode_data working_text = Ok bs) /\
  cache_grows w w'.
Proof.
  intros Hrun.
  assert (Hloop := Hrun). unfold transcode in Hloop.
  apply correction_loop_spec in Hloop as (Hin & Hok & Hcache).
  split; [done|]. split; [done|]. intros Hvalid.
  destruct (accepted_corrections w !! data_decoded) as [correction|] eqn:Hcached.
  - destruct (transcode_cached automatic_correction _ _ _ Hvalid Hcached)
      as (data_encoded & _ & Hsame).
    rewrite Hsame in Hrun. by simplify_eq.
  - destruct Hcache as [-> | (correction & bs & -> & Henc & ->)]; [done|].
    split; [by apply insert_subseteq|].
    intros k v. rewrite lookup_insert. case_decide.
    + intros [= <-]. apply validate_data_encode_true. eauto.
    + apply Hvalid.
Qed.

Lemma frame_of_file_drop n file preserved_tags fr :
  frame_of_file (drop n file) preserved_tags fr ->
  frame_of_file file preserved_tags fr.
Proof.
  intros (Htag & Hvalid & (k & Hflags) & Hdata).
  split; [done|]. split; [done|]. split.
  - exists (n + k)%nat. by rewrite <- drop_drop.
  - destruct (data_was_converted fr); [done|].
    destruct Hdata as (k' & m & Hdata). exists (n + k')%nat, m.
    by rewrite <- drop_drop.
Qed.

(** What one round does: it returns only on a malformed tag name, and
    otherwise goes on behind the frame record, with the container as it was or
    with one more frame. *)
Lemma read_frame_spec preserved_tags automatic_correction c input_file w r w' :
  read_frame preserved_tags automatic_correction c input_file w = (r, w') ->
  cache_grows w w' /\
  (exists k, stdin w' = drop k (stdin w)) /\
  match r with
  | Raise _ => True
  | Ok (Return c') =>
      valid_tag_name (frame_tag_name input_file) = false /\ c' = c
  | Ok (Continue c' input_file') =>
      valid_tag_name (frame_tag_name input_file) = true /\
      input_file' = frame_rest input_file /\
      (c' = c /\ frame_tag_name input_file ∉ preserved_tags \/
       exists fr, c' = append_frame c fr /\ frame_of_file input_file preserved_tags fr)
  end.
Proof.
  destruct (valid_tag_name (frame_tag_name input_file)) eqn:Hvalid.
  - rewrite read_frame_valid by done.
    case_bool_decide as Hpres.
    { intros [= <- <-]. split; [exact (cache_grows_refl w)|].
      split; [by exists 0%nat|]. auto. }
    destruct (is_unicode (frame_data_raw input_file)).
    + destruct (utf_16 _) as [data_decoded|].
      * destruct (transcode _ _ _) as [[data_encoded|e] w1] eqn:Hrun;
          apply transcode_spec in Hrun as (Hin & Hok & Hgrows);
          intros [= <- <-].
        -- split; [done|]. split; [done|]. split; [done|]. split; [done|].
           right. eexists. split; [done|].
           split; [done|]. split; [done|].
           split; [by exists 8%nat|]. simpl. eauto.
        -- done.
      * intros [= <- <-]. split; [exact (cache_grows_refl w)|]. split; [|done].
        by exists 0%nat.
    + intros [= <- <-]. split; [exact (cache_grows_refl w)|].
      split; [by exists 0%nat|]. split; [done|]. split; [done|].
      right. eexists. split; [done|].
      split; [done|]. split; [done|]. split; [by exists 8%nat|].
      simpl. unfold frame_data_raw. rewrite drop_drop. eauto.
  - unfold frame_tag_name in Hvalid. rewrite read_frame_invalid by done.
    intros [= <- <-]. split; [exact (cache_grows_refl w)|].
    split; [by exists 0%nat | done].
Qed.

Lemma frame_rest_length input_file :
  valid_tag_name (frame_tag_name input_file) = true ->
  (length (frame_rest input_file) < length input_file)%nat.
Proof.
  intros Hvalid. apply valid_frame_tag in Hvalid as [Hlen _].
  unfold frame_rest. rewrite !length_drop. lia.
Qed.

Lemma frame_rest_drop input_file :
  exists n, frame_rest input_file = drop n input_file.
Proof. unfold frame_rest. rewrite !drop_drop. eauto. Qed.

(** ** The whole loop and [read_id3] *)

(** Fuel above the length of the input is enough: the loop ends. *)
Lemma read_frames_fuel fuel preserved_tags automatic_correction :
  forall c input_file w,
  (length input_file < fuel)%nat ->
  exists r w',
    read_frames fuel preserved_tags automatic_correction c input_file w = Some (r, w').
Proof.
  induction fuel as [|fuel IH]; intros c input_file w Hfuel; [lia|].
  cbn [read_frames].
  destruct (read_frame preserved_tags automatic_correction c input_file w)
    as [[[c'|c' input_file']|e] w1] eqn:Hround; eauto.
  apply read_frame_spec in Hround as (_ & _ & Hvalid & -> & _).
  apply IH. apply frame_rest_length in Hvalid. lia.
Qed.

Lemma stdin_drop_trans (w1 w2 w3 : world) :
  (exists k, stdin w2 = drop k (stdin w1)) ->
  (exists k, stdin w3 = drop k (stdin w2)) ->
  exists k, stdin w3 = drop k (stdin w1).
Proof.
  intros (k1 & H1) (k2 & H2). exists (k1 + k2)%nat.
  by rewrite H2, H1, drop_drop.
Qed.

Lemma read_frames_spec fuel preserved_tags automatic_correction :
  forall c input_file w r w',
  read_frames fuel preserved_tags automatic_correction c input_file w = Some (r, w') ->
  cache_grows w w' /\
  (exists k, stdin w' = drop k (stdin w)) /\
  forall c', r = Ok c' ->
    header c' = header c /\ content_offset c' = content_offset c /\
    exists new_frames,
      frames c' = frames c ++ new_frames /\
      Forall (frame_of_file input_file preserved_tags) new_frames.
Proof.
  induction fuel as [|fuel IH]; intros c input_file w r w'; [discriminate|].
  cbn [read_frames].
  destruct (read_frame preserved_tags automatic_correction c input_file w)
    as [[[c1|c1 input_file1]|e] w1] eqn:Hround;
    apply read_frame_spec in Hround as (Hgrows & Hin & Hround).
  - intros [= <- <-]. split; [done|]. split; [done|].
    intros c' [= <-]. destruct Hround as [_ ->].
    split; [done|]. split; [done|]. exists []. by rewrite app_nil_r.
  - intros Hloop. apply IH in Hloop as (Hgrows' & Hin' & Hloop).
    split; [by eapply cache_grows_trans|].
    split; [by eapply stdin_drop_trans|].
    intros c' ->. destruct (Hloop c' eq_refl) as (Hh & Ho & new_frames & Hf & Hall).
    destruct Hround as (_ & -> & Hround).
    destruct (frame_rest_drop input_file) as [n Hn]. rewrite Hn in Hall.
    assert (Forall (frame_of_file input_file preserved_tags) new_frames) as Hall'.
    { eapply Forall_impl; [exact Hall|]. intros fr. apply frame_of_file_drop. }
    destruct Hround as [[-> _] | (fr & -> & Hfr)].
    + eauto.
    + cbn [append_frame header content_offset frames] in *.
      split; [done|]. split; [done|]. exists (fr :: new_frames).
      split; [by rewrite Hf, <- app_assoc | by constructor].
  - intros [= <- <-]. split; [done|]. split; [done|]. done.
Qed.

Lemma int_digits_low_sevens bs acc :
  exists v,
    int_digits acc
      (concat (map (fun byte => drop 1 (format_b 8 (Byte.to_N byte))) bs)) = Some v.
Proof.
  revert acc. induction bs as [|b bs IH]; intros acc; cbn [map concat].
  - simpl. eauto.
  - rewrite low_seven_digits, int_digits_seven by (apply N.mod_upper_bound; lia).
    apply IH.
Qed.

(** A size field that is not empty always decodes. *)
Lemma synchsafe_decode_cons b bs : exists v, synchsafe_decode (b :: bs) = Some v.
Proof.
  unfold synchsafe_decode, int_base2.
  destruct (concat _) as [|d ds] eqn:Hs.
  - apply (f_equal length) in Hs. cbn [map concat] in Hs.
    rewrite low_seven_digits, length_app, format_b_length in Hs;
      [discriminate | lia | apply N.mod_upper_bound; lia].
  - rewrite <- Hs. apply int_digits_low_sevens.
Qed.

Lemma synchsafe_decode_nil : synchsafe_decode [] = None.
Proof. reflexivity. Qed.

(** [read_id3] always comes back, with a container or an exception. *)
Lemma read_id3_total input_file preserved_tags automatic_correction w :
  exists r w',
    read_id3 input_file preserved_tags automatic_correction w = Some (r, w').
Proof.
  unfold read_id3. cbn [print_log_lines].
  destruct (synchsafe_decode _) as [id3_size|]; [|eauto].
  case_bool_decide; [eauto|]. apply read_frames_fuel. lia.
Qed.

(** What a container that [read_id3] returns is made of. *)
Lemma read_id3_spec input_file preserved_tags automatic_correction w c w' :
  read_id3 input_file preserved_tags automatic_correction w = Some (Ok c, w') ->
  decode_iso (take 3 input_file) = text "ID3" /\
  header c = take 6 input_file /\
  (exists id3_size,
     synchsafe_decode (drop 6 (take 10 input_file)) = Some id3_size /\
     content_offset c = N.of_nat (length (take 10 input_file)) + id3_size) /\
  Forall (frame_of_file input_file preserved_tags) (frames c) /\
  cache_grows w w' /\
  (exists k, stdin w' = drop k (stdin w)).
Proof.
  unfold read_id3. cbn [print_log_lines]. rewrite !take_take.
  change (3 `min` 10)%nat with 3%nat. change (10 `min` 10)%nat with 10%nat.
  change (6 `min` 10)%nat with 6%nat.
  destruct (synchsafe_decode _) as [id3_size|]; [|discriminate].
  case_bool_decide as Hmagic; [discriminate|].
  intros Hloop. apply read_frames_spec in Hloop as (Hgrows & Hin & Hloop).
  destruct (Hloop c eq_refl) as (Hh & Ho & new_frames & Hf & Hall).
  cbn [header content_offset frames app] in *.
  split; [done|]. split; [done|]. split; [eauto|].
  split; [|done]. rewrite Hf.
  eapply Forall_impl; [exact Hall|]. intros fr. apply frame_of_file_drop.
Qed.

(** ** The records of a file *)

(** The frames that the loop adds are those of the preserved records, in
    the order of the file. *)
Lemma read_frames_records fuel preserved_tags automatic_correction :
  forall c input_file w c' w',
  read_frames fuel preserved_tags automatic_correction c input_file w = Some (Ok c', w') ->
  exists new_frames,
    frames c' = frames c ++ new_frames /\
    Forall2 frame_of_record new_frames
      (filter (fun record => frame_tag_name record ∈ preserved_tags)
         (frame_records fuel input_file)).
Proof.
  induction fuel as [|fuel IH]; intros c input_file w c' w'; [discriminate|].
  cbn [read_frames frame_records].
  destruct (valid_tag_name (frame_tag_name input_file)) eqn:Hvalid.
  - rewrite read_frame_valid by done. rewrite filter_cons.
    case_bool_decide as Hskip.
    + rewrite decide_False by done. apply IH.
    + rewrite decide_True by done.
      destruct (is_unicode (frame_data_raw input_file)) eqn:Hunicode.
      * destruct (utf_16 _) as [data_decoded|]; [|discriminate].
        destruct (transcode _ _ _) as [[data_encoded|e] w1]; [|discriminate].
        intros Hloop. apply IH in Hloop as (new_frames & Hframes & Hall).
        cbn [append_frame frames] in Hframes. eexists (_ :: new_frames).
        split; [by rewrite Hframes, <- app_assoc|].
        constructor; [|done]. unfold frame_of_record. cbn [tag data_flags data_was_converted data].
        rewrite Hunicode. done.
      * intros Hloop. apply IH in Hloop as (new_frames & Hframes & Hall).
        cbn [append_frame frames] in Hframes. eexists (_ :: new_frames).
        split; [by rewrite Hframes, <- app_assoc|].
        constructor; [|done]. unfold frame_of_record. cbn [tag data_flags data_was_converted data].
        rewrite Hunicode. done.
  - unfold frame_tag_name in Hvalid. rewrite read_frame_invalid by done.
    intros [= <- <-]. exists []. rewrite app_nil_r. split; [done|]. constructor.
Qed.

Lemma read_id3_records input_file preserved_tags automatic_correction w c w' :
  read_id3 input_file preserved_tags automatic_correction w = Some (Ok c, w') ->
  Forall2 frame_of_record (frames c)
    (filter (fun record => frame_tag_name record ∈ preserved_tags)
       (records_of (drop 10 input_file))).
Proof.
  unfold read_id3. cbn [print_log_lines].
  destruct (synchsafe_decode _) as [id3_size|]; [|discriminate].
  case_bool_decide as Hmagic; [discriminate|].
  intros Hloop. apply read_frames_records in Hloop as (new_frames & Hframes & Hall).
  cbn [frames app] in Hframes. by rewrite Hframes.
Qed.


(** ** The claims on the parser *)

(** Whenever the loop returns a container, it has stopped in front of a
    record whose tag name is malformed. *)
Lemma read_frames_returns_at_malformed_tag fuel preserved_tags automatic_correction :
  forall c input_file w c' w',
  read_frames fuel preserved_tags automatic_correction c input_file w = Some (Ok c', w') ->
  exists n, valid_tag_name (frame_tag_name (drop n input_file)) = false.
Proof.
  induction fuel as [|fuel IH]; intros c input_file w c' w'; [discriminate|].
  cbn [read_frames].
  destruct (read_frame preserved_tags automatic_correction c input_file w)
    as [[[c1|c1 input_file1]|e] w1] eqn:Hround;
    apply read_frame_spec in Hround as (_ & _ & Hround).
  - intros _. exists 0%nat. rewrite drop_0. apply Hround.
  - intros Hloop. apply IH in Hloop as [n Hn].
    destruct Hround as (_ & -> & _).
    destruct (frame_rest_drop input_file) as [m Hm]. rewrite Hm, drop_drop in Hn.
    eauto.
  - discriminate.
Qed.


(** C5. Preservation filter. Every frame of a container that [read_id3]
    returns carries a tag name of the preservation set; and a round of the
    loop in front of a record whose well-formed tag name is not in the set,
    whatever its flags and payload, leaves the container as it is and goes on
    behind that record. *)
Theorem preservation_filter preserved_tags automatic_correction :
  (forall input_file w c w',
     read_id3 input_file preserved_tags automatic_correction w = Some (Ok c, w') ->
     forall fr, fr ∈ frames c -> tag fr ∈ preserved_tags) /\
  (forall c input_file w,
     valid_tag_name (frame_tag_name input_file) = true ->
     frame_tag_name input_file ∉ preserved_tags ->
     read_frame preserved_tags automatic_correction c input_file w =
     (Ok (Continue c (frame_rest input_file)), logged LogSkippedTag w)).
Proof.
  split.
  - intros input_file w c w' Hread fr Hfr.
    apply read_id3_spec in Hread as (_ & _ & _ & Hall & _).
    rewrite Forall_forall in Hall. by destruct (Hall fr Hfr) as (Htag & _).
  - intros c input_file w Hvalid Hskip. rewrite read_frame_valid by done.
    by rewrite bool_decide_eq_true_2.
Qed.

(** C8. What the code does on a file without the identifier. When the
    first three bytes do not decode to ["ID3"], [read_id3] returns no
    container. For a file of seven bytes or more it gets to the check of the
    identifier, whose [raise "Invalid ID3 identifier"] raises a str, which is
    no exception: what is raised is TypeError, once the header line is
    printed. For a shorter file the size field is empty, and decoding it has
    raised ValueError before the identifier is looked at. *)
Theorem invalid_magic input_file preserved_tags automatic_correction w :
  decode_iso (take 3 input_file) <> text "ID3" ->
  ((7 <= length input_file)%nat ->
   read_id3 input_file preserved_tags automatic_correction w =
   Some (Raise TypeError, logged LogHeader (logged LogInputPath w))) /\
  ((length input_file <= 6)%nat ->
   read_id3 input_file preserved_tags automatic_correction w =
   Some (Raise ValueError, logged LogInputPath w)).
Proof.
  intros Hmagic. unfold read_id3. cbn [print_log_lines].
  rewrite !take_take. change (3 `min` 10)%nat with 3%nat.
  change (10 `min` 10)%nat with 10%nat. split; intros Hlen.
  - destruct (drop 6 (take 10 input_file)) as [|b bs] eqn:Hd.
    { apply (f_equal length) in Hd. rewrite length_drop, length_take in Hd.
      cbn [length] in Hd. lia. }
    destruct (synchsafe_decode_cons b bs) as [v ->].
    by rewrite bool_decide_eq_true_2 by done.
  - rewrite (drop_ge (take 10 input_file)) by (rewrite length_take; lia).
    reflexivity.
Qed.

(** ** The writer *)

Lemma to_bytes_big_4_small n :
  n < 2 ^ 32 -> to_bytes_big 4 n = Ok (big_endian_4 n).
Proof.
  intros Hn. unfold to_bytes_big. change (256 ^ N.of_nat 4) with (2 ^ 32).
  destruct (N.ltb_spec n (2 ^ 32)) as [_|Hge]; [|lia].
  cbn [seq rev app map].
  change (256 ^ N.of_nat 3) with 16777216. change (256 ^ N.of_nat 2) with 65536.
  change (256 ^ N.of_nat 1) with 256. change (256 ^ N.of_nat 0) with 1.
  by rewrite N.div_1_r.
Qed.

Lemma encode_iso_latin1 s :
  Forall (fun char => char < 256) s -> encode_iso s = Ok (map byte_of_N s).
Proof.
  intros Hs. unfold encode_iso.
  assert (forallb (fun c => c <? 256) s = true) as ->; [|done].
  apply forallb_forall. intros c Hc. apply N.ltb_lt.
  rewrite Forall_forall in Hs. apply Hs. by apply list_elem_of_In.
Qed.

Lemma assemble_frames_spec frs :
  forall assembled_frames,
  Forall (fun fr => Forall (fun char => char < 256) (tag fr)) frs ->
  Forall (fun fr => N.of_nat (length (data fr)) < 2 ^ 32) frs ->
  assemble_frames assembled_frames frs =
  Ok (assembled_frames ++ concat (map frame_record frs)).
Proof.
  induction frs as [|fr frs IH]; intros assembled_frames Htags Hlens.
  - simpl. by rewrite app_nil_r.
  - inversion_clear Htags as [|? ? Htag Htags']. inversion_clear Hlens as [|? ? Hlen Hlens'].
    cbn [assemble_frames]. unfold assemble_frame.
    rewrite encode_iso_latin1, to_bytes_big_4_small by done.
    rewrite IH by done. f_equal. cbn [map concat]. unfold frame_record.
    by rewrite <- !app_assoc.
Qed.

Lemma frame_record_data_length fr frs :
  fr ∈ frs ->
  (length (data fr) <= length (concat (map frame_record frs)))%nat.
Proof.
  induction 1 as [fr frs|fr fr' frs _ IH]; cbn [map concat]; rewrite length_app.
  - unfold frame_record. rewrite !length_app. lia.
  - lia.
Qed.

Lemma reopened_other fs input_path output_path writes :
  realpath input_path <> realpath output_path ->
  reopened fs input_path output_path writes = fs !! realpath input_path.
Proof. intros Hne. unfold reopened. rewrite lookup_insert_ne; [done | congruence]. Qed.

Lemma reopened_same fs input_path output_path writes :
  realpath input_path = realpath output_path ->
  reopened fs input_path output_path writes =
  Some (take (flushed writes) (concat writes)).
Proof. intros Hsame. unfold reopened. rewrite Hsame. by rewrite lookup_insert_eq. Qed.

Lemma concat_writes (a b c : list byte) : concat [a; b; c] = a ++ b ++ c.
Proof. cbn [concat]. by rewrite app_nil_r. Qed.

(** A written file is what was written before the payload, followed by what
    was found at the input path, from [content_offset] on. *)
Lemma write_id3_written fs input_path output_path c content :
  write_id3 fs input_path output_path c = Written content ->
  exists assembled_frames size_bytes input_file,
    assemble_frames [] (frames c) = Ok assembled_frames /\
    synchsafe_encode (N.of_nat (length (assembled_frames ++ replicate 32 x00))) = Ok size_bytes /\
    reopened fs input_path output_path
      [header c; size_bytes; assembled_frames ++ replicate 32 x00] = Some input_file /\
    content = ((header c ++ size_bytes) ++ assembled_frames ++ replicate 32 x00)
                ++ drop (N.to_nat (content_offset c)) input_file.
Proof.
  unfold write_id3. destruct (assemble_frames [] (frames c)) as [assembled|e];
    [|discriminate].
  cbv zeta. destruct (synchsafe_encode _) as [size_bytes|e] eqn:Hsize;
    [|discriminate].
  destruct (reopened _ _ _ _) as [input_file|] eqn:Hinput; [|discriminate].
  intros [= <-]. exists assembled, size_bytes, input_file. done.
Qed.

Lemma to_bytes_big_4_inv n bs :
  to_bytes_big 4 n = Ok bs -> bs = big_endian_4 n.
Proof.
  unfold to_bytes_big. destruct (n <? 256 ^ N.of_nat 4); [|discriminate].
  intros [= <-]. cbn [seq rev app map].
  change (256 ^ N.of_nat 3) with 16777216. change (256 ^ N.of_nat 2) with 65536.
  change (256 ^ N.of_nat 1) with 256. change (256 ^ N.of_nat 0) with 1.
  by rewrite N.div_1_r.
Qed.

(** Whatever the loop of the writer assembles is the records of the frames,
    in order. *)
Lemma assemble_frames_inv frs :
  forall assembled_frames assembled_frames',
  assemble_frames assembled_frames frs = Ok assembled_frames' ->
  assembled_frames' = assembled_frames ++ concat (map frame_record frs).
Proof.
  induction frs as [|fr frs IH]; intros assembled assembled'.
  - intros [= <-]. simpl. by rewrite app_nil_r.
  - cbn [assemble_frames]. unfold assemble_frame, encode_iso.
    destruct (forallb _ (tag fr)); [|discriminate].
    destruct (to_bytes_big 4 _) as [length_bytes|e] eqn:Hlen; [|discriminate].
    apply to_bytes_big_4_inv in Hlen as ->.
    intros Hrest. apply IH in Hrest as ->. cbn [map concat]. unfold frame_record.
    by rewrite <- !app_assoc.
Qed.

(** A file that the writer completes has the frame block of the container
    in it, and that block is shorter than [2 ^ 28] bytes. *)
Lemma write_id3_written_block fs input_path output_path c content :
  write_id3 fs input_path output_path c = Written content ->
  N.of_nat (length (frame_block c)) < 2 ^ 28 /\
  exists size_bytes input_file,
    synchsafe_encode (N.of_nat (length (frame_block c))) = Ok size_bytes /\
    reopened fs input_path output_path [header c; size_bytes; frame_block c]
      = Some input_file /\
    content = header c ++ size_bytes ++ frame_block c
                ++ drop (N.to_nat (content_offset c)) input_file.
Proof.
  intros Hwrite.
  apply write_id3_written in Hwrite
    as (assembled & size_bytes & input_file & Hasm & Hsize & Hinput & ->).
  apply assemble_frames_inv in Hasm as ->. cbn [app] in Hsize, Hinput.
  fold (frame_block c) in Hsize, Hinput. split.
  - destruct (N.lt_ge_cases (N.of_nat (length (frame_block c))) (2 ^ 28)) as [|Hge];
      [done|].
    apply synchsafe_encode_overflow in Hge. congruence.
  - exists size_bytes, input_file. split; [done|]. split; [done|]. cbn [app].
    fold (frame_block c). by rewrite <- !app_assoc.
Qed.

(** The writer on a container whose frame block is shorter than [2 ^ 28]
    bytes. *)
Lemma write_id3_small fs input_path output_path c :
  latin1_tags c ->
  N.of_nat (length (frame_block c)) < 2 ^ 28 ->
  exists size_bytes,
    synchsafe_encode (N.of_nat (length (frame_block c))) = Ok size_bytes /\
    length size_bytes = 4%nat /\
    write_id3 fs input_path output_path c =
    match reopened fs input_path output_path [header c; size_bytes; frame_block c] with
    | Some input_file =>
        Written (header c ++ size_bytes ++ frame_block c
                   ++ drop (N.to_nat (content_offset c)) input_file)
    | None => Truncated (header c ++ size_bytes ++ frame_block c) FileNotFoundError
    end.
Proof.
  intros Htags Hsize.
  destruct (synchsafe_encode_groups _ Hsize) as (v1 & v2 & v3 & v4 & _ & _ & Henc).
  eexists. split; [exact Henc|]. split; [reflexivity|].
  unfold write_id3. rewrite assemble_frames_spec; [| exact Htags |].
  - cbn [app]. fold (frame_block c). rewrite Henc. rewrite <- !app_assoc.
    destruct (reopened _ _ _ _); [by rewrite <- !app_assoc | done].
  - apply Forall_forall. intros fr Hfr.
    pose proof (frame_record_data_length fr _ Hfr) as Hle.
    unfold frame_block in Hsize. rewrite length_app in Hsize. lia.
Qed.

(** The writer on a container whose frame block is too long for the four
    synchsafe bytes: the header has been written when the conversion of the
    size raises. *)
Lemma write_id3_oversize fs input_path output_path c e :
  latin1_tags c ->
  Forall (fun fr => N.of_nat (length (data fr)) < 2 ^ 32) (frames c) ->
  synchsafe_encode (N.of_nat (length (frame_block c))) = Raise e ->
  write_id3 fs input_path output_path c = Truncated (header c) e.
Proof.
  intros Htags Hlens Hsize. unfold write_id3.
  rewrite assemble_frames_spec by done. cbn [app]. fold (frame_block c).
  by rewrite Hsize.
Qed.

Lemma tag_char_latin1 ch : tag_char ch = true -> ch < 256.
Proof.
  unfold tag_char. intros H.
  apply orb_true_iff in H as [H|H]; apply andb_true_iff in H as [_ H];
    apply N.leb_le in H; lia.
Qed.

Lemma valid_tag_name_latin1 tag_name :
  valid_tag_name tag_name = true -> Forall (fun char => char < 256) tag_name.
Proof.
  unfold valid_tag_name. intros Hvalid.
  repeat case_match; simplify_eq;
    repeat (apply andb_prop in Hvalid as [Hvalid ?]);
    repeat constructor; auto using tag_char_latin1; lia.
Qed.

(** The tag names of a parsed container are ISO-8859-1, its header has six
    bytes. *)
Lemma read_id3_latin1_tags input_file preserved_tags automatic_correction w c w' :
  read_id3 input_file preserved_tags automatic_correction w = Some (Ok c, w') ->
  latin1_tags c /\ length (header c) = 6%nat.
Proof.
  intros Hread. assert (Hspec := Hread).
  apply read_id3_spec in Hspec as (_ & Hheader & (size & Hsize & _) & Hall & _).
  split.
  - unfold latin1_tags. eapply Forall_impl; [exact Hall|].
    intros fr (_ & Hvalid & _). by apply valid_tag_name_latin1.
  - rewrite Hheader, length_take.
    destruct (drop 6 (take 10 input_file)) as [|b bs] eqn:Hd; [discriminate|].
    apply (f_equal length) in Hd. rewrite length_drop, length_take in Hd.
    cbn [length] in Hd. lia.
Qed.

(** ** The claims on the writer, the payloads and the cache *)



(** C3 (amended). Frame payloads: the frames of a container that
    [read_id3] returns are those of the preserved records of the file, one
    for one and in their order. A frame from a Unicode record (its payload
    starts with the byte 1) is marked as converted and holds a zero byte, the
    Shift-JIS encoding of a text that encodes without error, and a zero byte.
    A frame from any other record is not marked and holds the payload bytes
    of its record as they are in the file, which are not checked against
    Shift-JIS. *)
Theorem frame_payloads input_file preserved_tags automatic_correction w c w' :
  read_id3 input_file preserved_tags automatic_correction w = Some (Ok c, w') ->
  Forall2
    (fun fr record =>
       if is_unicode (frame_data_raw record)
       then data_was_converted fr = true /\
            exists working_text bs,
              validate_data_encode working_text = true /\
              encode_shift_jis working_text = Ok bs /\
              data fr = x00 :: bs ++ [x00]
       else data_was_converted fr = false /\ data fr = frame_data_raw record)
    (frames c)
    (filter (fun record => frame_tag_name record ∈ preserved_tags)
       (records_of (drop 10 input_file))) /\
  Forall
    (fun fr =>
       if data_was_converted fr
       then exists working_text bs,
              validate_data_encode working_text = true /\
              encode_shift_jis working_text = Ok bs /\
              data fr = x00 :: bs ++ [x00]
       else exists k n, data fr = take n (drop k input_file))
    (frames c).
Proof.
  intros Hread. pose proof (read_id3_records _ _ _ _ _ _ Hread) as Hrecords.
  apply read_id3_spec in Hread as (_ & _ & _ & Hall & _).
  assert (forall fr, frame_of_file input_file preserved_tags fr ->
            if data_was_converted fr
            then exists working_text bs,
                   validate_data_encode working_text = true /\
                   encode_shift_jis working_text = Ok bs /\
                   data fr = x00 :: bs ++ [x00]
            else exists k n, data fr = take n (drop k input_file)) as Hpayload.
  { intros fr (_ & _ & _ & Hdata). destruct (data_was_converted fr); [|done].
    destruct Hdata as (working_text & Henc). exists working_text.
    assert (validate_data_encode working_text = true) as Hvalid
      by (apply validate_data_encode_true; eauto).
    unfold encode_data in Henc.
    destruct (encode_shift_jis working_text) as [bs|e]; [|discriminate].
    exists bs. by simplify_eq. }
  split; [|eapply Forall_impl; [exact Hall | exact Hpayload]].
  revert Hall. generalize dependent (frames c). clear c.
  induction 1 as [|fr record frs records Hrecord _ IH]; intros Hall; [constructor|].
  inversion_clear Hall as [|? ? Hfr Hfrs]. constructor; [|by apply IH].
  destruct Hrecord as (_ & _ & Hconv & Hraw). apply Hpayload in Hfr.
  destruct (is_unicode (frame_data_raw record)).
  - rewrite Hconv in Hfr. done.
  - split; [done | by apply Hraw].
Qed.

(** C4. Correction caching. In a world whose cached corrections all encode
    (so it is when a run starts with the empty cache, and so it stays, round
    after round and file after file): a preserved Unicode frame whose decoded
    text has a cached correction gets the encoding of that correction as
    payload, without a question and without a change to the cache or to the
    input; an accepted correction is stored under the decoded text; and
    whatever a round of the frame loop or a whole [read_id3] does, every
    cached entry is still there afterwards, with the same correction. And
    the loop does store what it accepts: when a preserved Unicode frame whose
    decoded text has no cached correction and does not encode is read, the
    cache holds afterwards, under that decoded text, a correction whose
    encoding is the payload of the frame; and in every world that holds this
    entry, another frame with the same decoded text gets the same payload,
    without a question and without a change to the cache or to the input. *)
Theorem correction_caching w :
  corrections_valid (accepted_corrections w) ->
  (forall preserved_tags automatic_correction c input_file data_decoded correction,
     valid_tag_name (frame_tag_name input_file) = true ->
     frame_tag_name input_file ∈ preserved_tags ->
     is_unicode (frame_data_raw input_file) = true ->
     utf_16 (slice_1_to_last 2 (frame_data_raw input_file)) = Some data_decoded ->
     accepted_corrections w !! data_decoded = Some correction ->
     exists data_encoded,
       encode_data correction = Ok data_encoded /\
       read_frame preserved_tags automatic_correction c input_file w =
       (Ok (Continue
              (append_frame c
                 (Frame (frame_tag_name input_file) (frame_data_flags input_file)
                    data_encoded true))
              (frame_rest input_file)),
        logged LogResult (logged LogFrame w))) /\
  (forall data_decoded replacement w1 data_encoded w2,
     accept_correction data_decoded replacement w1 = (Ok data_encoded, w2) ->
     accepted_corrections w2 !! data_decoded = Some replacement /\
     validate_data_encode replacement = true) /\
  (forall preserved_tags automatic_correction c input_file r w',
     read_frame preserved_tags automatic_correction c input_file w = (r, w') ->
     corrections_valid (accepted_corrections w') /\
     forall data_decoded correction,
       accepted_corrections w !! data_decoded = Some correction ->
       accepted_corrections w' !! data_decoded = Some correction) /\
  (forall input_file preserved_tags automatic_correction r w',
     read_id3 input_file preserved_tags automatic_correction w = Some (r, w') ->
     corrections_valid (accepted_corrections w') /\
     forall data_decoded correction,
       accepted_corrections w !! data_decoded = Some correction ->
       accepted_corrections w' !! data_decoded = Some correction) /\
  (forall preserved_tags automatic_correction c input_file data_decoded c1 rest w',
     valid_tag_name (frame_tag_name input_file) = true ->
     frame_tag_name input_file ∈ preserved_tags ->
     is_unicode (frame_data_raw input_file) = true ->
     utf_16 (slice_1_to_last 2 (frame_data_raw input_file)) = Some data_decoded ->
     accepted_corrections w !! data_decoded = None ->
     validate_data_encode data_decoded = false ->
     read_frame preserved_tags automatic_correction c input_file w =
       (Ok (Continue c1 rest), w') ->
     exists correction data_encoded,
       accepted_corrections w' !! data_decoded = Some correction /\
       encode_data correction = Ok data_encoded /\
       c1 = append_frame c
              (Frame (frame_tag_name input_file) (frame_data_flags input_file)
                 data_encoded true) /\
       forall preserved_tags2 automatic_correction2 c2 input_file2 w2,
         corrections_valid (accepted_corrections w2) ->
         accepted_corrections w2 !! data_decoded = Some correction ->
         valid_tag_name (frame_tag_name input_file2) = true ->
         frame_tag_name input_file2 ∈ preserved_tags2 ->
         is_unicode (frame_data_raw input_file2) = true ->
         utf_16 (slice_1_to_last 2 (frame_data_raw input_file2)) = Some data_decoded ->
         read_frame preserved_tags2 automatic_correction2 c2 input_file2 w2 =
         (Ok (Continue
                (append_frame c2
                   (Frame (frame_tag_name input_file2) (frame_data_flags input_file2)
                      data_encoded true))
                (frame_rest input_file2)),
          logged LogResult (logged LogFrame w2))).
Proof.
  intros Hvalid. split; [|split; [|split; [|split]]].
  - intros preserved_tags automatic_correction c input_file data_decoded correction
      Htag Hpres Hunicode Hdecoded Hcached.
    destruct (transcode_cached automatic_correction data_decoded correction
                (logged LogFrame w) Hvalid Hcached) as (data_encoded & Henc & Hrun).
    exists data_encoded. split; [done|].
    rewrite read_frame_valid by done.
    rewrite bool_decide_eq_false_2 by (by intros Hnot).
    by rewrite Hunicode, Hdecoded, Hrun.
  - intros data_decoded replacement w1 data_encoded w2 Haccept.
    apply accept_correction_spec in Haccept
      as (_ & [(e & He & _) | (bs & _ & Henc & ->)]); [discriminate|].
    split; [apply lookup_insert_eq|]. apply validate_data_encode_true. eauto.
  - intros preserved_tags automatic_correction c input_file r w' Hround.
    apply read_frame_spec in Hround as (Hgrows & _).
    destruct (Hgrows Hvalid) as [Hsub Hvalid']. split; [done|].
    intros data_decoded correction Hcached. by eapply lookup_weaken.
  - intros input_file preserved_tags automatic_correction r w' Hread.
    assert (cache_grows w w') as Hgrows.
    { revert Hread. unfold read_id3. cbn [print_log_lines].
      destruct (synchsafe_decode _) as [id3_size|];
        [|intros [= <- <-]; exact (cache_grows_refl w)].
      case_bool_decide; [intros [= <- <-]; exact (cache_grows_refl w)|].
      intros Hloop. by apply read_frames_spec in Hloop as (Hgrows & _). }
    destruct (Hgrows Hvalid) as [Hsub Hvalid']. split; [done|].
    intros data_decoded correction Hcached.
    by eapply lookup_weaken.
  - intros preserved_tags automatic_correction c input_file data_decoded c1 rest w'
      Htag Hpres Hunicode Hdecoded Hnone Hinvalid.
    rewrite read_frame_valid by done.
    rewrite bool_decide_eq_false_2 by (by intros Hnot).
    rewrite Hunicode, Hdecoded.
    destruct (transcode automatic_correction data_decoded (logged LogFrame w))
      as [[data_encoded|e] w1] eqn:Hrun; [|discriminate].
    intros [= <- _ <-]. unfold transcode in Hrun.
    cbn [logged accepted_corrections stdin stdout] in Hrun. rewrite Hnone in Hrun.
    apply correction_loop_result in Hrun. cbv beta iota in Hrun.
    rewrite Hinvalid in Hrun. destruct Hrun as (correction & Henc & Hstored).
    exists correction, data_encoded.
    split; [cbn [logged accepted_corrections]; rewrite Hstored; apply lookup_insert_eq|].
    split; [done|]. split; [done|].
    intros preserved_tags2 automatic_correction2 c2 input_file2 w2 Hvalid2 Hcached
      Htag2 Hpres2 Hunicode2 Hdecoded2.
    destruct (transcode_cached automatic_correction2 data_decoded correction
                (logged LogFrame w2) Hvalid2 Hcached) as (data_encoded' & Henc' & Hrun').
    rewrite Henc in Henc'. injection Henc' as <-.
    rewrite read_frame_valid by done.
    rewrite bool_decide_eq_false_2 by (by intros Hnot).
    by rewrite Hunicode2, Hdecoded2, Hrun'.
Qed.


(** ** Failures of the encoder *)

Lemma fatal_encoding_error_name code :
  fatal_encoding_error code = ([], NameError "data_raw").
Proof. reflexivity. Qed.

Lemma encode_shift_jis_encodable data :
  (exists bs, encode_shift_jis data = Ok bs) <->
  Forall (fun char => exists bs, shift_jis char = Encoded bs) data.
Proof.
  induction data as [|char rest IH]; cbn [encode_shift_jis].
  - split; [constructor | eauto].
  - split.
    + intros (bs & Hbs).
      destruct (shift_jis char) as [bs1| |code] eqn:Hchar; [|discriminate Hbs..].
      destruct (encode_shift_jis rest) as [bs2|e]; [|discriminate Hbs].
      constructor; [eauto | apply IH; eauto].
    + intros Hall. inversion_clear Hall as [|? ? Hchar Hrest].
      destruct Hchar as (bs1 & ->). apply IH in Hrest as (bs2 & ->). eauto.
Qed.

Lemma validate_data_encode_encodable data :
  validate_data_encode data = true <->
  Forall (fun char => exists bs, shift_jis char = Encoded bs) data.
Proof.
  rewrite validate_data_encode_true, <- encode_shift_jis_encodable.
  unfold encode_data. destruct (encode_shift_jis data) as [bs|e].
  - split; eauto.
  - split; intros (bs & Hbs); discriminate.
Qed.

(** In front of a character on which the encoder fails otherwise than with
    UnicodeEncodeError, the search for error positions raises NameError and
    prints nothing. *)
Lemma identify_from_failed prefix :
  forall char_index error_positions char rest code,
  Forall (fun c => forall k, shift_jis c <> Failed k) prefix ->
  shift_jis char = Failed code ->
  identify_from char_index (prefix ++ char :: rest) error_positions =
  ([], Raise (NameError "data_raw")).
Proof.
  induction prefix as [|c prefix IH]; intros i errs char rest code Hprefix Hchar.
  - cbn [app identify_from]. by rewrite Hchar, fatal_encoding_error_name.
  - inversion_clear Hprefix as [|? ? Hc Hprefix'].
    cbn [app identify_from]. destruct (shift_jis c) as [bs| |k] eqn:Hsj.
    + by eapply IH.
    + by eapply IH.
    + by destruct (Hc k).
Qed.

(** C9. What the code does on an unexpected encode failure: when the encoder
    fails on a character otherwise than with UnicodeEncodeError, the search
    for error positions, and with it the correction loop, raises NameError for
    [data_raw]; no diagnostic line is printed and the encoder's exception is
    not raised again. *)
Theorem unexpected_encode_failure data_decoded automatic_correction lines
    prefix char rest code corrections out :
  Forall (fun c => forall k, shift_jis c <> Failed k) prefix ->
  shift_jis char = Failed code ->
  identify_encode_error_positions (prefix ++ char :: rest) =
    ([], Raise (NameError "data_raw")) /\
  correction_loop data_decoded automatic_correction lines (prefix ++ char :: rest)
    corrections out =
    (Raise (NameError "data_raw"), World corrections lines out).
Proof.
  intros Hprefix Hchar.
  assert (identify_encode_error_positions (prefix ++ char :: rest) =
            ([], Raise (NameError "data_raw"))) as Hidentify
    by (by eapply identify_from_failed).
  split; [done|]. rewrite correction_loop_unfold.
  assert (validate_data_encode (prefix ++ char :: rest) = false) as ->.
  { apply not_true_is_false. rewrite validate_data_encode_encodable.
    rewrite Forall_app, Forall_cons. intros (_ & (bs & Hbs) & _). congruence. }
  by rewrite Hidentify, app_nil_r.
Qed.

(** ** The suggested replacement *)

Lemma identify_from_ok data :
  forall char_index error_positions,
  Forall (fun c => forall k, shift_jis c <> Failed k) data ->
  exists positions,
    identify_from char_index data error_positions = ([], Ok positions) /\
    (forall p, p ∈ error_positions -> p ∈ positions) /\
    (forall j char, data !! j = Some char -> (char_index + j)%nat ∉ positions ->
       exists bs, shift_jis char = Encoded bs).
Proof.
  induction data as [|c data IH]; intros i errs Hdata.
  - exists errs. split; [done|]. split; [done|]. intros j char Hj. discriminate Hj.
  - inversion_clear Hdata as [|? ? Hc Hdata'].
    cbn [identify_from]. destruct (shift_jis c) as [bs| |k] eqn:Hsj.
    + destruct (IH (S i) errs Hdata') as (ps & Hps & Hsub & Hrest).
      exists ps. split; [done|]. split; [done|].
      intros [|j] char Hj Hnot; cbn in Hj.
      * simplify_eq. eauto.
      * apply (Hrest j char Hj). intros Hin. apply Hnot.
        by replace (i + S j)%nat with (S i + j)%nat by lia.
    + destruct (IH (S i) (errs ++ [i]) Hdata') as (ps & Hps & Hsub & Hrest).
      exists ps. split; [done|].
      split; [intros p Hp; apply Hsub, elem_of_app; by left|].
      intros [|j] char Hj Hnot; cbn in Hj.
      * exfalso. apply Hnot. rewrite Nat.add_0_r. apply Hsub, elem_of_app.
        right. by apply list_elem_of_singleton.
      * apply (Hrest j char Hj). intros Hin. apply Hnot.
        by replace (i + S j)%nat with (S i + j)%nat by lia.
    + by destruct (Hc k).
Qed.

Section AsciiFallback.

(** The contracts of the two libraries that the suggestion relies on: ASCII
    characters have a Shift-JIS encoding, and a transliteration is ASCII. *)
Hypothesis shift_jis_ascii : forall c, c < 128 -> exists bs, shift_jis c = Encoded bs.
Hypothesis unidecode_ascii : forall c, Forall (fun d => d < 128) (unidecode c).

Lemma suggest_data_changes_encodable data positions :
  (forall j char, data !! j = Some char -> j ∉ positions ->
     exists bs, shift_jis char = Encoded bs) ->
  Forall (fun char => exists bs, shift_jis char = Encoded bs)
    (suggest_data_changes data positions).
Proof.
  intros Hkept. unfold suggest_data_changes.
  apply Forall_concat, Forall_forall. intros piece Hpiece.
  apply elem_of_lookup_imap in Hpiece as (j & char & -> & Hj).
  case_bool_decide as Hpos.
  - repeat constructor. by eapply Hkept.
  - case_bool_decide.
    + eapply Forall_impl; [apply unidecode_ascii|]. intros d. apply shift_jis_ascii.
    + repeat constructor. by apply shift_jis_ascii.
Qed.

(** C10. The suggested replacement encodes, and the automatic policy ends the
    loop in its first round: a working text that encodes is encoded as it is;
    for one that does not, the suggestion is computed, it encodes, and it is
    accepted at once, stored in the cache under the decoded text, with no line
    read from the input and no question asked. *)
Theorem automatic_correction_one_round data_decoded alt_data_decoded lines
    corrections out :
  Forall (fun c => forall k, shift_jis c <> Failed k) alt_data_decoded ->
  exists positions data_encoded,
    identify_encode_error_positions alt_data_decoded = ([], Ok positions) /\
    encode_data (suggest_data_changes alt_data_decoded positions) = Ok data_encoded /\
    (validate_data_encode alt_data_decoded = false ->
     correction_loop data_decoded true lines alt_data_decoded corrections out =
     (Ok data_encoded,
      World
        (<[data_decoded := suggest_data_changes alt_data_decoded positions]> corrections)
        lines (out ++ [Printed LogEncodingError]))) /\
    (validate_data_encode alt_data_decoded = true ->
     correction_loop data_decoded true lines alt_data_decoded corrections out =
     (encode_data alt_data_decoded, World corrections lines out)).
Proof.
  intros Hdata.
  destruct (identify_from_ok alt_data_decoded 0 [] Hdata) as (positions & Hid & _ & Hkept).
  pose proof (suggest_data_changes_encodable alt_data_decoded positions Hkept) as Hsug.
  apply validate_data_encode_encodable, validate_data_encode_true in Hsug
    as [data_encoded Henc].
  exists positions, data_encoded. split; [done|]. split; [done|]. split.
  - intros Hinvalid. rewrite correction_loop_unfold, Hinvalid.
    unfold identify_encode_error_positions in *. rewrite Hid. cbv zeta.
    unfold accept_correction. rewrite Henc. cbn [accepted_corrections stdin stdout].
    by rewrite app_nil_r.
  - intros Hvalid. by rewrite correction_loop_unfold, Hvalid.
Qed.

End AsciiFallback.

(** ** The figures of the log *)

Lemma below_16 (P : N -> Prop) :
  P 0 -> P 1 -> P 2 -> P 3 -> P 4 -> P 5 -> P 6 -> P 7 -> P 8 -> P 9 ->
  P 10 -> P 11 -> P 12 -> P 13 -> P 14 -> P 15 ->
  forall d, d < 16 -> P d.
Proof.
  intros. destruct d as [|p]; [done|].
  do 4 (try destruct p as [p|p|]); try done; lia.
Qed.

Lemma hex_digit_upper d :
  d < 16 ->
  hex_value (upper_char (hex_digit d)) = Some d /\
  upper_hex_digit (upper_char (hex_digit d)) = true.
Proof. revert d. apply below_16; by vm_compute. Qed.

Lemma int_hex_digits_app acc s t :
  int_hex_digits acc (s ++ t) =
  match int_hex_digits acc s with Some a => int_hex_digits a t | None => None end.
Proof.
  revert acc. induction s as [|c s IH]; intros acc; simpl; [done|].
  destruct (hex_value c); [apply IH | done].
Qed.

(** With enough fuel, the digits of [n] are at least one, they are digits of
    [0-9A-F] once upper-cased, they read back as [n], and the first of several
    is not a zero. *)
Lemma hex_digits_S fuel n :
  hex_digits (S fuel) n =
  (if n <? 16 then [] else hex_digits fuel (n / 16)) ++ [hex_digit (n mod 16)].
Proof. reflexivity. Qed.

Lemma hex_digits_spec fuel :
  forall n, n < 16 ^ N.of_nat (S fuel) ->
  let digits := upper (hex_digits (S fuel) n) in
  (0 < length digits)%nat /\
  Forall (fun c => upper_hex_digit c = true) digits /\
  (forall acc, int_hex_digits acc digits
               = Some (acc * 16 ^ N.of_nat (length digits) + n)) /\
  16 ^ N.of_nat (length digits - 1) <= N.max n 1.
Proof.
  induction fuel as [|fuel IH]; intros n Hn; cbv zeta;
    rewrite Nat2N.inj_succ, N.pow_succ_r' in Hn;
    rewrite hex_digits_S; unfold upper; rewrite map_app; cbn [map];
    (assert (n mod 16 < 16) as Hlow by (apply N.mod_upper_bound; lia));
    destruct (hex_digit_upper _ Hlow) as [Hval Hup];
    destruct (N.ltb_spec n 16) as [Hsmall|Hbig].
  1, 3: cbn [upper map app length]; rewrite N.mod_small in * by done;
    (split; [lia|]); (split; [by repeat constructor|]); split;
    [ intros acc; cbn [int_hex_digits]; rewrite Hval; apply f_equal;
      change (16 ^ N.of_nat 1) with 16; lia
    | simpl; lia ].
  - simpl in Hn. lia.
  - assert (n / 16 < 16 ^ N.of_nat (S fuel)) as Hdiv
      by (apply N.Div0.div_lt_upper_bound; lia).
    destruct (IH _ Hdiv) as (Hlen & Hall & Hread & Hmin).
    fold (upper (hex_digits (S fuel) (n / 16))).
    set (digits := upper (hex_digits (S fuel) (n / 16))) in *.
    rewrite length_app. cbn [length].
    split; [lia|]. split; [apply Forall_app_2; by repeat constructor|]. split.
    + intros acc. rewrite int_hex_digits_app, Hread. cbn [int_hex_digits].
      rewrite Hval. apply f_equal.
      replace (length digits + 1)%nat with (S (length digits)) by lia.
      rewrite Nat2N.inj_succ, N.pow_succ_r'.
      pose proof (N.div_mod n 16). lia.
    + replace (length digits + 1 - 1)%nat with (S (length digits - 1)) by lia.
      rewrite Nat2N.inj_succ, N.pow_succ_r'.
      assert (1 <= n / 16) by (apply N.div_le_lower_bound; lia).
      rewrite N.max_l in Hmin by lia. rewrite N.max_l by lia.
      pose proof (N.Div0.mul_div_le n 16). lia.
Qed.

Lemma hex_fuel n : n < 16 ^ N.of_nat (S (N.to_nat (N.log2 n))).
Proof.
  rewrite Nat2N.inj_succ, N2Nat.id.
  destruct n as [|p]; [done|].
  assert (N.pos p < 2 ^ N.succ (N.log2 (N.pos p))) as H2
    by (apply N.log2_spec; lia).
  eapply N.lt_le_trans; [exact H2|].
  apply N.pow_le_mono_l. lia.
Qed.

Lemma hex_str_digits n :
  drop 2 (hex n) = hex_digits (S (N.to_nat (N.log2 n))) n.
Proof. reflexivity. Qed.

(** X1. [padded_hex] writes a number as [0x] followed by an even number of
    digits, two at least, all of them in [0-9A-F], and the digits read back as
    the number: [int(padded_hex(n)[2:], 16) == n]. *)
Theorem padded_hex_round_trip (n : N) :
  exists digits,
    padded_hex n = "0"%char :: "x"%char :: digits /\
    (0 < length digits)%nat /\
    (length digits mod 2 = 0)%nat /\
    Forall (fun c => upper_hex_digit c = true) digits /\
    int_base16 digits = Some n.
Proof.
  destruct (hex_digits_spec _ n (hex_fuel n)) as (Hlen & Hall & Hread & _).
  unfold padded_hex. rewrite hex_str_digits. cbn [app].
  set (hex_str := upper (hex_digits _ n)) in *.
  eexists. split; [reflexivity|].
  assert (length hex_str mod 2 = 0 \/ length hex_str mod 2 = 1)%nat as [Hpar|Hpar]
    by (pose proof (Nat.mod_upper_bound (length hex_str) 2); lia);
    rewrite Hpar; cbn [replicate app length].
  - split; [done|]. split; [done|]. split; [done|].
    unfold int_base16. destruct hex_str; [simpl in Hlen; lia|].
    rewrite Hread. apply f_equal. lia.
  - split; [lia|]. split.
    { replace (S (length hex_str)) with (length hex_str + 1 * 2 - 1)%nat by lia.
      pose proof (Nat.div_mod_eq (length hex_str) 2).
      replace (length hex_str + 1 * 2 - 1)%nat
        with (2 * (length hex_str / 2 + 1))%nat by lia.
      by rewrite Nat.mul_comm, Nat.Div0.mod_mul. }
    split; [by constructor|].
    unfold int_base16. cbn [int_hex_digits]. change (hex_value "0") with (Some 0).
    cbv iota. rewrite Hread. apply f_equal. lia.
Qed.

(** X2. [padded_hex] pads with one zero at most: the figure has two digits,
    or else the number is at least [16 ^ (digits - 2)], so that no shorter
    figure with an even number of digits could hold it. *)
Theorem padded_hex_shortest (n : N) :
  (length (padded_hex n) = 4)%nat \/
  16 ^ N.of_nat (length (padded_hex n) - 4) <= n.
Proof.
  destruct (hex_digits_spec _ n (hex_fuel n)) as (Hlen & _ & _ & Hmin).
  unfold padded_hex. rewrite hex_str_digits. cbn [app].
  set (hex_str := upper (hex_digits _ n)) in *.
  cbn [length]. rewrite length_app, length_replicate.
  pose proof (Nat.div_mod_eq (length hex_str) 2) as Hdm.
  assert (length hex_str mod 2 = 0 \/ length hex_str mod 2 = 1)%nat as [Hpar|Hpar]
    by (pose proof (Nat.mod_upper_bound (length hex_str) 2); lia); rewrite Hpar.
  - destruct (decide (length hex_str = 2%nat)) as [->|Hne]; [by left|right].
    assert (3 <= length hex_str)%nat as H3 by lia.
    eapply N.le_trans; [|eapply N.le_trans; [exact Hmin|]].
    + apply N.pow_le_mono_r; lia.
    + assert (16 ^ N.of_nat 1 <= 16 ^ N.of_nat (length hex_str - 1)) as Hp
        by (apply N.pow_le_mono_r; lia).
      change (16 ^ N.of_nat 1) with 16 in Hp. lia.
  - destruct (decide (length hex_str = 1%nat)) as [->|Hne]; [by left|right].
    assert (3 <= length hex_str)%nat as H3 by lia.
    eapply N.le_trans; [|eapply N.le_trans; [exact Hmin|]].
    + apply N.pow_le_mono_r; lia.
    + assert (16 ^ N.of_nat 1 <= 16 ^ N.of_nat (length hex_str - 1)) as Hp
        by (apply N.pow_le_mono_r; lia).
      change (16 ^ N.of_nat 1) with 16 in Hp. lia.
Qed.

(** ** The size codec, read first and written second *)

Lemma low_seven_bits_value b : Byte.to_N (low_seven_bits b) = Byte.to_N b mod 128.
Proof.
  unfold low_seven_bits. apply to_N_byte_of_N.
  pose proof (N.mod_upper_bound (Byte.to_N b) 128). lia.
Qed.

(** X3. The decoder of [read_id3] reads any four bytes, ignores the high bit
    of each of them and returns a size below [2 ^ 28]; the encoder of
    [write_id3] turns that size back into the four bytes with their high bits
    cleared, which decode to the same size. *)
Theorem synchsafe_decode_encode b1 b2 b3 b4 :
  exists id3_size,
    synchsafe_decode [b1; b2; b3; b4] = Some id3_size /\
    id3_size < 2 ^ 28 /\
    synchsafe_encode id3_size = Ok (map low_seven_bits [b1; b2; b3; b4]) /\
    synchsafe_decode (map low_seven_bits [b1; b2; b3; b4]) = Some id3_size.
Proof.
  assert (forall b, Byte.to_N b mod 128 < 128) as Hlt
    by (intros b; apply N.mod_upper_bound; lia).
  pose proof (Hlt b1) as H1. pose proof (Hlt b2) as H2.
  pose proof (Hlt b3) as H3. pose proof (Hlt b4) as H4.
  eexists. split; [apply synchsafe_decode_4|].
  cbn [map]. unfold low_seven_bits at 1 2 3 4.
  set (a1 := Byte.to_N b1 mod 128) in *. set (a2 := Byte.to_N b2 mod 128) in *.
  set (a3 := Byte.to_N b3 mod 128) in *. set (a4 := Byte.to_N b4 mod 128) in *.
  assert (((a1 * 128 + a2) * 128 + a3) * 128 + a4 < 2 ^ 28) as Hsize
    by (change (2 ^ 28) with 268435456; clearbody a1 a2 a3 a4; lia).
  split; [exact Hsize|]. split.
  - destruct (synchsafe_encode_groups _ Hsize)
      as (v1 & v2 & v3 & v4 & (Hv1 & Hv2 & Hv3 & Hv4) & Hsum & ->).
    assert (v1 = a1 /\ v2 = a2 /\ v3 = a3 /\ v4 = a4) as (-> & -> & -> & ->)
      by (clearbody a1 a2 a3 a4; lia).
    reflexivity.
  - rewrite synchsafe_decode_4, !low_seven_bits_value.
    subst a1 a2 a3 a4. by rewrite !N.Div0.mod_mod.
Qed.

Lemma synchsafe_encode_raise_inv n e :
  synchsafe_encode n = Raise e -> 2 ^ 28 <= n /\ e = OverflowError.
Proof.
  intros Hraise. destruct (N.lt_ge_cases n (2 ^ 28)) as [Hlt|Hge].
  - destruct (synchsafe_encode_groups n Hlt) as (? & ? & ? & ? & _ & _ & Henc).
    congruence.
  - split; [done|]. rewrite synchsafe_encode_overflow in Hraise by done.
    congruence.
Qed.

(** X4. The encoder of [write_id3] fails on the sizes from [2 ^ 28] on and on
    no other, and it fails with OverflowError: a size that does not fit is
    never cut down to four bytes. *)
Theorem synchsafe_encode_raises n e :
  synchsafe_encode n = Raise e <-> 2 ^ 28 <= n /\ e = OverflowError.
Proof.
  split; [apply synchsafe_encode_raise_inv|].
  intros [Hge ->]. by apply synchsafe_encode_overflow.
Qed.

(** ** Error positions and suggestions *)

(** A search that returns has met no failure of the encoder. *)
Lemma identify_from_returns data :
  forall char_index error_positions printed positions,
  identify_from char_index data error_positions = (printed, Ok positions) ->
  printed = [] /\ Forall (fun c => forall k, shift_jis c <> Failed k) data.
Proof.
  induction data as [|c data IH]; intros i errs printed positions; cbn [identify_from].
  - intros [= <- _]. by split.
  - destruct (shift_jis c) as [bs| |k] eqn:Hc.
    + intros H. apply IH in H as [-> Hdata]. split; [done|].
      constructor; [congruence | done].
    + intros H. apply IH in H as [-> Hdata]. split; [done|].
      constructor; [congruence | done].
    + destruct (fatal_encoding_error k). discriminate.
Qed.

(** The positions found behind [char_index] are added to those found before,
    in rising order, one for each character that cannot be encoded. *)
Lemma identify_from_exact data :
  forall char_index error_positions,
  Forall (fun c => forall k, shift_jis c <> Failed k) data ->
  exists found,
    identify_from char_index data error_positions = ([], Ok (error_positions ++ found)) /\
    StronglySorted lt found /\
    Forall (fun p => (char_index <= p)%nat) found /\
    forall p, p ∈ found <->
      exists j char, p = (char_index + j)%nat /\ data !! j = Some char /\
                     shift_jis char = Unencodable.
Proof.
  induction data as [|c data IH]; intros i errs Hdata.
  - exists []. rewrite app_nil_r. split; [done|]. split; [constructor|].
    split; [constructor|]. intros p. split.
    + intros Hp. by apply elem_of_nil in Hp.
    + intros (j & char & _ & Hj & _). discriminate Hj.
  - inversion_clear Hdata as [|? ? Hc Hdata'].
    cbn [identify_from]. destruct (shift_jis c) as [bs| |k] eqn:Hsj.
    + destruct (IH (S i) errs Hdata') as (found & Hrun & Hsorted & Hge & Hin).
      exists found. split; [done|]. split; [done|]. split.
      { eapply Forall_impl; [exact Hge|]. intros p Hp. simpl in Hp. lia. }
      intros p. rewrite Hin. split.
      * intros (j & char & -> & Hj & Hchar). exists (S j), char.
        split; [lia|]. done.
      * intros ([|j] & char & -> & Hj & Hchar); cbn in Hj.
        -- congruence.
        -- exists j, char. split; [lia|]. done.
    + destruct (IH (S i) (errs ++ [i]) Hdata') as (found & Hrun & Hsorted & Hge & Hin).
      exists (i :: found). split; [by rewrite Hrun, <- app_assoc|].
      split.
      { constructor; [done|]. eapply Forall_impl; [exact Hge|].
        intros p Hp. simpl in Hp. lia. }
      split.
      { constructor; [lia|]. eapply Forall_impl; [exact Hge|].
        intros p Hp. simpl in Hp. lia. }
      intros p. rewrite elem_of_cons, Hin. split.
      * intros [-> | (j & char & -> & Hj & Hchar)].
        -- exists 0%nat, c. split; [lia|]. done.
        -- exists (S j), char. split; [lia|]. done.
      * intros ([|j] & char & -> & Hj & Hchar); cbn in Hj.
        -- left. lia.
        -- right. exists j, char. split; [lia|]. done.
    + by destruct (Hc k).
Qed.

(** X5. When the encoder raises nothing but UnicodeEncodeError on the
    characters of a text, [identify_encode_error_positions] prints nothing and
    returns, in rising order and each once, exactly the positions of the
    characters that cannot be encoded. *)
Theorem error_positions_exact data :
  Forall (fun c => forall k, shift_jis c <> Failed k) data ->
  exists positions,
    identify_encode_error_positions data = ([], Ok positions) /\
    StronglySorted lt positions /\
    forall i, i ∈ positions <->
      exists char, data !! i = Some char /\ shift_jis char = Unencodable.
Proof.
  intros Hdata.
  destruct (identify_from_exact data 0 [] Hdata) as (found & Hrun & Hsorted & _ & Hin).
  exists found. split; [exact Hrun|]. split; [done|].
  intros i. rewrite Hin. split.
  - intros (j & char & -> & Hj & Hchar). eauto.
  - intros (char & Hi & Hchar). exists i, char. done.
Qed.

(** X6. A text passes [validate_data_encode] exactly when
    [identify_encode_error_positions] finds no error position in it: the
    correction loop computes a suggestion only for a text that has a position
    to report, or on which the search fails. *)
Theorem validate_iff_no_error_position data :
  validate_data_encode data = true <->
  identify_encode_error_positions data = ([], Ok []).
Proof.
  rewrite validate_data_encode_encodable. split.
  - intros Hall.
    assert (Forall (fun c => forall k, shift_jis c <> Failed k) data) as Hdata.
    { eapply Forall_impl; [exact Hall|]. intros c (bs & Hbs) k. congruence. }
    destruct (identify_from_exact data 0 [] Hdata) as (found & Hrun & _ & _ & Hin).
    unfold identify_encode_error_positions. rewrite Hrun.
    destruct found as [|p found]; [done|]. exfalso.
    destruct (proj1 (Hin p)) as (j & char & _ & Hj & Hchar); [by left|].
    rewrite Forall_forall in Hall.
    destruct (Hall char) as (bs & Hbs); [by eapply list_elem_of_lookup_2|].
    congruence.
  - intros Hrun. assert (Hret := Hrun).
    apply identify_from_returns in Hret as [_ Hdata].
    destruct (identify_from_exact data 0 [] Hdata) as (found & Hrun' & _ & _ & Hin).
    unfold identify_encode_error_positions in Hrun. rewrite Hrun in Hrun'.
    injection Hrun' as Hfound. cbn [app] in Hfound. subst found.
    apply Forall_lookup. intros j char Hj.
    destruct (shift_jis char) as [bs| |k] eqn:Hchar; [eauto| |].
    + exfalso. eapply elem_of_nil. apply (Hin (0 + j)%nat). eauto.
    + exfalso. rewrite Forall_forall in Hdata.
      apply (Hdata char (list_elem_of_lookup_2 _ _ _ Hj) k Hchar).
Qed.

(** X7. The suggestion computed from the positions that
    [identify_encode_error_positions] returns rewrites the text character by
    character: a character that encodes is kept, one that does not is replaced
    by its transliteration, or by an underscore when the transliteration is
    the character itself. A text without error position is suggested as it
    is. *)
Theorem suggestion_by_character data positions :
  identify_encode_error_positions data = ([], Ok positions) ->
  suggest_data_changes data positions =
    concat (map (fun char => if unencodable char then replacement char else [char]) data) /\
  (positions = [] -> suggest_data_changes data positions = data).
Proof.
  intros Hrun. assert (Hret := Hrun).
  apply identify_from_returns in Hret as [_ Hdata].
  destruct (identify_from_exact data 0 [] Hdata) as (found & Hrun' & _ & _ & Hin).
  unfold identify_encode_error_positions in Hrun. rewrite Hrun in Hrun'.
  injection Hrun' as Hfound. cbn [app] in Hfound. subst found.
  assert (suggest_data_changes data positions =
          concat (map (fun char => if unencodable char then replacement char else [char])
                    data)) as Hsuggest.
  { unfold suggest_data_changes. f_equal.
    rewrite <- (imap_const (fun char => if unencodable char then replacement char else [char])).
    apply imap_ext. intros j char Hj. unfold const.
    unfold unencodable, replacement. case_bool_decide as Hpos.
    - destruct (shift_jis char) eqn:Hchar; try done.
      exfalso. apply Hpos, Hin. exists j, char. done.
    - apply Hin in Hpos as (j' & char' & Hjj & Hj' & Hchar').
      cbn in Hjj. subst j'. simplify_eq. by rewrite Hchar'. }
  split; [exact Hsuggest|].
  intros ->. rewrite Hsuggest. clear Hsuggest.
  assert (forall char, char ∈ data -> unencodable char = false) as Hnone.
  { intros char Hchar. apply list_elem_of_lookup_1 in Hchar as [j Hj].
    unfold unencodable. destruct (shift_jis char) eqn:Hsj; try done.
    exfalso. eapply elem_of_nil. apply (Hin (0 + j)%nat). eauto. }
  clear Hin Hrun Hdata. induction data as [|c data IH]; [done|].
  cbn [map concat]. rewrite Hnone by (by left). cbn [app]. f_equal.
  apply IH. intros char Hchar. apply Hnone. by right.
Qed.

(** ** Answers to the question of the correction loop *)

Lemma lstrip_nil s : lstrip s = [] <-> Forall (fun c => isspace c = true) s.
Proof.
  induction s as [|c s IH]; cbn [lstrip].
  - split; [constructor | done].
  - destruct (isspace c) eqn:Hc.
    + rewrite IH. split; [by constructor | by inversion 1].
    + split; [done|]. inversion 1. congruence.
Qed.

Lemma lstrip_head s c t : lstrip s = c :: t -> isspace c = false.
Proof.
  induction s as [|d s IH]; cbn [lstrip]; [done|].
  destruct (isspace d) eqn:Hd; [done|]. by intros [= <- _].
Qed.

(** [strip] leaves nothing of a line exactly when the line is blank. *)
Lemma strip_nil s : strip s = [] <-> Forall (fun c => isspace c = true) s.
Proof.
  unfold strip. rewrite <- lstrip_nil. split.
  - intros Hs. apply (f_equal (@rev N)) in Hs. rewrite rev_involutive in Hs.
    cbn [rev] in Hs. apply lstrip_nil in Hs.
    destruct (lstrip s) as [|c t] eqn:Hl; [done|].
    apply lstrip_head in Hl.
    rewrite Forall_forall in Hs. rewrite Hs in Hl; [done|].
    apply list_elem_of_In, (proj1 (in_rev _ _)). by left.
  - by intros ->.
Qed.

(** X8. What the correction loop does to the cache. When it raises, the
    cache is as it was. When it returns a payload, either the working text
    encoded as it was, the payload is its encoding and nothing was read,
    printed or stored; or it did not, and the cache has got one entry, under
    the decoded text of the frame, for a correction whose encoding is the
    payload. *)
Theorem correction_loop_outcome data_decoded automatic_correction lines :
  forall alt_data_decoded corrections out r w',
  correction_loop data_decoded automatic_correction lines alt_data_decoded
    corrections out = (r, w') ->
  match r with
  | Raise _ => accepted_corrections w' = corrections
  | Ok data_encoded =>
      if validate_data_encode alt_data_decoded then
        encode_data alt_data_decoded = Ok data_encoded /\
        w' = World corrections lines out
      else
        exists correction,
          encode_data correction = Ok data_encoded /\
          accepted_corrections w' = <[data_decoded := correction]> corrections
  end.
Proof. apply correction_loop_result. Qed.

(** X9. One answer to the question, under the interactive policy, for a
    working text that does not encode. A blank line accepts the suggestion:
    it is encoded, and stored under the decoded text of the frame. A line that
    is not blank and whose text, stripped of the blanks around it, encodes is
    taken as the correction: the stripped text is encoded and stored. *)
Theorem answer_to_the_question data_decoded line lines alt_data_decoded
    corrections out positions :
  validate_data_encode alt_data_decoded = false ->
  identify_encode_error_positions alt_data_decoded = ([], Ok positions) ->
  (Forall (fun c => isspace c = true) line ->
   correction_loop data_decoded false (line :: lines) alt_data_decoded corrections out =
   accept_correction data_decoded (suggest_data_changes alt_data_decoded positions)
     (World corrections lines (out ++ [Printed LogEncodingError; Prompted]))) /\
  (forall data_encoded,
   Exists (fun c => isspace c = false) line ->
   encode_data (strip line) = Ok data_encoded ->
   correction_loop data_decoded false (line :: lines) alt_data_decoded corrections out =
   (Ok data_encoded,
    World (<[data_decoded := strip line]> corrections) lines
      (out ++ [Printed LogEncodingError; Prompted]))).
Proof.
  intros Hinvalid Hrun.
  assert (((out ++ []) ++ [Printed LogEncodingError]) ++ [Prompted] =
          out ++ [Printed LogEncodingError; Prompted]) as Hout
    by (by rewrite app_nil_r, <- app_assoc).
  split.
  - intros Hblank. apply strip_nil in Hblank.
    rewrite correction_loop_unfold, Hinvalid, Hrun. cbv zeta.
    by rewrite Hblank, bool_decide_eq_true_2, Hout.
  - intros data_encoded Hline Henc.
    assert (strip line <> []) as Hstrip.
    { rewrite strip_nil. intros Hblank. apply Exists_exists in Hline as (c & Hc & Hsp).
      rewrite Forall_forall in Hblank. rewrite (Hblank c Hc) in Hsp. done. }
    rewrite correction_loop_unfold, Hinvalid, Hrun. cbv zeta.
    rewrite bool_decide_eq_false_2 by done.
    assert (validate_data_encode (strip line) = true) as ->
      by (apply validate_data_encode_true; eauto).
    unfold accept_correction. rewrite Henc, Hout. reflexivity.
Qed.

(** X10. Under the interactive policy, when the working text does not encode
    and every line of input is an answer that is not blank and does not encode
    either, the loop asks once for each line and once more, raises EOFError at
    the end of the input, and leaves the cache as it was. *)
Theorem rejected_answers_end_of_input data_decoded lines :
  forall alt_data_decoded corrections out,
  validate_data_encode alt_data_decoded = false ->
  Forall (fun c => forall k, shift_jis c <> Failed k) alt_data_decoded ->
  Forall (fun line =>
            strip line <> [] /\ validate_data_encode (strip line) = false /\
            Forall (fun c => forall k, shift_jis c <> Failed k) (strip line)) lines ->
  correction_loop data_decoded false lines alt_data_decoded corrections out =
  (Raise EOFError,
   World corrections []
     (out ++ concat (replicate (S (length lines)) [Printed LogEncodingError; Prompted]))).
Proof.
  induction lines as [|line lines IH]; intros alt corrections out Hinvalid Halt Hlines;
    rewrite correction_loop_unfold, Hinvalid;
    destruct (identify_from_exact alt 0 [] Halt) as (found & Hrun & _);
    unfold identify_encode_error_positions; rewrite Hrun; cbv zeta.
  - cbn [length replicate concat]. by rewrite !app_nil_r, <- app_assoc.
  - inversion_clear Hlines as [|? ? (Hstrip & Hmanual & Hchars) Hlines'].
    rewrite bool_decide_eq_false_2 by done. rewrite Hmanual.
    rewrite IH by done. f_equal. f_equal.
    cbn [length]. rewrite app_nil_r.
    change (replicate (S (S (length lines))) [Printed LogEncodingError; Prompted])
      with ([Printed LogEncodingError; Prompted]
              :: replicate (S (length lines)) [Printed LogEncodingError; Prompted]).
    cbn [concat]. by rewrite <- !app_assoc.
Qed.

Section BlankAnswer.

(** The contracts of the two libraries, as for the automatic policy. *)
Hypothesis ascii_encodes : forall c, c < 128 -> exists bs, shift_jis c = Encoded bs.
Hypothesis transliteration_ascii : forall c, Forall (fun d => d < 128) (unidecode c).

(** X11. Under the interactive policy a blank answer always ends the loop:
    when ASCII characters have a Shift-JIS encoding and a transliteration is
    ASCII, the suggestion for a working text that does not encode does
    encode, and a blank line makes the loop return its encoding and store the
    suggestion under the decoded text of the frame, with one line read. *)
Theorem blank_answer_ends_loop data_decoded line lines alt_data_decoded
    corrections out :
  Forall (fun c => forall k, shift_jis c <> Failed k) alt_data_decoded ->
  validate_data_encode alt_data_decoded = false ->
  Forall (fun c => isspace c = true) line ->
  exists positions data_encoded,
    identify_encode_error_positions alt_data_decoded = ([], Ok positions) /\
    encode_data (suggest_data_changes alt_data_decoded positions) = Ok data_encoded /\
    correction_loop data_decoded false (line :: lines) alt_data_decoded corrections out =
    (Ok data_encoded,
     World (<[data_decoded := suggest_data_changes alt_data_decoded positions]> corrections)
       lines (out ++ [Printed LogEncodingError; Prompted])).
Proof.
  intros Hdata Hinvalid Hblank.
  destruct (identify_from_ok alt_data_decoded 0 [] Hdata) as (positions & Hid & _ & Hkept).
  pose proof (suggest_data_changes_encodable ascii_encodes transliteration_ascii
                alt_data_decoded positions Hkept) as Hsug.
  apply validate_data_encode_encodable, validate_data_encode_true in Hsug
    as [data_encoded Henc].
  exists positions, data_encoded. split; [done|]. split; [done|].
  apply strip_nil in Hblank.
  rewrite correction_loop_unfold, Hinvalid.
  unfold identify_encode_error_positions. rewrite Hid. cbv zeta.
  rewrite Hblank, bool_decide_eq_true_2 by done.
  unfold accept_correction. rewrite Henc. cbn [accepted_corrections stdin stdout].
  by rewrite app_nil_r, <- app_assoc.
Qed.

End BlankAnswer.

(** ** More on the parser *)

(** X12. A Unicode frame whose text does not decode ends the file with
    UnicodeDecodeError, after the diagnostic lines, when its tag name is
    preserved; when it is not, the frame is skipped and its text is never
    decoded. *)
Theorem undecodable_frame preserved_tags automatic_correction c input_file w fuel :
  valid_tag_name (frame_tag_name input_file) = true ->
  is_unicode (frame_data_raw input_file) = true ->
  utf_16 (slice_1_to_last 2 (frame_data_raw input_file)) = None ->
  read_frames (S fuel) preserved_tags automatic_correction c input_file w =
  if bool_decide (frame_tag_name input_file ∈ preserved_tags)
  then Some (Raise UnicodeDecodeError, logged LogFatalDecodingError w)
  else read_frames fuel preserved_tags automatic_correction c
         (frame_rest input_file) (logged LogSkippedTag w).
Proof.
  intros Hvalid Hunicode Hdecode. cbn [read_frames].
  rewrite read_frame_valid by done. rewrite Hunicode, Hdecode.
  case_bool_decide as Hpres.
  - by rewrite bool_decide_eq_false_2 by (by intros Hnot).
  - by rewrite bool_decide_eq_true_2.
Qed.

Lemma frame_records_fuel fuel :
  forall fuel' input_file,
  (length input_file < fuel)%nat -> (length input_file < fuel')%nat ->
  frame_records fuel input_file = frame_records fuel' input_file.
Proof.
  induction fuel as [|fuel IH]; intros fuel' input_file Hfuel Hfuel'; [lia|].
  destruct fuel' as [|fuel']; [lia|]. cbn [frame_records].
  destruct (valid_tag_name (frame_tag_name input_file)) eqn:Hvalid; [|done].
  apply frame_rest_length in Hvalid. f_equal. apply IH; lia.
Qed.

(** X13. A container that [read_id3] returns holds one frame for each record
    of the file, in front of the first malformed tag name, whose tag name is
    preserved, and it holds them in the order of the file: each frame has the
    tag name and the flag bytes of its record, it is marked as converted
    exactly when the payload of the record starts with the byte 1, and it
    carries the payload of the record as it is when it does not. *)
Theorem frames_in_file_order input_file preserved_tags automatic_correction w c w' :
  read_id3 input_file preserved_tags automatic_correction w = Some (Ok c, w') ->
  Forall2 frame_of_record (frames c)
    (filter (fun record => frame_tag_name record ∈ preserved_tags)
       (records_of (drop 10 input_file))).
Proof. apply read_id3_records. Qed.

Lemma asks_nothing_logged {A} line w (x : result A * world) :
  asks_nothing (logged line w) x -> asks_nothing w x.
Proof.
  intros (Hin & (printed & Hout) & Hr). split; [done|]. split; [|done].
  exists (line :: printed). rewrite Hout. cbn [logged stdout map].
  by rewrite <- app_assoc.
Qed.

Lemma asks_nothing_log {A} line w (r : result A) w' :
  asks_nothing w (r, w') -> asks_nothing w (r, logged line w').
Proof.
  intros (Hin & (printed & Hout) & Hr). split; [done|]. split; [|done].
  exists (printed ++ [line]). cbn [snd logged stdout] in *.
  by rewrite Hout, map_app, <- app_assoc.
Qed.

Lemma asks_nothing_refl {A} (r : result A) w :
  r <> Raise EOFError -> asks_nothing w (r, w).
Proof.
  intros Hr. split; [done|]. split; [|done]. exists []. by rewrite app_nil_r.
Qed.

Lemma asks_nothing_trans {A B} w (r1 : result A) w1 (x : result B * world) :
  asks_nothing w (r1, w1) -> asks_nothing w1 x -> asks_nothing w x.
Proof.
  intros (Hin1 & (p1 & Hout1) & _) (Hin2 & (p2 & Hout2) & Hr).
  cbn [fst snd] in *. split; [congruence|]. split; [|done].
  exists (p1 ++ p2). by rewrite Hout2, Hout1, map_app, <- app_assoc.
Qed.

Lemma asks_nothing_raise {A B} w e w' :
  asks_nothing w (@Raise A e, w') -> asks_nothing w (@Raise B e, w').
Proof.
  intros (Hin & Hout & Hr). split; [done|]. split; [done|].
  cbn [fst] in *. intros [= ->]. by apply Hr.
Qed.

Lemma asks_nothing_ok {A B} w (a : A) (b : B) w' :
  asks_nothing w (Ok a, w') -> asks_nothing w (Ok b, w').
Proof. intros (Hin & Hout & _). by split. Qed.

Lemma encode_shift_jis_raises data e :
  encode_shift_jis data = Raise e -> e <> EOFError.
Proof.
  induction data as [|char rest IH]; cbn [encode_shift_jis]; [discriminate|].
  destruct (shift_jis char); [|by intros [= <-]..].
  destruct (encode_shift_jis rest); [discriminate|]. intros [= <-]. by apply IH.
Qed.

Lemma encode_data_raises data : encode_data data <> Raise EOFError.
Proof.
  unfold encode_data. destruct (encode_shift_jis data) as [bs|e] eqn:Henc; [done|].
  apply encode_shift_jis_raises in Henc. congruence.
Qed.

Lemma identify_from_asks_nothing data :
  forall char_index error_positions,
  (identify_from char_index data error_positions).1 = [] /\
  (identify_from char_index data error_positions).2 <> Raise EOFError.
Proof.
  induction data as [|char rest IH]; intros i errs; cbn [identify_from]; [done|].
  destruct (shift_jis char); [apply IH | apply IH |].
  by rewrite fatal_encoding_error_name.
Qed.

(** Under the automatic policy the transcoder asks nothing. *)
Lemma transcode_asks_nothing data_decoded w :
  asks_nothing w (transcode true data_decoded w).
Proof.
  unfold transcode. rewrite correction_loop_unfold.
  destruct (validate_data_encode _).
  { destruct w. apply asks_nothing_refl, encode_data_raises. }
  pose proof (identify_from_asks_nothing
                (match accepted_corrections w !! data_decoded with
                 | Some correction => correction
                 | None => data_decoded
                 end) 0 []) as [Hprinted Hraised].
  unfold identify_encode_error_positions.
  destruct (identify_from 0 _ []) as [printed [positions|e]];
    cbn [fst snd] in Hprinted, Hraised; subst printed.
  - cbv zeta. unfold accept_correction.
    destruct (encode_data _) as [bs|e] eqn:Henc; cbn [accepted_corrections stdin stdout].
    + split; [done|]. split; [|done]. exists [LogEncodingError].
      cbn [snd stdout map]. by rewrite app_nil_r.
    + split; [done|]. split.
      * exists [LogEncodingError]. cbn [snd stdout map]. by rewrite app_nil_r.
      * cbn [fst]. intros [= ->]. by apply (encode_data_raises _ Henc).
  - split; [done|]. split; [|cbn [fst]; intros [= ->]; by apply Hraised]. exists []. cbn [snd stdout map].
    by rewrite !app_nil_r.
Qed.

Lemma read_frame_asks_nothing preserved_tags c input_file w :
  asks_nothing w (read_frame preserved_tags true c input_file w).
Proof.
  destruct (valid_tag_name (frame_tag_name input_file)) eqn:Hvalid.
  - rewrite read_frame_valid by done.
    case_bool_decide.
    { by apply asks_nothing_log, asks_nothing_refl. }
    destruct (is_unicode _).
    + destruct (utf_16 _) as [data_decoded|].
      * pose proof (transcode_asks_nothing data_decoded (logged LogFrame w)) as Hrun.
        destruct (transcode true data_decoded (logged LogFrame w)) as [[bs|e] w1].
        -- apply asks_nothing_logged in Hrun.
           by eapply asks_nothing_log, asks_nothing_ok.
        -- apply asks_nothing_logged in Hrun. by eapply asks_nothing_raise.
      * by apply asks_nothing_log, asks_nothing_refl.
    + by apply asks_nothing_log, asks_nothing_log, asks_nothing_refl.
  - unfold frame_tag_name in Hvalid. rewrite read_frame_invalid by done.
    by apply asks_nothing_log, asks_nothing_refl.
Qed.

Lemma read_frames_asks_nothing fuel preserved_tags :
  forall c input_file w x,
  read_frames fuel preserved_tags true c input_file w = Some x ->
  asks_nothing w x.
Proof.
  induction fuel as [|fuel IH]; intros c input_file w x; [discriminate|].
  cbn [read_frames].
  pose proof (read_frame_asks_nothing preserved_tags c input_file w) as Hround.
  destruct (read_frame preserved_tags true c input_file w)
    as [[[c1|c1 input_file1]|e] w1].
  - intros [= <-]. by eapply asks_nothing_ok.
  - intros Hloop. apply IH in Hloop. by eapply asks_nothing_trans.
  - intros [= <-]. by eapply asks_nothing_raise.
Qed.

Lemma read_id3_asks_nothing input_file preserved_tags w x :
  read_id3 input_file preserved_tags true w = Some x ->
  asks_nothing w x.
Proof.
  unfold read_id3. cbn [print_log_lines].
  change (World (accepted_corrections w) (stdin w) (stdout w ++ [Printed LogInputPath]))
    with (logged LogInputPath w).
  destruct (synchsafe_decode _) as [id3_size|].
  - cbn [accepted_corrections stdin stdout logged].
    change (World (accepted_corrections w) (stdin w)
              ((stdout w ++ [Printed LogInputPath]) ++ [Printed LogHeader]))
      with (logged LogHeader (logged LogInputPath w)).
    case_bool_decide.
    + intros [= <-]. by apply asks_nothing_log, asks_nothing_log, asks_nothing_refl.
    + intros Hloop. apply read_frames_asks_nothing in Hloop.
      by apply asks_nothing_logged, asks_nothing_logged in Hloop.
  - intros [= <-]. by apply asks_nothing_log, asks_nothing_refl.
Qed.

(** X14. Under the automatic policy [read_id3] never waits for the operator:
    whatever the file and the cache, it reads no line of the input, asks no
    question, prints log lines only, and does not end with EOFError. *)
Theorem automatic_policy_asks_nothing input_file preserved_tags w x :
  read_id3 input_file preserved_tags true w = Some x ->
  asks_nothing w x.
Proof. apply read_id3_asks_nothing. Qed.

Lemma read_frame_content_offset preserved_tags automatic_correction offset c
    input_file w :
  read_frame preserved_tags automatic_correction (set_content_offset offset c)
    input_file w =
  match read_frame preserved_tags automatic_correction c input_file w with
  | (Ok (Return c'), w') => (Ok (Return (set_content_offset offset c')), w')
  | (Ok (Continue c' input_file'), w') =>
      (Ok (Continue (set_content_offset offset c') input_file'), w')
  | (Raise e, w') => (Raise e, w')
  end.
Proof.
  destruct (valid_tag_name (frame_tag_name input_file)) eqn:Hvalid.
  - rewrite !read_frame_valid by done.
    case_bool_decide; [done|].
    destruct (is_unicode _); [|done].
    destruct (utf_16 _) as [data_decoded|]; [|done].
    by destruct (transcode _ _ _) as [[data_encoded|e] w1].
  - unfold frame_tag_name in Hvalid. by rewrite !read_frame_invalid by done.
Qed.

Lemma read_frames_content_offset fuel preserved_tags automatic_correction offset :
  forall c input_file w,
  without_content_offset
    (read_frames fuel preserved_tags automatic_correction (set_content_offset offset c)
       input_file w) =
  without_content_offset
    (read_frames fuel preserved_tags automatic_correction c input_file w).
Proof.
  induction fuel as [|fuel IH]; intros c input_file w; [done|].
  cbn [read_frames]. rewrite read_frame_content_offset.
  destruct (read_frame preserved_tags automatic_correction c input_file w)
    as [[[c1|c1 input_file1]|e] w1]; [done | apply IH | done].
Qed.

(** X15. The size that the header declares is used for [content_offset] and
    for nothing else: two files that differ in the four bytes of the size
    only are parsed into the same header bytes and the same frames, with the
    same effects, or fail in the same way. The frame loop does not stop where
    the declared size ends. *)
Theorem declared_size_sets_offset_only prefix size1 size2 body preserved_tags
    automatic_correction w :
  length prefix = 6%nat -> length size1 = 4%nat -> length size2 = 4%nat ->
  without_content_offset
    (read_id3 (prefix ++ size1 ++ body) preserved_tags automatic_correction w) =
  without_content_offset
    (read_id3 (prefix ++ size2 ++ body) preserved_tags automatic_correction w).
Proof.
  intros Hprefix Hsize1 Hsize2.
  assert (forall size, length size = 4%nat ->
            take 10 (prefix ++ size ++ body) = prefix ++ size /\
            drop 10 (prefix ++ size ++ body) = body) as Hsplit.
  { intros size Hsize. rewrite !app_assoc. split.
    - rewrite take_app_length'; [done|]. rewrite length_app. lia.
    - rewrite drop_app_length'; [done|]. rewrite length_app. lia. }
  unfold read_id3. cbn [print_log_lines].
  destruct (Hsplit size1 Hsize1) as [-> ->]. destruct (Hsplit size2 Hsize2) as [-> ->].
  rewrite (take_ge (prefix ++ size1)), (take_ge (prefix ++ size2))
    by (rewrite length_app; lia).
  rewrite !take_app_le by lia. rewrite !drop_app_length' by lia.
  rewrite (take_ge prefix 6) by lia.
  destruct size1 as [|b1 size1]; [discriminate Hsize1|].
  destruct size2 as [|b2 size2]; [discriminate Hsize2|].
  destruct (synchsafe_decode_cons b1 size1) as [v1 ->].
  destruct (synchsafe_decode_cons b2 size2) as [v2 ->].
  case_bool_decide; [done|].
  rewrite !length_app, Hprefix, Hsize1, Hsize2.
  set (w2 := World _ _ _).
  apply (read_frames_content_offset _ _ _ (N.of_nat (6 + 4) + v1)
           (Container prefix [] (N.of_nat (6 + 4) + v2))).
Qed.

(** ** Files that end too early *)

(** X16. A file of six bytes or less, an empty one among them, has no size
    field: whatever its bytes are, [read_id3] ends with the ValueError of
    [int("", 2)], after the line that names the input path and before the
    identifier is looked at. *)
Theorem short_file_raises_value_error input_file preserved_tags automatic_correction w :
  (length input_file <= 6)%nat ->
  read_id3 input_file preserved_tags automatic_correction w =
  Some (Raise ValueError, logged LogInputPath w).
Proof.
  intros Hlen. unfold read_id3. cbn [print_log_lines].
  rewrite take_take. change (10 `min` 10)%nat with 10%nat.
  rewrite (drop_ge (take 10 input_file)) by (rewrite length_take; lia).
  reflexivity.
Qed.

(** X17. A record that declares more payload than the file has left is no
    error: for a preserved frame that is not Unicode, the frame gets the bytes
    that are left as its payload, and the next round, at the end of the file,
    returns the container. *)
Theorem short_payload_is_kept preserved_tags automatic_correction c input_file w fuel :
  valid_tag_name (frame_tag_name input_file) = true ->
  frame_tag_name input_file ∈ preserved_tags ->
  is_unicode (drop 10 input_file) = false ->
  (length input_file - 10 <= N.to_nat (frame_data_length input_file))%nat ->
  read_frames (S (S fuel)) preserved_tags automatic_correction c input_file w =
  Some (Ok (append_frame c
              (Frame (frame_tag_name input_file) (frame_data_flags input_file)
                 (drop 10 input_file) false)),
        logged LogInvalidNextHeader (logged LogResult (logged LogFrame w))).
Proof.
  intros Hvalid Hpres Hunicode Hshort.
  assert (frame_data_raw input_file = drop 10 input_file) as Hraw.
  { unfold frame_data_raw. rewrite drop_drop. apply take_ge.
    rewrite length_drop. lia. }
  assert (frame_rest input_file = []) as Hrest.
  { unfold frame_rest. rewrite drop_drop. apply drop_ge. rewrite length_drop. lia. }
  cbn [read_frames]. rewrite read_frame_valid by done.
  rewrite bool_decide_eq_false_2 by (by intros Hnot).
  rewrite Hraw, Hunicode, Hrest. by rewrite read_frame_invalid by reflexivity.
Qed.

(** ** Reading what the writer wrote *)

Lemma to_N_byte_of_N_mod v : Byte.to_N (byte_of_N v) = v mod 256.
Proof.
  unfold byte_of_N. destruct (Byte.of_N (v mod 256)) as [b|] eqn:Hb.
  - by apply Byte.to_of_N.
  - apply Byte.of_N_None_iff in Hb. pose proof (N.mod_upper_bound v 256). lia.
Qed.

Lemma from_bytes_big_4 n : n < 2 ^ 32 -> from_bytes_big (big_endian_4 n) = n.
Proof.
  intros Hn. unfold from_bytes_big, big_endian_4. cbn [fold_left].
  rewrite !to_N_byte_of_N_mod. change (2 ^ 32) with 4294967296 in Hn.
  change 16777216 with (256 * 256 * 256). change 65536 with (256 * 256).
  rewrite <- !N.Div0.div_div.
  pose proof (N.Div0.div_mod n 256) as H1.
  pose proof (N.Div0.div_mod (n / 256) 256) as H2.
  pose proof (N.Div0.div_mod (n / 256 / 256) 256) as H3.
  assert (n / 256 / 256 / 256 < 256) as H4.
  { rewrite !N.Div0.div_div. apply N.Div0.div_lt_upper_bound. exact Hn. }
  rewrite (N.mod_small (n / 256 / 256 / 256)) by exact H4.
  set (r1 := n mod 256) in *. set (q1 := n / 256) in *.
  set (r2 := q1 mod 256) in *. set (q2 := q1 / 256) in *.
  set (r3 := q2 mod 256) in *. set (q3 := q2 / 256) in *.
  clearbody r1 q1 r2 q2 r3 q3. lia.
Qed.

(** The fields that the parser reads in front of a written record are those
    of the frame. *)
Lemma frame_record_fields preserved_tags fr rest :
  reads_back preserved_tags fr ->
  N.of_nat (length (data fr)) < 2 ^ 32 ->
  frame_tag_name (frame_record fr ++ rest) = tag fr /\
  frame_data_flags (frame_record fr ++ rest) = data_flags fr /\
  frame_data_raw (frame_record fr ++ rest) = data fr /\
  frame_rest (frame_record fr ++ rest) = rest.
Proof.
  intros (Hvalid & Hlen & _ & Hflags & _) Hn.
  pose proof (valid_tag_name_latin1 _ Hvalid) as Hlatin.
  destruct fr as [tag_name flags payload converted]. cbn [tag data_flags data] in *.
  destruct tag_name as [|a [|b [|c [|d [|? ?]]]]]; try discriminate Hlen.
  destruct flags as [|f1 [|f2 [|? ?]]]; try discriminate Hflags.
  unfold frame_record. cbn [tag data_flags data map app].
  set (n := N.of_nat (length payload)) in *.
  assert (frame_data_length
            (byte_of_N a :: byte_of_N b :: byte_of_N c :: byte_of_N d
             :: (big_endian_4 n ++ f1 :: f2 :: payload) ++ rest) = n) as Hfield.
  { unfold frame_data_length, big_endian_4. cbn [firstn skipn app].
    by apply from_bytes_big_4. }
  split; [|split; [|split]].
  - unfold frame_tag_name, decode_iso. cbn [firstn map].
    repeat match goal with
           | H : Forall _ (_ :: _) |- _ => apply Forall_cons in H as [? H]
           end.
    by rewrite !to_N_byte_of_N.
  - unfold frame_data_flags, big_endian_4. by cbn [firstn skipn app].
  - unfold frame_data_raw. rewrite Hfield. unfold big_endian_4.
    cbn [firstn skipn app]. subst n. rewrite Nat2N.id. apply take_app_length.
  - unfold frame_rest. rewrite Hfield. unfold big_endian_4.
    cbn [firstn skipn app]. subst n. rewrite Nat2N.id. apply drop_app_length.
Qed.

(** The loop in front of a written frame block: it reads the frames as they
    are and returns at the zero bytes behind them. *)
Lemma read_frames_block preserved_tags automatic_correction frs :
  forall fuel c tail w,
  Forall (reads_back preserved_tags) frs ->
  Forall (fun fr => N.of_nat (length (data fr)) < 2 ^ 32) frs ->
  (length frs < fuel)%nat ->
  exists w',
    read_frames fuel preserved_tags automatic_correction c
      (concat (map frame_record frs) ++ replicate 32 x00 ++ tail) w =
    Some (Ok (Container (header c) (frames c ++ map as_read frs) (content_offset c)), w') /\
    accepted_corrections w' = accepted_corrections w /\ stdin w' = stdin w.
Proof.
  induction frs as [|fr frs IH]; intros fuel c tail w Hfrs Hlens Hfuel;
    (destruct fuel as [|fuel]; [cbn [length] in Hfuel; lia|]); cbn [read_frames].
  - cbn [map concat app]. rewrite read_frame_invalid by reflexivity.
    exists (logged LogInvalidNextHeader w). split; [|done].
    destruct c. cbn [header frames content_offset map].
    by rewrite app_nil_r.
  - inversion_clear Hfrs as [|? ? Hfr Hfrs']. inversion_clear Hlens as [|? ? Hlen Hlens'].
    cbn [map concat]. rewrite <- app_assoc.
    destruct (frame_record_fields _ fr
                (concat (map frame_record frs) ++ replicate 32 x00 ++ tail) Hfr Hlen)
      as (Htag & Hflags & Hraw & Hrest).
    destruct Hfr as (Hvalid & _ & Hpres & _ & Hunicode).
    rewrite read_frame_valid by (by rewrite Htag).
    rewrite Htag, Hflags, Hraw, Hrest, Hunicode.
    rewrite bool_decide_eq_false_2 by (by intros Hnot).
    destruct (IH fuel
                (append_frame c (Frame (tag fr) (data_flags fr) (data fr) false)) tail
                (logged LogResult (logged LogFrame w)) Hfrs' Hlens')
      as (w' & Hloop & Hcache & Hin); [cbn [length] in Hfuel; lia|].
    exists w'. rewrite Hloop. split; [|done].
    cbn [append_frame header frames content_offset map]. by rewrite <- app_assoc.
Qed.

Lemma frame_record_as_read fr : frame_record (as_read fr) = frame_record fr.
Proof. reflexivity. Qed.

Lemma frame_records_length preserved_tags frs :
  Forall (reads_back preserved_tags) frs ->
  (length frs <= length (concat (map frame_record frs)))%nat.
Proof.
  induction 1 as [|fr frs (_ & Hlen & _) _ IH]; [done|].
  cbn [map concat length]. rewrite length_app. unfold frame_record at 1.
  rewrite length_app, length_map. lia.
Qed.

(** X18. A file that [write_id3] wrote is one that [read_id3] reads back. For
    a container with the six header bytes of a tagged file whose frames have a
    preserved tag name, two flag bytes and a payload that does not start with
    the byte 1 (so it is with a payload of the transcoder, which starts with
    the byte 0), [read_id3] on the written file returns the same header and
    the same frames, none of them marked as converted, with a
    [content_offset] behind the 32 zero bytes; it reads no input and leaves
    the cache as it is; and [write_id3] with the file that was written as
    its input file and the container that was read writes, at an output path
    that names another file, the same file again, byte for byte. *)
Theorem written_file_reads_back fs input_path output_path c content preserved_tags
    automatic_correction w :
  length (header c) = 6%nat ->
  decode_iso (take 3 (header c)) = text "ID3" ->
  Forall (reads_back preserved_tags) (frames c) ->
  write_id3 fs input_path output_path c = Written content ->
  exists c' w',
    read_id3 content preserved_tags automatic_correction w = Some (Ok c', w') /\
    header c' = header c /\
    frames c' = map as_read (frames c) /\
    content_offset c' = 10 + N.of_nat (length (frame_block c)) /\
    accepted_corrections w' = accepted_corrections w /\ stdin w' = stdin w /\
    forall fs' input_path' output_path',
      fs' !! realpath input_path' = Some content ->
      realpath input_path' <> realpath output_path' ->
      write_id3 fs' input_path' output_path' c' = Written content.
Proof.
  intros Hheader Hmagic Hframes Hwrite.
  apply write_id3_written_block in Hwrite
    as (Hsize & size_bytes & input_file & Henc & _ & ->).
  destruct (synchsafe_encode_groups _ Hsize)
    as (v1 & v2 & v3 & v4 & (Hv1 & Hv2 & Hv3 & Hv4) & Hsum & Henc').
  rewrite Henc' in Henc. injection Henc as <-.
  set (tail := drop (N.to_nat (content_offset c)) input_file).
  set (size_bytes := [byte_of_N v1; byte_of_N v2; byte_of_N v3; byte_of_N v4]) in *.
  assert (Forall (fun fr => N.of_nat (length (data fr)) < 2 ^ 32) (frames c)) as Hlens.
  { apply Forall_forall. intros fr Hfr.
    pose proof (frame_record_data_length fr _ Hfr) as Hle.
    unfold frame_block in Hsize. rewrite length_app in Hsize.
    change (2 ^ 28) with 268435456 in Hsize. change (2 ^ 32) with 4294967296. lia. }
  assert (synchsafe_decode size_bytes = Some (N.of_nat (length (frame_block c))))
    as Hdecode.
  { unfold size_bytes. rewrite synchsafe_decode_4, !to_N_byte_of_N by lia.
    rewrite !N.mod_small by done. by rewrite Hsum. }
  assert (take 10 (header c ++ size_bytes ++ frame_block c ++ tail)
          = header c ++ size_bytes) as Htake.
  { rewrite !app_assoc, <- (app_assoc _ (frame_block c)).
    apply take_app_length'. rewrite length_app, Hheader. reflexivity. }
  assert (drop 10 (header c ++ size_bytes ++ frame_block c ++ tail)
          = frame_block c ++ tail) as Hdrop.
  { rewrite !app_assoc, <- (app_assoc _ (frame_block c)).
    apply drop_app_length'. rewrite length_app, Hheader. reflexivity. }
  destruct (read_frames_block preserved_tags automatic_correction (frames c)
              (S (length (frame_block c ++ tail)))
              (Container (header c) [] (10 + N.of_nat (length (frame_block c)))) tail
              (logged LogHeader (logged LogInputPath w)) Hframes Hlens)
    as (w' & Hloop & Hcache & Hin).
  { pose proof (frame_records_length _ _ Hframes) as Hle.
    unfold frame_block. rewrite !length_app. lia. }
  cbn [header frames content_offset app] in Hloop.
  exists (Container (header c) (map as_read (frames c))
            (10 + N.of_nat (length (frame_block c)))), w'.
  split; [|split; [reflexivity|split; [reflexivity|split; [reflexivity|]]]].
  - unfold read_id3. cbn [print_log_lines]. rewrite Htake, Hdrop.
    rewrite (take_ge (header c ++ size_bytes) 10)
      by (rewrite length_app, Hheader; reflexivity).
    rewrite !take_app_le by lia. rewrite drop_app_length' by done.
    rewrite Hdecode. rewrite bool_decide_eq_false_2 by (by intros Hnot).
    rewrite (take_ge (header c) 6) by lia.
    rewrite (length_app (header c)), Hheader.
    change (N.of_nat (6 + length size_bytes)) with 10.
    rewrite app_assoc in Hloop. fold (frame_block c) in Hloop. exact Hloop.
  - split; [done|]. split; [done|].
    intros fs' input_path' output_path' Hcontent Hother.
    set (c' := Container (header c) (map as_read (frames c))
                 (10 + N.of_nat (length (frame_block c)))).
    assert (frame_block c' = frame_block c) as Hblock.
    { unfold frame_block, c'. cbn [frames]. rewrite map_map.
      by setoid_rewrite frame_record_as_read. }
    assert (latin1_tags c') as Htags.
    { unfold latin1_tags, c'. cbn [frames]. rewrite Forall_map.
      eapply Forall_impl; [exact Hframes|].
      intros fr (Hvalid & _). by apply valid_tag_name_latin1. }
    destruct (write_id3_small fs' input_path' output_path' c' Htags)
      as (size_bytes' & Henc & _ & ->); [by rewrite Hblock|].
    rewrite reopened_other, Hcontent by done.
    rewrite Hblock in *. rewrite Henc' in Henc. injection Henc as <-.
    fold size_bytes. cbn [header content_offset c'].
    do 3 f_equal.
    replace (N.to_nat (10 + N.of_nat (length (frame_block c))))
      with (length (header c ++ size_bytes ++ frame_block c)).
    + f_equal.
      replace (header c ++ size_bytes ++ frame_block c ++ tail)
        with ((header c ++ size_bytes ++ frame_block c) ++ tail)
        by (by rewrite <- !app_assoc).
      apply drop_app_length.
    + rewrite !length_app, Hheader. cbn [length size_bytes]. lia.
Qed.

Lemma encode_data_not_unicode working_text payload :
  encode_data working_text = Ok payload -> is_unicode payload = false.
Proof.
  unfold encode_data. destruct (encode_shift_jis working_text); [|discriminate].
  by intros [= <-].
Qed.

(** X19. What [read_id3] returns can be written and read back: the header
    has the six bytes of a tagged file, every tag name has four characters,
    no payload starts with the byte 1, which would mark it as Unicode, and
    every frame that got its two flag bytes (the file did not end inside the
    record) is one that is read back as it is. *)
Theorem parsed_container_reads_back input_file preserved_tags automatic_correction
    w c w' :
  read_id3 input_file preserved_tags automatic_correction w = Some (Ok c, w') ->
  length (header c) = 6%nat /\
  decode_iso (take 3 (header c)) = text "ID3" /\
  Forall (fun fr =>
            length (tag fr) = 4%nat /\ is_unicode (data fr) = false /\
            (length (data_flags fr) = 2%nat -> reads_back preserved_tags fr))
    (frames c).
Proof.
  intros Hread.
  pose proof (read_id3_latin1_tags _ _ _ _ _ _ Hread) as [_ Hheader].
  pose proof (read_id3_records _ _ _ _ _ _ Hread) as Hrecords.
  apply read_id3_spec in Hread as (Hmagic & Hh & _ & Hall & _).
  split; [done|]. split.
  { rewrite Hh, take_take. exact Hmagic. }
  apply Forall2_Forall_l with (Q := fun fr => exists record, frame_of_record fr record)
    in Hrecords; [|apply Forall_forall; eauto].
  rewrite Forall_forall in Hall, Hrecords. apply Forall_forall. intros fr Hfr.
  destruct (Hall fr Hfr) as (Hpres & Hvalid & _ & Hdata).
  destruct (Hrecords fr Hfr) as (record & Htag & _ & Hconv & Hraw).
  assert (length (tag fr) = 4%nat) as Htag4.
  { destruct (valid_tag_name_length _ Hvalid) as [|H5]; [done|].
    rewrite Htag in H5. unfold frame_tag_name, decode_iso in H5.
    rewrite length_map, !length_take in H5. lia. }
  assert (is_unicode (data fr) = false) as Hunicode.
  { destruct (data_was_converted fr).
    - destruct Hdata as (working_text & Henc). by eapply encode_data_not_unicode.
    - rewrite Hraw by done. done. }
  split; [done|]. split; [done|]. intros Hflags. done.
Qed.

(** ** The overwrite question *)

Lemma lower_nil t : lower t = [] -> t = [].
Proof.
  destruct t as [|c t]; [done|]. unfold lower. cbn [map concat].
  unfold lower_char. repeat case_match; discriminate.
Qed.

(** The texts whose lower-case form is a given small letter, other than k:
    the letter and its capital. *)
Lemma lower_letter l t :
  97 <= l <= 122 -> l <> 107 ->
  lower t = [l] <-> t = [l] \/ t = [l - 32].
Proof.
  intros Hl Hk. split.
  - destruct t as [|c t]; [discriminate|]. unfold lower. cbn [map concat].
    fold (lower t). unfold lower_char.
    destruct (N.leb_spec 65 c); destruct (N.leb_spec c 90); cbn [andb];
      try (destruct (N.eqb_spec c 304); [discriminate|];
           destruct (N.eqb_spec c 8490); [intros [= <- _]; lia|]);
      intros [= <- Ht]; apply lower_nil in Ht as ->;
      first [by left | right; f_equal; lia].
  - intros [-> | ->]; unfold lower, lower_char; cbn [map concat].
    + destruct (N.leb_spec 65 l); destruct (N.leb_spec l 90); cbn [andb]; try lia;
        destruct (N.eqb_spec l 304); try lia; destruct (N.eqb_spec l 8490); try lia;
        done.
    + destruct (N.leb_spec 65 (l - 32)); destruct (N.leb_spec (l - 32) 90);
        cbn [andb]; try lia.
      cbn [app]. f_equal. lia.
Qed.

Lemma lower_yes line : lower (strip line) = text "y" <-> says_yes line.
Proof. apply (lower_letter 121); [by vm_compute | done]. Qed.

Lemma lower_no line : lower (strip line) = text "n" <-> says_no line.
Proof. apply (lower_letter 110); [by vm_compute | done]. Qed.

Lemma says_yes_not_no line : says_yes line -> ~ says_no line.
Proof. intros [Hy|Hy] [Hn|Hn]; rewrite Hy in Hn; discriminate Hn. Qed.

(** Lines that say neither yes nor no are asked about again. *)
Lemma yes_no_skips skipped :
  forall lines console,
  Forall undecided skipped ->
  yes_no (skipped ++ lines) console =
  yes_no lines (console ++ replicate (length skipped) AskedOverwrite).
Proof.
  induction skipped as [|line skipped IH]; intros lines console Hskipped.
  - cbn [app length replicate]. by rewrite app_nil_r.
  - inversion_clear Hskipped as [|? ? [Hyes Hno] Hskipped'].
    cbn [app yes_no]. rewrite <- lower_yes in Hyes. rewrite <- lower_no in Hno.
    rewrite !bool_decide_eq_false_2 by done.
    rewrite IH by done. cbn [length replicate].
    by rewrite <- app_assoc.
Qed.

Lemma yes_no_decided skipped answer rest console :
  Forall undecided skipped ->
  (says_yes answer ->
   yes_no (skipped ++ answer :: rest) console =
   (Ok true, rest, console ++ replicate (S (length skipped)) AskedOverwrite)) /\
  (says_no answer ->
   yes_no (skipped ++ answer :: rest) console =
   (Ok false, rest, console ++ replicate (S (length skipped)) AskedOverwrite)).
Proof.
  intros Hskipped.
  assert (replicate (length skipped) AskedOverwrite ++ [AskedOverwrite]
          = replicate (S (length skipped)) AskedOverwrite) as Hcount.
  { change [AskedOverwrite] with (replicate 1 AskedOverwrite).
    rewrite <- replicate_add. f_equal. lia. }
  split; intros Hanswer; rewrite yes_no_skips by done; cbn [yes_no].
  - rewrite bool_decide_eq_true_2 by (by apply lower_yes).
    by rewrite <- app_assoc, Hcount.
  - rewrite bool_decide_eq_false_2
      by (rewrite lower_yes; intros Hyes; by apply (says_yes_not_no answer)).
    rewrite bool_decide_eq_true_2 by (by apply lower_no).
    by rewrite <- app_assoc, Hcount.
Qed.

(** X20. [yes_no] asks until it gets an answer. Lines that are neither a yes
    nor a no are asked about again, one question each; the first line that
    is, once stripped of the blanks around it, [y] or [Y] makes it return
    true, [n] or [N] false; the lines behind that answer are left to be
    read. *)
Theorem yes_no_answer skipped answer rest console :
  Forall undecided skipped ->
  (says_yes answer ->
   yes_no (skipped ++ answer :: rest) console =
   (Ok true, rest, console ++ replicate (S (length skipped)) AskedOverwrite)) /\
  (says_no answer ->
   yes_no (skipped ++ answer :: rest) console =
   (Ok false, rest, console ++ replicate (S (length skipped)) AskedOverwrite)).
Proof. apply yes_no_decided. Qed.

(** X21. When no line of the input is a yes or a no, [yes_no] asks once for
    each line and once more, and raises EOFError. *)
Theorem yes_no_end_of_input lines console :
  Forall undecided lines ->
  yes_no lines console =
  (Raise EOFError, [], console ++ replicate (S (length lines)) AskedOverwrite).
Proof.
  intros Hlines. rewrite <- (app_nil_r lines) at 1.
  rewrite yes_no_skips by done. cbn [yes_no]. rewrite <- app_assoc.
  change [AskedOverwrite] with (replicate 1 AskedOverwrite).
  rewrite <- replicate_add. do 3 f_equal. lia.
Qed.

(** ** The output file *)

(** What lines 276-301 make of the files, for a container whose frame block
    fits the four synchsafe bytes. *)
Lemma written_files_small fs input_path output_path c :
  latin1_tags c ->
  N.of_nat (length (frame_block c)) < 2 ^ 28 ->
  exists size_bytes,
    synchsafe_encode (N.of_nat (length (frame_block c))) = Ok size_bytes /\
    let written := header c ++ size_bytes ++ frame_block c in
    (forall input_file,
       realpath input_path <> realpath output_path ->
       fs !! realpath input_path = Some input_file ->
       written_files fs input_path output_path c =
       (Ok tt,
        <[realpath output_path :=
            written ++ drop (N.to_nat (content_offset c)) input_file]> fs)) /\
    (realpath input_path = realpath output_path ->
     written_files fs input_path output_path c =
     (Ok tt,
      <[realpath output_path :=
          written
            ++ drop (N.to_nat (content_offset c))
                 (take (flushed [header c; size_bytes; frame_block c]) written)]> fs)) /\
    (realpath input_path <> realpath output_path ->
     fs !! realpath input_path = None ->
     written_files fs input_path output_path c =
     (Raise FileNotFoundError, <[realpath output_path := written]> fs)).
Proof.
  intros Htags Hsize.
  destruct (write_id3_small fs input_path output_path c Htags Hsize)
    as (size_bytes & Henc & _ & Hwrite).
  exists size_bytes. split; [done|]. cbv zeta. unfold written_files. rewrite Hwrite.
  split; [|split].
  - intros input_file Hother Hinput. rewrite reopened_other, Hinput by done.
    by rewrite <- !app_assoc.
  - intros Hsame. rewrite reopened_same, concat_writes by done.
    by rewrite <- !app_assoc.
  - intros Hother Hnone. by rewrite reopened_other, Hnone by done.
Qed.

(** When the question about overwriting is not asked. *)
Lemma write_id3_file_unasked input_path output_dir_path c auto_overwrite s :
  auto_overwrite = true \/ output_dir_path = []
  \/ files s !! realpath (output_path_of input_path output_dir_path) = None ->
  exists fs,
    (fs = files s \/
     fs = delete (realpath (output_path_of input_path output_dir_path)) (files s)) /\
    write_id3_file input_path output_dir_path c auto_overwrite s =
    ((written_files fs input_path (output_path_of input_path output_dir_path) c).1,
     Session (cache s) (keyboard s) (console s ++ [LogOutputPath])
       (written_files fs input_path (output_path_of input_path output_dir_path) c).2).
Proof.
  intros Hfree. unfold write_id3_file, os_makedirs. cbv zeta.
  cbn [noted cache keyboard console files].
  case_bool_decide as Hdir.
  { exists (files s). split; [by left|]. by destruct (written_files _ _ _ _). }
  assert (negb auto_overwrite
          && bool_decide
               (is_Some (files s !! realpath (output_path_of input_path output_dir_path)))
          = false) as ->.
  { destruct Hfree as [-> | [Hempty | Hnone]]; [done..|].
    rewrite Hnone, bool_decide_eq_false_2 by (by intros [? ?]).
    by destruct auto_overwrite. }
  eexists. split; [by right|]. by destruct (written_files _ _ _ _).
Qed.

(** X22. A file that the operator does not want overwritten is left alone:
    when the output directory is named, a file exists at the output path,
    overwriting was not allowed beforehand and the first answer that counts
    is a no, [write_id3] reports that the file is skipped and returns; the
    files are as they were, whatever the container holds and whichever file
    the input path names. *)
Theorem declined_overwrite input_path output_dir_path id3_definition s skipped
    answer rest :
  output_dir_path <> [] ->
  is_Some (files s !! realpath (output_path_of input_path output_dir_path)) ->
  keyboard s = skipped ++ answer :: rest ->
  Forall undecided skipped ->
  says_no answer ->
  write_id3_file input_path output_dir_path id3_definition false s =
  (Ok tt,
   Session (cache s) rest
     (console s ++ [LogOutputPath] ++ replicate (S (length skipped)) AskedOverwrite
        ++ [LogFileSkipped])
     (files s)).
Proof.
  intros Hdir Hexists Hkeyboard Hskipped Hno. unfold write_id3_file, os_makedirs.
  cbv zeta. rewrite bool_decide_eq_false_2 by done.
  cbn [noted cache keyboard console files negb andb].
  rewrite bool_decide_eq_true_2 by done. rewrite Hkeyboard.
  rewrite (proj2 (yes_no_decided skipped answer rest _ Hskipped) Hno).
  unfold noted. cbn [cache keyboard console files]. by rewrite <- !app_assoc.
Qed.

(** X23. A file that [write_id3] goes on to write, because overwriting was
    allowed beforehand, because there is no file at the output path, or
    because the output directory has the empty name, so that [os_makedirs]
    raises and the question is passed over, is written without a question;
    it replaces whatever the output path held, and no other file is touched.
    When the frame block is shorter than [2 ^ 28] bytes, the new file holds
    the header, the size and the frame block, and behind them what is found
    at the input path from [content_offset] on: the payload of the input
    file, when the output path names another file; what has left the buffer
    of the new file itself, when the output path names the input file, whose
    payload is lost; and when there is no file at the input path, the call
    ends with FileNotFoundError. When the frame block is not shorter than
    [2 ^ 28] bytes, the call ends with OverflowError and the output path
    holds the header bytes only: what was there before is lost. *)
Theorem overwrite_outcome input_path output_dir_path id3_definition auto_overwrite s :
  latin1_tags id3_definition ->
  auto_overwrite = true \/ output_dir_path = []
  \/ files s !! realpath (output_path_of input_path output_dir_path) = None ->
  let output_path := output_path_of input_path output_dir_path in
  let outcome r fs :=
    write_id3_file input_path output_dir_path id3_definition auto_overwrite s =
    (r, Session (cache s) (keyboard s) (console s ++ [LogOutputPath]) fs) in
  (N.of_nat (length (frame_block id3_definition)) < 2 ^ 28 ->
   exists size_bytes,
     synchsafe_encode (N.of_nat (length (frame_block id3_definition))) = Ok size_bytes /\
     let written := header id3_definition ++ size_bytes ++ frame_block id3_definition in
     (forall input_file,
        realpath input_path <> realpath output_path ->
        files s !! realpath input_path = Some input_file ->
        outcome (Ok tt)
          (<[realpath output_path :=
               written
                 ++ drop (N.to_nat (content_offset id3_definition)) input_file]>
             (files s))) /\
     (realpath input_path = realpath output_path ->
      outcome (Ok tt)
        (<[realpath output_path :=
             written
               ++ drop (N.to_nat (content_offset id3_definition))
                    (take (flushed [header id3_definition; size_bytes;
                                    frame_block id3_definition])
                       written)]>
           (files s))) /\
     (realpath input_path <> realpath output_path ->
      files s !! realpath input_path = None ->
      outcome (Raise FileNotFoundError) (<[realpath output_path := written]> (files s)))) /\
  (2 ^ 28 <= N.of_nat (length (frame_block id3_definition)) ->
   Forall (fun fr => N.of_nat (length (data fr)) < 2 ^ 32) (frames id3_definition) ->
   outcome (Raise OverflowError)
     (<[realpath output_path := header id3_definition]> (files s))).
Proof.
  intros Htags Hfree output_path outcome. unfold outcome.
  destruct (write_id3_file_unasked input_path output_dir_path id3_definition
              auto_overwrite s Hfree) as (fs & Hfs & ->).
  fold output_path. fold output_path in Hfs.
  assert (forall content, <[realpath output_path := content]> fs
                          = <[realpath output_path := content]> (files s)) as Hput.
  { intros content. destruct Hfs as [-> | ->]; [done | apply insert_delete_eq]. }
  assert (forall path, path <> realpath output_path -> fs !! path = files s !! path)
    as Hget.
  { intros path Hpath. destruct Hfs as [-> | ->]; [done|].
    by apply lookup_delete_ne. }
  split.
  - intros Hsize.
    destruct (written_files_small fs input_path output_path id3_definition Htags Hsize)
      as (size_bytes & Henc & Hother & Hsame & Hnone).
    exists size_bytes. split; [done|]. cbv zeta. split; [|split].
    + intros input_file Hpaths Hinput.
      rewrite (Hother input_file); [|done|by rewrite Hget].
      cbn [fst snd]. by rewrite Hput.
    + intros Hpaths. rewrite Hsame by done. cbn [fst snd]. by rewrite Hput.
    + intros Hpaths Hinput. rewrite Hnone; [|done|by rewrite Hget].
      cbn [fst snd]. by rewrite Hput.
  - intros Hsize Hlens. unfold written_files.
    rewrite (write_id3_oversize fs input_path output_path id3_definition OverflowError)
      by (done || by apply synchsafe_encode_overflow).
    cbn [fst snd]. by rewrite Hput.
Qed.

(** ** The console is only appended to

    What [read_id3] does never depends on what is on the console, and what it
    prints comes behind it: the loop of [main] may run it on an empty console
    and add what it printed to its own. *)

Lemma accept_correction_console data_decoded replacement corrections lines out out' :
  accept_correction data_decoded replacement (World corrections lines (out ++ out')) =
  after_console out
    (accept_correction data_decoded replacement (World corrections lines out')).
Proof. unfold accept_correction. by destruct (encode_data replacement). Qed.

Lemma correction_loop_console data_decoded automatic_correction lines out :
  forall alt_data_decoded corrections out',
  correction_loop data_decoded automatic_correction lines alt_data_decoded corrections
    (out ++ out') =
  after_console out
    (correction_loop data_decoded automatic_correction lines alt_data_decoded
       corrections out').
Proof.
  induction lines as [|line lines IH]; intros alt corrections out';
    rewrite !correction_loop_unfold;
    (destruct (validate_data_encode alt); [done|]);
    destruct (identify_encode_error_positions alt) as [printed [positions|e]];
    cbv zeta; rewrite <- ?app_assoc; try done.
  - destruct automatic_correction; [|done].
    by rewrite !app_assoc, <- !(app_assoc out), accept_correction_console.
  - destruct automatic_correction.
    { by rewrite !app_assoc, <- !(app_assoc out), accept_correction_console. }
    rewrite !app_assoc, <- !(app_assoc out).
    case_bool_decide; [apply accept_correction_console|].
    destruct (validate_data_encode (strip line)); [apply accept_correction_console|].
    apply IH.
Qed.

Lemma read_frame_console preserved_tags automatic_correction c input_file
    corrections lines out out' :
  read_frame preserved_tags automatic_correction c input_file
    (World corrections lines (out ++ out')) =
  after_console out
    (read_frame preserved_tags automatic_correction c input_file
       (World corrections lines out')).
Proof.
  destruct (valid_tag_name (frame_tag_name input_file)) eqn:Hvalid.
  - rewrite !read_frame_valid by done. unfold logged, after_console.
    cbn [accepted_corrections stdin stdout fst snd].
    case_bool_decide; [by rewrite <- app_assoc|].
    destruct (is_unicode _); [|by rewrite <- !app_assoc].
    destruct (utf_16 _) as [data_decoded|]; [|by rewrite <- app_assoc].
    unfold transcode. cbn [accepted_corrections stdin stdout].
    rewrite <- app_assoc, correction_loop_console.
    destruct (correction_loop _ _ _ _ _ _) as [[data_encoded|e] w1];
      unfold after_console; cbn [accepted_corrections stdin stdout fst snd];
      [by rewrite <- app_assoc | done].
  - unfold frame_tag_name in Hvalid. rewrite !read_frame_invalid by done.
    unfold logged, after_console. cbn [accepted_corrections stdin stdout fst snd].
    by rewrite <- app_assoc.
Qed.

Lemma read_frames_console fuel preserved_tags automatic_correction out :
  forall c input_file corrections lines out',
  read_frames fuel preserved_tags automatic_correction c input_file
    (World corrections lines (out ++ out')) =
  option_map (after_console out)
    (read_frames fuel preserved_tags automatic_correction c input_file
       (World corrections lines out')).
Proof.
  induction fuel as [|fuel IH]; intros c input_file corrections lines out'; [done|].
  cbn [read_frames]. rewrite read_frame_console.
  destruct (read_frame _ _ _ _ _) as [[[c1|c1 input_file1]|e] [corrections1 lines1 out1]];
    unfold after_console; cbn [accepted_corrections stdin stdout fst snd option_map];
    [done | apply IH | done].
Qed.

Lemma read_id3_console input_file preserved_tags automatic_correction corrections
    lines out :
  read_id3 input_file preserved_tags automatic_correction
    (World corrections lines out) =
  option_map (after_console out)
    (read_id3 input_file preserved_tags automatic_correction
       (World corrections lines [])).
Proof.
  unfold read_id3. cbn [print_log_lines accepted_corrections stdin stdout app].
  destruct (synchsafe_decode _) as [id3_size|]; [|done].
  case_bool_decide; [by rewrite <- app_assoc|].
  rewrite <- app_assoc. apply (read_frames_console _ _ _ out).
Qed.

(** ** The loop over the input files *)

Lemma assemble_frames_raises frs :
  forall assembled_frames e,
  assemble_frames assembled_frames frs = Raise e -> e <> EOFError.
Proof.
  induction frs as [|fr frs IH]; intros assembled e; cbn [assemble_frames];
    [discriminate|].
  destruct (assemble_frame assembled fr) as [assembled'|e'] eqn:Hround; [apply IH|].
  intros [= <-]. revert Hround. unfold assemble_frame, encode_iso, to_bytes_big.
  repeat case_match; intros; simplify_eq; done.
Qed.

(** Whatever [write_id3] raises, it is not EOFError. *)
Lemma write_id3_raises fs input_path output_path c :
  match write_id3 fs input_path output_path c with
  | NotOpened e | Truncated _ e => e <> EOFError
  | Written _ => True
  end.
Proof.
  unfold write_id3.
  destruct (assemble_frames [] (frames c)) as [assembled|e] eqn:Hasm.
  - cbv zeta. destruct (synchsafe_encode _) as [size_bytes|e] eqn:Hsize.
    + by destruct (reopened _ _ _ _).
    + apply synchsafe_encode_raise_inv in Hsize as [_ ->]. done.
  - by apply assemble_frames_raises in Hasm.
Qed.

Lemma written_files_raises fs input_path output_path c :
  (written_files fs input_path output_path c).1 <> Raise EOFError.
Proof.
  unfold written_files.
  pose proof (write_id3_raises fs input_path output_path c) as Hraises.
  destruct (write_id3 fs input_path output_path c) as [e|written e|content];
    cbn [fst]; [by intros [= ->] | by intros [= ->] | done].
Qed.

Lemma unattended_trans {A B} s (r1 : result A) s1 (x : result B * session) :
  unattended s (r1, s1) -> unattended s1 x -> unattended s x.
Proof.
  intros (Hin1 & (p1 & Hout1 & Hall1) & _) (Hin2 & (p2 & Hout2 & Hall2) & Hr).
  cbn [fst snd] in *. split; [congruence|]. split; [|done].
  exists (p1 ++ p2). split; [by rewrite Hout2, Hout1, <- app_assoc|].
  by apply Forall_app_2.
Qed.

Lemma write_id3_file_unattended input_path output_dir_path c s :
  unattended s (write_id3_file input_path output_dir_path c true s).
Proof.
  destruct (write_id3_file_unasked input_path output_dir_path c true s)
    as (fs & _ & ->); [by left|].
  split; [done|]. split; [|apply written_files_raises].
  exists [LogOutputPath]. split; [done|]. by repeat constructor.
Qed.

Lemma read_id3_file_unattended input_path preserved_tags s :
  exists x,
    read_id3_file input_path preserved_tags true s = Some x /\ unattended s x /\
    files x.2 = files s.
Proof.
  unfold read_id3_file. destruct (files s !! realpath input_path) as [input_file|].
  - destruct (read_id3_total input_file preserved_tags true
                (World (cache s) (keyboard s) [])) as (r & w & Hread).
    rewrite Hread. eexists. split; [done|]. split; [|done].
    apply read_id3_asks_nothing in Hread as (Hin & (printed & Hout) & Hr).
    cbn [stdin stdout app fst snd] in *. split; [done|]. split; [|done].
    exists (map Parser (map Printed printed)). cbn [snd absorb console].
    rewrite Hout. split; [done|].
    apply Forall_map, Forall_map, Forall_forall. intros line _. cbn. by split.
  - eexists. split; [done|]. split; [|done]. split; [done|]. split; [|done].
    exists [Parser (Printed LogInputPath)]. split; [done|]. by repeat constructor.
Qed.

Lemma retroencode_unattended inputs output_dir_path preserved_tags :
  forall s,
  exists x,
    retroencode inputs output_dir_path preserved_tags true true s = Some x /\
    unattended s x.
Proof.
  induction inputs as [|input_path inputs IH]; intros s; cbn [retroencode].
  - eexists. split; [done|]. split; [done|]. split; [|done].
    exists []. by rewrite app_nil_r.
  - destruct (read_id3_file_unattended input_path preserved_tags s)
      as ([r s0] & -> & Hparsed & _).
    destruct r as [c|e].
    2: { destruct Hparsed as (Hin & Hout & Hr). eexists. split; [done|].
         split; [done|]. split; [done|]. cbn [fst] in *. intros [= ->]. by apply Hr. }
    pose proof (write_id3_file_unattended input_path output_dir_path c s0) as Hwritten.
    destruct (write_id3_file input_path output_dir_path c true s0) as [[[]|e] s1].
    + destruct (IH s1) as (x & Hrun & Hrest). exists x. split; [done|].
      eapply unattended_trans; [exact Hparsed|].
      by eapply unattended_trans.
    + eexists. split; [done|].
      eapply unattended_trans; [exact Hparsed|]. done.
Qed.

(** X24. With the automatic policy and with overwriting allowed beforehand, a
    run needs no operator: whatever the action, the input paths, the output
    directory, the cache and the files, [main] comes to an end, reads no line
    of the input, asks neither about a correction nor about overwriting, and
    does not end with EOFError. *)
Theorem unattended_run action inputs output preserve s :
  exists x, main action inputs output preserve true true s = Some x /\ unattended s x.
Proof.
  assert (unattended s (Ok tt, noted LogArguments s)) as Hnoted.
  { split; [done|]. split; [|done]. exists [LogArguments]. split; [done|].
    by repeat constructor. }
  unfold main. cbv zeta. case_bool_decide.
  - destruct (retroencode_unattended inputs output preserve (noted LogArguments s))
      as (x & Hrun & Hrest).
    exists x. split; [done|]. by eapply unattended_trans.
  - eexists. split; [done|]. exact Hnoted.
Qed.

Lemma retroencode_app before :
  forall after output_dir_path preserved_tags automatic_correction auto_overwrite s,
  retroencode (before ++ after) output_dir_path preserved_tags automatic_correction
    auto_overwrite s =
  match retroencode before output_dir_path preserved_tags automatic_correction
          auto_overwrite s with
  | Some (Ok _, s1) =>
      retroencode after output_dir_path preserved_tags automatic_correction
        auto_overwrite s1
  | Some (Raise e, s1) => Some (Raise e, s1)
  | None => None
  end.
Proof.
  induction before as [|input before IH]; intros after d p a o s; [done|].
  cbn [app retroencode].
  destruct (read_id3_file _ _ _ _) as [[[c|e] s0]|]; [|done..].
  destruct (write_id3_file _ _ _ _) as [[[]|e] s1]; [apply IH | done].
Qed.

(** [read_id3] on a file without the identifier: it raises, and has only
    printed. *)
Lemma read_id3_invalid_magic input_file preserved_tags automatic_correction w :
  decode_iso (take 3 input_file) <> text "ID3" ->
  exists e printed,
    read_id3 input_file preserved_tags automatic_correction w =
    Some (Raise e, World (accepted_corrections w) (stdin w) (stdout w ++ printed)).
Proof.
  intros Hmagic. unfold read_id3. cbn [print_log_lines].
  rewrite !take_take. change (3 `min` 10)%nat with 3%nat.
  destruct (synchsafe_decode _) as [id3_size|].
  - rewrite bool_decide_eq_true_2 by done.
    cbn [accepted_corrections stdin stdout]. rewrite <- app_assoc. eauto.
  - eauto.
Qed.

(** X25. A file without the ID3 identifier ends the run, and so does an input
    path at which there is no file: when the files in front of it have been
    dealt with, [main]'s loop raises on it, and the files behind it are
    neither read nor written; the files, the cache and the input are as the
    files in front of it left them. *)
Theorem run_stops_at_first_failure before bad after output_dir_path preserved_tags
    automatic_correction auto_overwrite s s1 :
  retroencode before output_dir_path preserved_tags automatic_correction
    auto_overwrite s = Some (Ok tt, s1) ->
  match files s1 !! realpath bad with
  | Some input_file => decode_iso (take 3 input_file) <> text "ID3"
  | None => True
  end ->
  exists e s2,
    retroencode (before ++ bad :: after) output_dir_path preserved_tags
      automatic_correction auto_overwrite s = Some (Raise e, s2) /\
    files s2 = files s1 /\ cache s2 = cache s1 /\
    keyboard s2 = keyboard s1.
Proof.
  intros Hbefore Hmagic. rewrite retroencode_app, Hbefore. cbn [retroencode].
  unfold read_id3_file. destruct (files s1 !! realpath bad) as [input_file|].
  - destruct (read_id3_invalid_magic input_file preserved_tags
                automatic_correction (World (cache s1) (keyboard s1) []) Hmagic)
      as (e & printed & ->).
    by eexists _, _.
  - by eexists _, _.
Qed.

Lemma written_files_done fs input_path output_path c fs' :
  written_files fs input_path output_path c = (Ok tt, fs') ->
  is_Some (fs' !! realpath output_path) /\
  forall path, path <> realpath output_path -> fs' !! path = fs !! path.
Proof.
  unfold written_files.
  destruct (write_id3 fs input_path output_path c) as [e|written e|content];
    [discriminate..|].
  intros [= <-]. split.
  - rewrite lookup_insert_eq. eauto.
  - intros path Hpath. by apply lookup_insert_ne.
Qed.

Lemma write_id3_file_done input_path output_dir_path c auto_overwrite s s' :
  write_id3_file input_path output_dir_path c auto_overwrite s = (Ok tt, s') ->
  is_Some (files s' !! realpath (output_path_of input_path output_dir_path)) /\
  forall path, is_Some (files s !! path) -> is_Some (files s' !! path).
Proof.
  unfold write_id3_file. cbv zeta.
  set (output_path := output_path_of input_path output_dir_path).
  assert (forall fs corrections lines printed,
            fs = files s \/ fs = delete (realpath output_path) (files s) ->
            match written_files fs input_path output_path c with
            | (r, fs') => (r, Session corrections lines printed fs')
            end = (Ok tt, s') ->
            is_Some (files s' !! realpath output_path) /\
            forall path, is_Some (files s !! path) -> is_Some (files s' !! path))
    as Hwrite.
  { intros fs corrections lines printed Hfs.
    destruct (written_files fs input_path output_path c) as [r fs'] eqn:Hrun.
    intros [= -> <-]. apply written_files_done in Hrun as [Hthis Hothers].
    cbn [files]. split; [done|]. intros path Hpath.
    destruct (decide (path = realpath output_path)) as [->|Hne]; [done|].
    rewrite Hothers by done.
    destruct Hfs as [-> | ->]; [done | by rewrite lookup_delete_ne]. }
  destruct (os_makedirs output_dir_path); [|apply Hwrite; by left].
  destruct (negb auto_overwrite && _) eqn:Hask; [|apply Hwrite; by right].
  cbn [noted cache keyboard console files] in *.
  destruct (yes_no _ _) as [[[[|]|e] lines] console'];
    [apply Hwrite; by right| |discriminate].
  intros [= <-]. cbn [noted files].
  apply andb_prop in Hask as [_ Hexists]. apply bool_decide_eq_true in Hexists.
  done.
Qed.

Lemma read_id3_file_files input_path preserved_tags automatic_correction s r s' :
  read_id3_file input_path preserved_tags automatic_correction s = Some (r, s') ->
  files s' = files s /\
  (forall c, r = Ok c -> is_Some (files s !! realpath input_path)).
Proof.
  unfold read_id3_file. destruct (files s !! realpath input_path) as [input_file|].
  - destruct (read_id3 _ _ _ _) as [[r0 w]|]; [|discriminate].
    intros [= <- <-]. split; [done|]. eauto.
  - intros [= <- <-]. split; [done|]. discriminate.
Qed.

(** X26. When the loop of [main] ends without an exception, there was a file
    at every input path and there is a file at the output path of every
    input path, the one that was written or the one that the operator wanted
    kept; and at every path at which there was a file before, there still is
    one. *)
Theorem every_input_has_an_output inputs output_dir_path preserved_tags
    automatic_correction auto_overwrite :
  forall s s',
  retroencode inputs output_dir_path preserved_tags automatic_correction
    auto_overwrite s = Some (Ok tt, s') ->
  (forall input_path,
     input_path ∈ inputs ->
     is_Some (files s' !! realpath (output_path_of input_path output_dir_path)) /\
     is_Some (files s' !! realpath input_path)) /\
  (forall path, is_Some (files s !! path) -> is_Some (files s' !! path)).
Proof.
  induction inputs as [|input_path inputs IH]; intros s s'; cbn [retroencode].
  - intros [= <-]. split; [|done]. intros input Hin. by apply elem_of_nil in Hin.
  - destruct (read_id3_file _ _ _ _) as [[[c|e] s0]|] eqn:Hread; [|discriminate..].
    apply read_id3_file_files in Hread as [Hfiles Hinput].
    destruct (write_id3_file _ _ _ _) as [[[]|e] s1] eqn:Hwrite; [|discriminate].
    apply write_id3_file_done in Hwrite as [Hthis Hkept]. rewrite Hfiles in Hkept.
    intros Hrest. apply IH in Hrest as [Hothers Hkept']. split.
    + intros input' [->|Hin]%elem_of_cons; [|by auto].
      split; [by auto|]. apply Hkept', Hkept. by eapply Hinput.
    + auto.
Qed.

End Retroencoder.

(** ** The sample codecs meet the contracts *)

Lemma shift_jis_one_byte_ascii c :
  c < 128 -> exists bs, shift_jis_one_byte c = Encoded bs.
Proof.
  intros Hc. unfold shift_jis_one_byte.
  destruct (N.ltb_spec c 128); [eauto | lia].
Qed.

Lemma shift_jis_one_byte_never_fails c k : shift_jis_one_byte c <> Failed k.
Proof. unfold shift_jis_one_byte. repeat case_match; discriminate. Qed.

Lemma unidecode_sample_ascii c : Forall (fun d => d < 128) (unidecode_sample c).
Proof.
  unfold unidecode_sample.
  destruct (N.ltb_spec c 128); [by repeat constructor|].
  repeat case_match; by repeat constructor.
Qed.

Lemma cached_world_valid :
  corrections_valid shift_jis_one_byte (accepted_corrections cached_world).
Proof.
  intros data_decoded correction Hcached. cbn [cached_world accepted_corrections] in Hcached.
  apply lookup_singleton_Some in Hcached as [_ <-]. reflexivity.
Qed.

(** The cache is valid when a run starts. *)
Lemma fresh_world_valid shift_jis :
  corrections_valid shift_jis (accepted_corrections fresh_world).
Proof. intros data_decoded correction Hcached. discriminate Hcached. Qed.

(** What the sample encoder produces has the byte structure of Shift-JIS,
    and so has every payload that the transcoder builds with it. *)
Lemma shift_jis_one_byte_well_formed data bs :
  encode_shift_jis shift_jis_one_byte data = Ok bs ->
  forall rest, shift_jis_well_formed (bs ++ rest) = shift_jis_well_formed rest.
Proof.
  revert bs. induction data as [|c data IH]; intros bs; cbn [encode_shift_jis].
  - by intros [= <-].
  - destruct (shift_jis_one_byte c) as [unit| |code] eqn:Hc; [|discriminate..].
    destruct (encode_shift_jis shift_jis_one_byte data) as [bs'|e]; [|discriminate].
    intros [= <-] rest. rewrite <- app_assoc, <- (IH bs' eq_refl rest).
    generalize (bs' ++ rest). intros l. clear IH.
    unfold shift_jis_one_byte in Hc.
    assert (forall n, n < 128 \/ 161 <= n <= 223 ->
              shift_jis_well_formed ([byte_of_N n] ++ l) = shift_jis_well_formed l)
      as Hunit.
    { intros n Hn. cbn [app shift_jis_well_formed]. rewrite to_N_byte_of_N by lia.
      cbv zeta.
      destruct (N.ltb_spec n 128); [done|].
      destruct (N.leb_spec 161 n); [|lia]. destruct (N.leb_spec n 223); [done | lia]. }
    destruct (N.ltb_spec c 128); [simplify_eq; apply Hunit; lia|].
    destruct (N.eqb_spec c 165); [by simplify_eq|].
    destruct (N.eqb_spec c 8254); [by simplify_eq|].
    destruct (N.leb_spec 65377 c); [|discriminate].
    destruct (N.leb_spec c 65439); [|discriminate].
    cbn [andb] in Hc. simplify_eq. apply Hunit. lia.
Qed.

Lemma transcoded_payload_well_formed data payload :
  encode_data shift_jis_one_byte data = Ok payload ->
  shift_jis_well_formed payload = true.
Proof.
  unfold encode_data.
  destruct (encode_shift_jis shift_jis_one_byte data) as [bs|e] eqn:Hbs; [|discriminate].
  intros [= <-]. cbn [shift_jis_well_formed]. change (Byte.to_N x00) with 0.
  cbv zeta. cbn [N.ltb N.compare orb].
  by rewrite (shift_jis_one_byte_well_formed _ _ Hbs).
Qed.

(** ** The claims on sample inputs *)


Lemma preservation_filter_witness :
  Forall (fun fr => tag fr ∈ [text "TIT2"]) (frames cafe_container).
Proof.
  apply Forall_forall.
  apply (proj1 (preservation_filter shift_jis_one_byte utf_16_decode
                  unidecode_sample [text "TIT2"] true)
           cafe_file fresh_world cafe_container cafe_world).
  vm_compute. reflexivity.
Defined.

Lemma invalid_magic_witness :
  read_id3 shift_jis_one_byte utf_16_decode unidecode_sample riff_file
    [text "TIT2"] false fresh_world =
  Some (Raise TypeError, logged LogHeader (logged LogInputPath fresh_world)) /\
  read_id3 shift_jis_one_byte utf_16_decode unidecode_sample flac_file
    [text "TIT2"] false fresh_world =
  Some (Raise ValueError, logged LogInputPath fresh_world).
Proof.
  split.
  - apply (invalid_magic shift_jis_one_byte utf_16_decode unidecode_sample riff_file).
    + vm_compute. discriminate.
    + cbn. lia.
  - apply (invalid_magic shift_jis_one_byte utf_16_decode unidecode_sample flac_file).
    + vm_compute. discriminate.
    + cbn. lia.
Defined.

(** A file without the identifier, read as it is: the header line has been
    printed, no frame has been looked at. *)
Example riff_read :
  read_id3 shift_jis_one_byte utf_16_decode unidecode_sample riff_file
    [text "TIT2"] true fresh_world =
  Some (Raise TypeError, World ∅ [] [Printed LogInputPath; Printed LogHeader]).
Proof. reflexivity. Qed.




Lemma oversize_payload_length : length oversize_payload = N.to_nat 268435456.
Proof. rewrite oversize_payload_eq. apply length_replicate. Qed.



Lemma frame_payloads_witness :
  Forall2
    (fun fr record =>
       if is_unicode (frame_data_raw record)
       then data_was_converted fr = true /\
            exists working_text bs,
              validate_data_encode shift_jis_one_byte working_text = true /\
              encode_shift_jis shift_jis_one_byte working_text = Ok bs /\
              data fr = x00 :: bs ++ [x00]
       else data_was_converted fr = false /\ data fr = frame_data_raw record)
    (frames cafe_container)
    (filter (fun record => frame_tag_name record ∈ [text "TIT2"])
       (records_of (drop 10 cafe_file))) /\
  Forall
    (fun fr =>
       if data_was_converted fr
       then exists working_text bs,
              validate_data_encode shift_jis_one_byte working_text = true /\
              encode_shift_jis shift_jis_one_byte working_text = Ok bs /\
              data fr = x00 :: bs ++ [x00]
       else exists k n, data fr = take n (drop k cafe_file))
    (frames cafe_container).
Proof.
  apply (frame_payloads shift_jis_one_byte utf_16_decode unidecode_sample
           cafe_file [text "TIT2"] true fresh_world cafe_container cafe_world).
  vm_compute. reflexivity.
Defined.

(** C3, as stated, fails on a frame that is not Unicode: its bytes go into
    the container as they are. Here they hold ["café"] in ISO-8859-1, and the
    byte of the accented letter followed by a zero byte is not Shift-JIS. *)
Lemma frame_payload_counterexample :
  read_id3 shift_jis_one_byte utf_16_decode unidecode_sample iso_cafe_file
    [text "TIT2"] false fresh_world =
  Some (Ok (Container (ascii_bytes "ID3" ++ [x04; x00; x00]) [iso_cafe_frame] 26),
        logged LogInvalidNextHeader
          (logged LogResult
             (logged LogFrame (logged LogHeader (logged LogInputPath fresh_world))))) /\
  data iso_cafe_frame = [x00; x63; x61; x66; xe9; x00] /\
  shift_jis_well_formed (data iso_cafe_frame) = false.
Proof. split; [reflexivity|]. split; reflexivity. Qed.

Lemma correction_caching_witness :
  (exists data_encoded,
     encode_data shift_jis_one_byte cafe_plain = Ok data_encoded /\
     read_frame shift_jis_one_byte utf_16_decode unidecode_sample [text "TIT2"] false
       (Container (ascii_bytes "ID3" ++ [x04; x00; x00]) [] 50) cafe_tit2_record
       cached_world =
     (Ok (Continue
            (append_frame (Container (ascii_bytes "ID3" ++ [x04; x00; x00]) [] 50)
               (Frame (frame_tag_name cafe_tit2_record)
                  (frame_data_flags cafe_tit2_record) data_encoded true))
            (frame_rest cafe_tit2_record)),
      logged LogResult (logged LogFrame cached_world))) /\
  (exists correction data_encoded,
     accepted_corrections cafe_round_world !! cafe_accent = Some correction /\
     encode_data shift_jis_one_byte correction = Ok data_encoded /\
     read_frame shift_jis_one_byte utf_16_decode unidecode_sample [text "TIT2"] false
       cafe_container cafe_tit2_record cafe_round_world =
     (Ok (Continue
            (append_frame cafe_container
               (Frame (frame_tag_name cafe_tit2_record)
                  (frame_data_flags cafe_tit2_record) data_encoded true))
            (frame_rest cafe_tit2_record)),
      logged LogResult (logged LogFrame cafe_round_world))).
Proof.
  split.
  - apply (proj1 (correction_caching shift_jis_one_byte utf_16_decode unidecode_sample
                    cached_world cached_world_valid)
             [text "TIT2"] false _ cafe_tit2_record cafe_accent cafe_plain).
    + reflexivity.
    + vm_compute. apply list_elem_of_here.
    + reflexivity.
    + reflexivity.
    + reflexivity.
  - destruct (proj2 (proj2 (proj2 (proj2
                (correction_caching shift_jis_one_byte utf_16_decode unidecode_sample
                   fresh_world (fresh_world_valid shift_jis_one_byte)))))
                [text "TIT2"] true (Container (ascii_bytes "ID3" ++ [x04; x00; x00]) [] 50)
                cafe_tit2_record cafe_accent cafe_container (frame_rest cafe_tit2_record)
                cafe_round_world)
      as (correction & data_encoded & Hstored & Henc & _ & Hlater).
    + reflexivity.
    + vm_compute. apply list_elem_of_here.
    + reflexivity.
    + reflexivity.
    + reflexivity.
    + reflexivity.
    + vm_compute. reflexivity.
    + exists correction, data_encoded. split; [exact Hstored|]. split; [exact Henc|].
      apply Hlater.
      * exact cached_world_valid.
      * exact Hstored.
      * reflexivity.
      * vm_compute. apply list_elem_of_here.
      * reflexivity.
      * reflexivity.
Defined.

Lemma unexpected_encode_failure_witness :
  identify_encode_error_positions shift_jis_failing cafe_accent =
    ([], Raise (NameError "data_raw")) /\
  correction_loop shift_jis_failing unidecode_sample cafe_accent true [] cafe_accent
    ∅ [] =
    (Raise (NameError "data_raw"), World ∅ [] []).
Proof.
  apply (unexpected_encode_failure shift_jis_failing unidecode_sample cafe_accent true []
           [99; 97; 102] 233 [] 0 ∅ []).
  - repeat constructor; discriminate.
  - reflexivity.
Defined.

Lemma automatic_correction_one_round_witness :
  exists positions data_encoded,
    identify_encode_error_positions shift_jis_one_byte cafe_accent = ([], Ok positions) /\
    encode_data shift_jis_one_byte
      (suggest_data_changes unidecode_sample cafe_accent positions) = Ok data_encoded /\
    (validate_data_encode shift_jis_one_byte cafe_accent = false ->
     correction_loop shift_jis_one_byte unidecode_sample cafe_accent true [] cafe_accent
       ∅ [] =
     (Ok data_encoded,
      World
        (<[cafe_accent := suggest_data_changes unidecode_sample cafe_accent positions]> ∅)
        [] ([] ++ [Printed LogEncodingError]))) /\
    (validate_data_encode shift_jis_one_byte cafe_accent = true ->
     correction_loop shift_jis_one_byte unidecode_sample cafe_accent true [] cafe_accent
       ∅ [] =
     (encode_data shift_jis_one_byte cafe_accent, World ∅ [] [])).
Proof.
  apply (automatic_correction_one_round shift_jis_one_byte unidecode_sample
           shift_jis_one_byte_ascii unidecode_sample_ascii).
  apply Forall_forall. intros c _ k. apply shift_jis_one_byte_never_fails.
Defined.

(** The scenario of the specification: ["café"] in a Unicode [TIT2] frame is
    corrected to ["cafe"], the [COMM] frame is dropped, the audio is kept. *)
Example cafe_read :
  read_id3 shift_jis_one_byte utf_16_decode unidecode_sample cafe_file [text "TIT2"]
    true fresh_world = Some (Ok cafe_container, cafe_world).
Proof. vm_compute. reflexivity. Qed.

Example cafe_write :
  write_id3 plain_path held_in_buffer cafe_files cafe_path retro_path cafe_container =
  Written
    (ascii_bytes "ID3" ++ [x04; x00; x00] ++ [x00; x00; x00; x30]
     ++ ascii_bytes "TIT2" ++ [x00; x00; x00; x06] ++ [x00; x00]
     ++ x00 :: ascii_bytes "cafe" ++ [x00]
     ++ replicate 32 x00
     ++ [xff; xfb; x90; x00]).
Proof. vm_compute. reflexivity. Qed.

(** A frame named with digits is a frame like any other. *)
Example digits_tag_read :
  read_id3 shift_jis_one_byte utf_16_decode unidecode_sample digits_file
    [text "1234"] false fresh_world =
  Some (Ok (Container (ascii_bytes "ID3" ++ [x04; x00; x00])
              [Frame (text "1234") [x00; x00] [x00; x68; x69; x00] false] 24),
        logged LogInvalidNextHeader
          (logged LogResult
             (logged LogFrame (logged LogHeader (logged LogInputPath fresh_world))))).
Proof. vm_compute. reflexivity. Qed.

(** Two files in one run under the interactive policy. The operator answers
    the question about ["café"] once, with [" kafe "]; the second file asks
    nothing, although no input is left, and gets the same payload. *)
Example kafe_first_file :
  read_id3 shift_jis_one_byte utf_16_decode unidecode_sample cafe_file [text "TIT2"]
    false (World ∅ [text " kafe "] []) =
  Some (Ok (Container (ascii_bytes "ID3" ++ [x04; x00; x00])
              [Frame (text "TIT2") [x00; x00] (x00 :: ascii_bytes "kafe" ++ [x00]) true]
              50),
        kafe_world).
Proof. vm_compute. reflexivity. Qed.

Example kafe_second_file :
  read_id3 shift_jis_one_byte utf_16_decode unidecode_sample cafe_file [text "TIT2"]
    false kafe_world =
  Some (Ok (Container (ascii_bytes "ID3" ++ [x04; x00; x00])
              [Frame (text "TIT2") [x00; x00] (x00 :: ascii_bytes "kafe" ++ [x00]) true]
              50),
        World {[ cafe_accent := text "kafe" ]} []
          (stdout kafe_world
             ++ [Printed LogInputPath; Printed LogHeader; Printed LogSkippedTag;
                 Printed LogFrame; Printed LogResult; Printed LogInvalidNextHeader])).
Proof. vm_compute. reflexivity. Qed.

(** Without a cached correction and without input, the question ends the
    run. *)
Example cafe_end_of_input :
  read_id3 shift_jis_one_byte utf_16_decode unidecode_sample cafe_file [text "TIT2"]
    false fresh_world =
  Some (Raise EOFError,
        World ∅ []
          [Printed LogInputPath; Printed LogHeader; Printed LogSkippedTag;
           Printed LogFrame; Printed LogEncodingError; Prompted]).
Proof. vm_compute. reflexivity. Qed.

(** ** The further properties on sample inputs *)

Lemma error_positions_exact_witness :
  exists positions,
    identify_encode_error_positions shift_jis_one_byte cafe_accent = ([], Ok positions) /\
    StronglySorted lt positions /\
    forall i, i ∈ positions <->
      exists char, cafe_accent !! i = Some char /\ shift_jis_one_byte char = Unencodable.
Proof.
  apply (error_positions_exact shift_jis_one_byte cafe_accent).
  apply Forall_forall. intros c _ k. apply shift_jis_one_byte_never_fails.
Defined.

Lemma suggestion_by_character_witness :
  suggest_data_changes unidecode_sample cafe_accent [3%nat] =
    concat (map (fun char =>
                   if unencodable shift_jis_one_byte char
                   then replacement unidecode_sample char else [char]) cafe_accent) /\
  ([3%nat] = [] -> suggest_data_changes unidecode_sample cafe_accent [3%nat] = cafe_accent).
Proof.
  apply (suggestion_by_character shift_jis_one_byte unidecode_sample cafe_accent [3%nat]).
  reflexivity.
Defined.

Lemma correction_loop_outcome_witness :
  if validate_data_encode shift_jis_one_byte cafe_accent then
    encode_data shift_jis_one_byte cafe_accent = Ok (x00 :: ascii_bytes "cafe" ++ [x00]) /\
    World {[ cafe_accent := cafe_plain ]} [] [Printed LogEncodingError] = World ∅ [] []
  else
    exists correction,
      encode_data shift_jis_one_byte correction = Ok (x00 :: ascii_bytes "cafe" ++ [x00]) /\
      accepted_corrections (World {[ cafe_accent := cafe_plain ]} [] [Printed LogEncodingError])
      = <[cafe_accent := correction]> ∅.
Proof.
  apply (correction_loop_outcome shift_jis_one_byte unidecode_sample cafe_accent true []
           cafe_accent ∅ [] (Ok (x00 :: ascii_bytes "cafe" ++ [x00]))
           (World {[ cafe_accent := cafe_plain ]} [] [Printed LogEncodingError])).
  vm_compute. reflexivity.
Defined.

Lemma answer_to_the_question_witness :
  (Forall (fun c => isspace c = true) (text "  ") ->
   correction_loop shift_jis_one_byte unidecode_sample cafe_accent false
     [text "  "] cafe_accent ∅ [] =
   accept_correction shift_jis_one_byte cafe_accent
     (suggest_data_changes unidecode_sample cafe_accent [3%nat])
     (World ∅ [] ([] ++ [Printed LogEncodingError; Prompted]))) /\
  (forall data_encoded,
   Exists (fun c => isspace c = false) (text "  ") ->
   encode_data shift_jis_one_byte (strip (text "  ")) = Ok data_encoded ->
   correction_loop shift_jis_one_byte unidecode_sample cafe_accent false
     [text "  "] cafe_accent ∅ [] =
   (Ok data_encoded,
    World (<[cafe_accent := strip (text "  ")]> ∅) []
      ([] ++ [Printed LogEncodingError; Prompted]))).
Proof.
  apply (answer_to_the_question shift_jis_one_byte unidecode_sample cafe_accent
           (text "  ") [] cafe_accent ∅ [] [3%nat]).
  - reflexivity.
  - reflexivity.
Defined.

Lemma rejected_answers_end_of_input_witness :
  correction_loop shift_jis_one_byte unidecode_sample cafe_accent false
    [cafe_accent] cafe_accent ∅ [] =
  (Raise EOFError,
   World ∅ []
     ([] ++ concat (replicate (S (length [cafe_accent]))
                      [Printed LogEncodingError; Prompted]))).
Proof.
  apply (rejected_answers_end_of_input shift_jis_one_byte unidecode_sample cafe_accent
           [cafe_accent] cafe_accent ∅ []).
  - reflexivity.
  - apply Forall_forall. intros c _ k. apply shift_jis_one_byte_never_fails.
  - repeat constructor; try discriminate.
Defined.

Lemma blank_answer_ends_loop_witness :
  exists positions data_encoded,
    identify_encode_error_positions shift_jis_one_byte cafe_accent = ([], Ok positions) /\
    encode_data shift_jis_one_byte
      (suggest_data_changes unidecode_sample cafe_accent positions) = Ok data_encoded /\
    correction_loop shift_jis_one_byte unidecode_sample cafe_accent false
      [text "  "] cafe_accent ∅ [] =
    (Ok data_encoded,
     World (<[cafe_accent := suggest_data_changes unidecode_sample cafe_accent positions]> ∅)
       [] ([] ++ [Printed LogEncodingError; Prompted])).
Proof.
  apply (blank_answer_ends_loop shift_jis_one_byte unidecode_sample
           shift_jis_one_byte_ascii unidecode_sample_ascii cafe_accent (text "  ") []
           cafe_accent ∅ []).
  - apply Forall_forall. intros c _ k. apply shift_jis_one_byte_never_fails.
  - reflexivity.
  - repeat constructor.
Defined.

Lemma undecodable_frame_witness :
  read_frames shift_jis_one_byte utf_16_decode unidecode_sample 1 [text "TIT2"] false
    cafe_container odd_record fresh_world =
  if bool_decide (frame_tag_name odd_record ∈ [text "TIT2"])
  then Some (Raise UnicodeDecodeError, logged LogFatalDecodingError fresh_world)
  else read_frames shift_jis_one_byte utf_16_decode unidecode_sample 0 [text "TIT2"]
         false cafe_container (frame_rest odd_record)
         (logged LogSkippedTag fresh_world).
Proof.
  apply (undecodable_frame shift_jis_one_byte utf_16_decode unidecode_sample
           [text "TIT2"] false cafe_container odd_record fresh_world 0).
  - reflexivity.
  - reflexivity.
  - reflexivity.
Defined.

Lemma frames_in_file_order_witness :
  Forall2 frame_of_record (frames cafe_container)
    (filter (fun record => frame_tag_name record ∈ [text "TIT2"])
       (records_of (drop 10 cafe_file))).
Proof.
  apply (frames_in_file_order shift_jis_one_byte utf_16_decode unidecode_sample
           cafe_file [text "TIT2"] true fresh_world cafe_container cafe_world).
  vm_compute. reflexivity.
Defined.

Lemma automatic_policy_asks_nothing_witness :
  asks_nothing fresh_world (Ok cafe_container, cafe_world).
Proof.
  apply (automatic_policy_asks_nothing shift_jis_one_byte utf_16_decode unidecode_sample
           cafe_file [text "TIT2"] fresh_world (Ok cafe_container, cafe_world)).
  vm_compute. reflexivity.
Defined.

Lemma declared_size_sets_offset_only_witness :
  without_content_offset
    (read_id3 shift_jis_one_byte utf_16_decode unidecode_sample
       ((ascii_bytes "ID3" ++ [x04; x00; x00]) ++ [x00; x00; x00; x28]
          ++ drop 10 cafe_file)
       [text "TIT2"] true fresh_world) =
  without_content_offset
    (read_id3 shift_jis_one_byte utf_16_decode unidecode_sample
       ((ascii_bytes "ID3" ++ [x04; x00; x00]) ++ [x00; x00; x00; x00]
          ++ drop 10 cafe_file)
       [text "TIT2"] true fresh_world).
Proof.
  apply (declared_size_sets_offset_only shift_jis_one_byte utf_16_decode unidecode_sample
           (ascii_bytes "ID3" ++ [x04; x00; x00]) [x00; x00; x00; x28]
           [x00; x00; x00; x00] (drop 10 cafe_file) [text "TIT2"] true fresh_world).
  - reflexivity.
  - reflexivity.
  - reflexivity.
Defined.

Lemma short_file_raises_value_error_witness :
  read_id3 shift_jis_one_byte utf_16_decode unidecode_sample flac_file [text "TIT2"]
    false fresh_world =
  Some (Raise ValueError, logged LogInputPath fresh_world).
Proof.
  apply (short_file_raises_value_error shift_jis_one_byte utf_16_decode unidecode_sample
           flac_file [text "TIT2"] false fresh_world).
  vm_compute. lia.
Defined.

Lemma short_payload_is_kept_witness :
  read_frames shift_jis_one_byte utf_16_decode unidecode_sample 2 [text "TIT2"] false
    cafe_container cut_payload_record fresh_world =
  Some (Ok (append_frame cafe_container
              (Frame (frame_tag_name cut_payload_record)
                 (frame_data_flags cut_payload_record)
                 (drop 10 cut_payload_record) false)),
        logged LogInvalidNextHeader (logged LogResult (logged LogFrame fresh_world))).
Proof.
  apply (short_payload_is_kept shift_jis_one_byte utf_16_decode unidecode_sample
           [text "TIT2"] false cafe_container cut_payload_record fresh_world 0).
  - reflexivity.
  - vm_compute. apply list_elem_of_here.
  - reflexivity.
  - vm_compute. lia.
Defined.

Lemma written_file_reads_back_witness :
  exists c' w',
    read_id3 shift_jis_one_byte utf_16_decode unidecode_sample cafe_output
      [text "TIT2"] false fresh_world = Some (Ok c', w') /\
    header c' = header cafe_container /\
    frames c' = map as_read (frames cafe_container) /\
    content_offset c' = 10 + N.of_nat (length (frame_block cafe_container)) /\
    accepted_corrections w' = accepted_corrections fresh_world /\
    stdin w' = stdin fresh_world /\
    forall fs' input_path' output_path',
      fs' !! plain_path input_path' = Some cafe_output ->
      plain_path input_path' <> plain_path output_path' ->
      write_id3 plain_path held_in_buffer fs' input_path' output_path' c' =
      Written cafe_output.
Proof.
  apply (written_file_reads_back plain_path held_in_buffer shift_jis_one_byte
           utf_16_decode unidecode_sample cafe_files cafe_path retro_path
           cafe_container cafe_output [text "TIT2"] false fresh_world).
  - reflexivity.
  - reflexivity.
  - repeat constructor.
  - vm_compute. reflexivity.
Defined.

Lemma parsed_container_reads_back_witness :
  length (header cafe_container) = 6%nat /\
  decode_iso (take 3 (header cafe_container)) = text "ID3" /\
  Forall (fun fr =>
            length (tag fr) = 4%nat /\ is_unicode (data fr) = false /\
            (length (data_flags fr) = 2%nat -> reads_back [text "TIT2"] fr))
    (frames cafe_container).
Proof.
  apply (parsed_container_reads_back shift_jis_one_byte utf_16_decode unidecode_sample
           cafe_file [text "TIT2"] true fresh_world cafe_container cafe_world).
  vm_compute. reflexivity.
Defined.

Lemma yes_no_answer_witness :
  (says_yes (text " Y ") ->
   yes_no ([text "maybe"] ++ text " Y " :: []) [] =
   (Ok true, [], [] ++ replicate (S (length [text "maybe"])) AskedOverwrite)) /\
  (says_no (text " Y ") ->
   yes_no ([text "maybe"] ++ text " Y " :: []) [] =
   (Ok false, [], [] ++ replicate (S (length [text "maybe"])) AskedOverwrite)).
Proof.
  apply (yes_no_answer [text "maybe"] (text " Y ") [] []).
  repeat constructor; intros [H|H]; vm_compute in H; discriminate H.
Defined.

Lemma yes_no_end_of_input_witness :
  yes_no [text "maybe"] [] =
  (Raise EOFError, [], [] ++ replicate (S (length [text "maybe"])) AskedOverwrite).
Proof.
  apply (yes_no_end_of_input [text "maybe"] []).
  repeat constructor; intros [H|H]; vm_compute in H; discriminate H.
Defined.

Lemma declined_overwrite_witness :
  write_id3_file plain_path held_in_buffer cafe_path (text "retro") cafe_container
    false taken_session =
  (Ok tt,
   Session (cache taken_session) [text "y"]
     (console taken_session ++ [LogOutputPath]
        ++ replicate (S (length [text "maybe"])) AskedOverwrite ++ [LogFileSkipped])
     (files taken_session)).
Proof.
  apply (declined_overwrite plain_path held_in_buffer cafe_path (text "retro")
           cafe_container taken_session [text "maybe"] (text "n") [text "y"]).
  - discriminate.
  - vm_compute. eauto.
  - reflexivity.
  - repeat constructor; intros [H|H]; vm_compute in H; discriminate H.
  - left. reflexivity.
Defined.

Lemma overwrite_outcome_witness :
  (exists size_bytes,
     synchsafe_encode (N.of_nat (length (frame_block cafe_container))) = Ok size_bytes /\
     write_id3_file plain_path held_in_buffer cafe_path (text "retro") cafe_container
       true fresh_session =
     (Ok tt,
      Session (cache fresh_session) (keyboard fresh_session)
        (console fresh_session ++ [LogOutputPath])
        (<[plain_path (output_path_of cafe_path (text "retro")) :=
             (header cafe_container ++ size_bytes ++ frame_block cafe_container)
               ++ drop (N.to_nat (content_offset cafe_container)) cafe_file]>
           (files fresh_session)))) /\
  (exists size_bytes,
     synchsafe_encode (N.of_nat (length (frame_block cafe_container))) = Ok size_bytes /\
     write_id3_file plain_path held_in_buffer cafe_path (text "music") cafe_container
       true fresh_session =
     (Ok tt,
      Session (cache fresh_session) (keyboard fresh_session)
        (console fresh_session ++ [LogOutputPath])
        (<[plain_path (output_path_of cafe_path (text "music")) :=
             (header cafe_container ++ size_bytes ++ frame_block cafe_container)
               ++ drop (N.to_nat (content_offset cafe_container))
                    (take (held_in_buffer [header cafe_container; size_bytes;
                                           frame_block cafe_container])
                       (header cafe_container ++ size_bytes
                          ++ frame_block cafe_container))]>
           (files fresh_session)))) /\
  write_id3_file plain_path held_in_buffer cafe_path (text "retro") oversize_container
    true fresh_session =
  (Raise OverflowError,
   Session (cache fresh_session) (keyboard fresh_session)
     (console fresh_session ++ [LogOutputPath])
     (<[plain_path (output_path_of cafe_path (text "retro")) :=
          header oversize_container]>
        (files fresh_session))).
Proof.
  split; [|split].
  - destruct (overwrite_outcome plain_path held_in_buffer cafe_path (text "retro")
                cafe_container true fresh_session) as [Hsmall _].
    + repeat constructor.
    + left. reflexivity.
    + destruct Hsmall as (size_bytes & Henc & Hother & _); [vm_compute; reflexivity|].
      exists size_bytes. split; [exact Henc|]. apply Hother.
      * intros Hpath. vm_compute in Hpath. discriminate Hpath.
      * reflexivity.
  - destruct (overwrite_outcome plain_path held_in_buffer cafe_path (text "music")
                cafe_container true fresh_session) as [Hsmall _].
    + repeat constructor.
    + left. reflexivity.
    + destruct Hsmall as (size_bytes & Henc & _ & Hsame & _); [vm_compute; reflexivity|].
      exists size_bytes. split; [exact Henc|]. apply Hsame. reflexivity.
  - apply (overwrite_outcome plain_path held_in_buffer cafe_path (text "retro")
             oversize_container true fresh_session).
    + repeat constructor.
    + left. reflexivity.
    + unfold frame_block, oversize_container. cbn [frames map concat].
      unfold frame_record. cbn [tag data data_flags].
      rewrite !length_app, !Nat2N.inj_add, oversize_payload_length, N2Nat.id.
      vm_compute. discriminate.
    + repeat constructor. cbn [data].
      rewrite oversize_payload_length, N2Nat.id. reflexivity.
Defined.

Lemma run_stops_at_first_failure_witness :
  exists e s2,
    retroencode plain_path held_in_buffer shift_jis_one_byte utf_16_decode
      unidecode_sample ([cafe_path] ++ tone_path :: [cafe_path]) (text "retro")
      [text "TIT2"] true true fresh_session = Some (Raise e, s2) /\
    files s2 = files cafe_session /\ cache s2 = cache cafe_session /\
    keyboard s2 = keyboard cafe_session.
Proof.
  apply (run_stops_at_first_failure plain_path held_in_buffer shift_jis_one_byte
           utf_16_decode unidecode_sample [cafe_path] tone_path [cafe_path]
           (text "retro") [text "TIT2"] true true fresh_session cafe_session).
  - vm_compute. reflexivity.
  - vm_compute. discriminate.
Defined.

Lemma every_input_has_an_output_witness :
  (forall input_path,
     input_path ∈ [cafe_path] ->
     is_Some (files cafe_session
                !! plain_path (output_path_of input_path (text "retro"))) /\
     is_Some (files cafe_session !! plain_path input_path)) /\
  (forall path, is_Some (files fresh_session !! path) ->
     is_Some (files cafe_session !! path)).
Proof.
  apply (every_input_has_an_output plain_path held_in_buffer shift_jis_one_byte
           utf_16_decode unidecode_sample [cafe_path] (text "retro") [text "TIT2"]
           true true fresh_session cafe_session).
  vm_compute. reflexivity.
Defined.

(** A run over two files with the default tag set and without an operator:
    the first is written, the second, a WAVE file, ends the run. *)
Example run_with_defaults :
  exists s,
    main plain_path held_in_buffer shift_jis_one_byte utf_16_decode unidecode_sample
      (text "RetroEncode") [cafe_path; tone_path] (text "retro")
      DEFAULT_PRESERVED_TAGS true true fresh_session =
    Some (Raise TypeError, s) /\
    files s = <[retro_path := cafe_output]> music_files.
Proof. eexists. split; [vm_compute; reflexivity | reflexivity]. Qed.

(** A run whose output directory is the directory of the input file: the
    file is written over itself and keeps its tag, not its audio. *)
Example run_in_place :
  exists s,
    main plain_path held_in_buffer shift_jis_one_byte utf_16_decode unidecode_sample
      (text "retroencode") [cafe_path] (text "music")
      DEFAULT_PRESERVED_TAGS true true fresh_session =
    Some (Ok tt, s) /\
    files s = <[cafe_path := cafe_output_in_place]> music_files.
Proof. eexists. split; [vm_compute; reflexivity | vm_compute; reflexivity]. Qed.
